(** * The Ludo session server (server.js): a shallow embedding and its properties

    The server keeps its rooms in a process-wide [Map], each room holding an
    array of player objects; every websocket connection closes over two
    variables, [currentRoom] and [currentPlayer], that point INTO that
    shared structure.  The handlers mutate the objects in place, so the
    embedding keeps an explicit store of room objects and of player objects
    and lets rooms and connections hold addresses into it.

    Numbers are JavaScript numbers restricted to the integers ([Z]); the one
    place where the code can produce [NaN] (the track offset of a color that
    is not one of the four) is modelled by [option Z] with [None] for [NaN].
    The string fields of a request ([roomId], [name], [color]) are strings
    or absent, and [tokenIndex] is an integer.  The two sources of
    randomness, [makeId()] and [Math.random()], are inputs of the handlers;
    nothing is assumed about the ids [makeId()] returns, so two players may
    get the same one.  A handler runs to completion before the next event is
    taken, as the event loop has it. *)

From stdpp Require Import base option list gmap strings pretty.
From Stdlib Require Import ZArith Lia.

Local Open Scope Z_scope.

(** ** Data model *)

(** A player object, as built by the 'join' handler.  [color] is [None] when
    the JavaScript value is [undefined]; [ws] names the connection. *)
Record Player := mkPlayer {
  playerId : string;
  name : string;
  color : option string;
  ws : nat;
  ready : bool;
  positions : list Z
}.

(** A room object, as built by [createRoom].  [players] holds the addresses
    of the player objects, in join order. *)
Record Room := mkRoom {
  roomId : string;
  players : list nat;
  turnIndex : Z;
  currentRoll : Z;
  consecutiveSixes : Z;
  gameStarted : bool
}.

(** The closure variables of one connection ([null] is [None]). *)
Record Conn := mkConn {
  currentRoom : option nat;
  currentPlayer : option nat
}.

(** The whole server: the [rooms] map, the two object stores, the closure
    variables of every connection, and the sockets that have closed. *)
Record Server := mkServer {
  rooms : gmap string nat;
  roomObjs : list Room;
  playerObjs : list Player;
  conns : gmap nat Conn;
  closedWs : gset nat
}.

(** One entry of the roster snapshot [{id, name, color, ready}]. *)
Record RosterEntry := mkEntry {
  e_id : string;
  e_name : string;
  e_color : option string;
  e_ready : bool
}.

(** The messages the server sends. *)
Inductive Msg :=
| error (message : string)
| joined (pid : string) (col : option string) (snapshot : list RosterEntry)
| player_list (snapshot : list RosterEntry)
| game_started (turnPlayerId : string) (state : list (string * list Z))
| roll_result (pid : string) (die : Z) (moves : list Z)
| state_update (pid : string) (pos : list Z) (tokenIndex die : Z)
    (captured finished : bool)
| turn (pid : string)
| player_finished (pid : string).

(** One [ws.send]: the receiving socket and the message. *)
Definition Send : Type := nat * Msg.

(** The parsed requests ([data.type] and the fields the handler reads). *)
Inductive Request :=
| Join (room_id : string) (nm : option string) (col : option string)
| Ready
| Start
| Roll
| Move (tokenIndex : Z).

(** Field updates, written out. *)
Definition setPositions (p : Player) (ps : list Z) : Player :=
  mkPlayer (playerId p) (name p) (color p) (ws p) (ready p) ps.

Definition setReady (p : Player) (b : bool) : Player :=
  mkPlayer (playerId p) (name p) (color p) (ws p) b (positions p).

Definition setPlayers (r : Room) (l : list nat) : Room :=
  mkRoom (roomId r) l (turnIndex r) (currentRoll r) (consecutiveSixes r)
    (gameStarted r).

Definition setTurnIndex (r : Room) (i : Z) : Room :=
  mkRoom (roomId r) (players r) i (currentRoll r) (consecutiveSixes r)
    (gameStarted r).

Definition setCurrentRoll (r : Room) (d : Z) : Room :=
  mkRoom (roomId r) (players r) (turnIndex r) d (consecutiveSixes r)
    (gameStarted r).

Definition setConsecutiveSixes (r : Room) (n : Z) : Room :=
  mkRoom (roomId r) (players r) (turnIndex r) (currentRoll r) n
    (gameStarted r).

Definition setGameStarted (r : Room) (b : bool) : Room :=
  mkRoom (roomId r) (players r) (turnIndex r) (currentRoll r)
    (consecutiveSixes r) b.

Definition setRoomObjs (s : Server) (l : list Room) : Server :=
  mkServer (rooms s) l (playerObjs s) (conns s) (closedWs s).

Definition setPlayerObjs (s : Server) (l : list Player) : Server :=
  mkServer (rooms s) (roomObjs s) l (conns s) (closedWs s).

(** [arr[i]] for a JavaScript number [i]: [undefined] below zero and past
    the end. *)
Definition at_index {A} (l : list A) (i : Z) : option A :=
  if i <? 0 then None else l !! Z.to_nat i.

(** ** Board geometry *)

Definition SAFE_INDICES : list Z := [0; 8; 13; 21; 26; 34; 39; 47].

(** [COLOR_START[color]]; any other key gives [undefined]. *)
Definition COLOR_START (c : option string) : option Z :=
  match c with
  | Some k =>
      if String.eqb k "red" then Some 0
      else if String.eqb k "green" then Some 13
      else if String.eqb k "yellow" then Some 26
      else if String.eqb k "blue" then Some 39
      else None
  | None => None
  end.

(** The local table [colorOffset] of [computeGlobalIndex]. *)
Definition colorOffset (c : option string) : option Z :=
  match c with
  | Some k =>
      if String.eqb k "red" then Some 0
      else if String.eqb k "green" then Some 10
      else if String.eqb k "yellow" then Some 20
      else if String.eqb k "blue" then Some 30
      else None
  | None => None
  end.

(** [computeGlobalIndex(color, pos)].  [None] is [NaN]: arithmetic on the
    [undefined] that a missing table entry gives.  [%] is JavaScript's
    remainder, [Z.rem]. *)
Definition computeGlobalIndex (c : option string) (pos : Z) : option Z :=
  if pos <? 0 then Some (-1)
  else if pos <=? 51 then
    start ← COLOR_START c; Some (Z.rem (start + pos) 52)
  else
    off ← colorOffset c; Some (100 + off + (pos - 52)).

(** [a === b] on numbers: never true of [NaN]. *)
Definition strict_eq (a b : option Z) : bool :=
  match a, b with
  | Some x, Some y => x =? y
  | _, _ => false
  end.

(** [SAFE_INDICES.includes(g)]. *)
Definition is_safe (g : option Z) : bool :=
  match g with
  | Some x => existsb (Z.eqb x) SAFE_INDICES
  | None => false
  end.

(** ** Move engine *)

(** The loop of [computeMovableTokens], from index [i] on. *)
Fixpoint movableFrom (i : Z) (ps : list Z) (roll : Z) : list Z :=
  match ps with
  | [] => []
  | pos :: rest =>
      let moves := movableFrom (i + 1) rest roll in
      if pos =? -1 then
        (if roll =? 6 then i :: moves else moves)
      else
        let newPos := pos + roll in
        if pos <? 52 then
          (if newPos <=? 51 then i :: moves
           else
             let diff := newPos - 51 in
             if diff <=? 6 then i :: moves else moves)
        else
          (if newPos <=? 57 then i :: moves else moves)
  end.

Definition computeMovableTokens (room : Room) (player : Player) (roll : Z)
  : list Z :=
  movableFrom 0 (positions player) roll.

(** [positions.filter((pos) => pos === 57).length]. *)
Definition finishedCount (p : Player) : Z :=
  Z.of_nat (length (List.filter (fun pos => pos =? 57) (positions p))).

(** The player object behind [room.players[idx]]. *)
Definition playerAt (objs : list Player) (room : Room) (idx : Z)
  : option Player :=
  a ← at_index (players room) idx; objs !! a.

(** The [while] loop of [nextTurn]; [remaining] counts the iterations left
    ([room.players.length - iterations]).  [None]: [room.players[idx]] is
    [undefined] and reading [p.positions] throws. *)
Fixpoint nextTurnLoop (objs : list Player) (room : Room) (remaining : nat)
    (idx : Z) : option Room :=
  match remaining with
  | O => Some room
  | S n =>
      p ← playerAt objs room idx;
      if finishedCount p <? 4 then Some (setTurnIndex room idx)
      else
        nextTurnLoop objs room n
          (Z.rem (idx + 1) (Z.of_nat (length (players room))))
  end.

Definition nextTurn (objs : list Player) (room : Room) : option Room :=
  if (length (players room) =? 0)%nat then Some room
  else
    nextTurnLoop objs room (length (players room))
      (Z.rem (turnIndex room + 1) (Z.of_nat (length (players room)))).

(** The inner [forEach] of [performMove] over one opponent's tokens: the
    positions after the captures, and whether one was made. *)
Fixpoint captureTokens (targetGlobal : option Z) (oppColor : option string)
    (ps : list Z) : list Z * bool :=
  match ps with
  | [] => ([], false)
  | oppPos :: rest =>
      let '(rest', c) := captureTokens targetGlobal oppColor rest in
      if (0 <=? oppPos) && (oppPos <=? 51)
         && strict_eq (computeGlobalIndex oppColor oppPos) targetGlobal
         && negb (is_safe targetGlobal)
      then (-1 :: rest', true)
      else (oppPos :: rest', c)
  end.

(** The outer [forEach] over [room.players].  An address outside the store
    is no JavaScript reference; the loop passes over it. *)
Fixpoint captureLoop (targetGlobal : option Z) (me : string)
    (addrs : list nat) (objs : list Player) (captured : bool)
  : list Player * bool :=
  match addrs with
  | [] => (objs, captured)
  | a :: rest =>
      match objs !! a with
      | Some opponent =>
          if String.eqb (playerId opponent) me then
            captureLoop targetGlobal me rest objs captured
          else
            let '(ps', c) :=
              captureTokens targetGlobal (color opponent) (positions opponent) in
            captureLoop targetGlobal me rest
              (<[a := setPositions opponent ps']> objs) (captured || c)
      | None => captureLoop targetGlobal me rest objs captured
      end
  end.

(** The position [performMove] computes for the chosen token. *)
Definition destination (pos roll : Z) : Z :=
  if pos =? -1 then 0
  else
    let newPos := pos + roll in
    if (pos <? 52) && (51 <? newPos) then
      let diff := newPos - 51 in 51 + diff
    else newPos.

Record MoveResult := mkResult { captured_ : bool; finishedNow : bool }.

(** [performMove(room, player, tokenIndex, roll)], [player] given by its
    address [pa].  [None] when [pa] is outside the store or
    [player.positions[tokenIndex]] is [undefined]: the handler only calls it
    with a token index it has just found in the list of legal moves. *)
Definition performMove (objs : list Player) (room : Room) (pa : nat)
    (tokenIndex roll : Z) : option (list Player * MoveResult) :=
  player ← objs !! pa;
  pos ← at_index (positions player) tokenIndex;
  let newPos := destination pos roll in
  let '(objs1, captured) :=
    if newPos <=? 51 then
      captureLoop (computeGlobalIndex (color player) newPos)
        (playerId player) (players room) objs false
    else (objs, false) in
  player1 ← objs1 !! pa;
  Some (<[pa := setPositions player1
                  (<[Z.to_nat tokenIndex := newPos]> (positions player1))]> objs1,
        mkResult captured (newPos =? 57)).

(** ** Rooms, roster and broadcast *)

Definition createRoom (rid : string) : Room := mkRoom rid [] 0 0 0 false.

(** [getRoom(roomId)]: the room object registered under the id, created and
    registered first when there is none. *)
Definition getRoom (s : Server) (rid : string) : Server * nat :=
  match rooms s !! rid with
  | Some ra => (s, ra)
  | None =>
      let ra := length (roomObjs s) in
      (mkServer (<[rid := ra]> (rooms s)) (roomObjs s ++ [createRoom rid])
         (playerObjs s) (conns s) (closedWs s), ra)
  end.

(** The player objects of [room.players], in order. *)
Definition roster (objs : list Player) (room : Room) : list Player :=
  omap (λ a, objs !! a) (players room).

(** [room.players.map((p) => ({ id, name, color, ready }))]. *)
Definition snapshot (objs : list Player) (room : Room) : list RosterEntry :=
  map (λ p, mkEntry (playerId p) (name p) (color p) (ready p))
    (roster objs room).

(** [broadcast(room, data)]: one send to every player of the room whose
    socket is open ([readyState === 1]). *)
Definition broadcast (s : Server) (room : Room) (data : Msg) : list Send :=
  flat_map
    (λ p, if bool_decide (ws p ∈ closedWs s) then [] else [(ws p, data)])
    (roster (playerObjs s) room).

(** The closure variables of connection [w]; both [null] before a join. *)
Definition connOf (s : Server) (w : nat) : Conn :=
  default (mkConn None None) (conns s !! w).

(** [!color]: [undefined] and the empty string are falsy. *)
Definition falsy (v : option string) : bool :=
  match v with
  | None => true
  | Some k => String.eqb k ""
  end.

(** [takenColors.includes(c)]. *)
Definition includes (taken : list (option string)) (c : option string)
  : bool :=
  bool_decide (c ∈ taken).

Definition COLOR_ORDER : list string := ["red"; "green"; "yellow"; "blue"].

(** ** The message handler *)

(** The handlers return [None] when the JavaScript throws (reading a field
    of [undefined]): the exception is not caught and the process ends.
    Otherwise they return the new server and the sends, in order. *)

Definition handleJoin (s : Server) (w : nat) (rid : string)
    (nm col : option string) (newId : string) : option (Server * list Send) :=
  let '(s1, ra) := getRoom s rid in
  room ← roomObjs s1 !! ra;
  if gameStarted room then
    Some (s1, [(w, error "Game already started for this room")])
  else
    let takenColors := map color (roster (playerObjs s1) room) in
    let chosenColor :=
      if falsy col || includes takenColors col then
        List.find (λ c, negb (includes takenColors (Some c))) COLOR_ORDER
      else col in
    let player :=
      mkPlayer newId
        (if falsy nm
         then "Player " +:+ pretty (length (players room) + 1)%nat
         else default "" nm)
        chosenColor w false [-1; -1; -1; -1] in
    let pa := length (playerObjs s1) in
    let room1 := setPlayers room (players room ++ [pa]) in
    let s2 :=
      mkServer (rooms s1) (<[ra := room1]> (roomObjs s1))
        (playerObjs s1 ++ [player])
        (<[w := mkConn (Some ra) (Some pa)]> (conns s1)) (closedWs s1) in
    Some (s2,
          (w, joined newId chosenColor (snapshot (playerObjs s2) room1))
          :: broadcast s2 room1 (player_list (snapshot (playerObjs s2) room1))).

Definition handleReady (s : Server) (w : nat) : option (Server * list Send) :=
  match currentRoom (connOf s w), currentPlayer (connOf s w) with
  | Some ra, Some pa =>
      player ← playerObjs s !! pa;
      let s1 := setPlayerObjs s (<[pa := setReady player true]> (playerObjs s)) in
      room ← roomObjs s1 !! ra;
      Some (s1, broadcast s1 room (player_list (snapshot (playerObjs s1) room)))
  | _, _ => Some (s, [])
  end.

Definition handleStart (s : Server) (w : nat) : option (Server * list Send) :=
  match currentRoom (connOf s w), currentPlayer (connOf s w) with
  | Some ra, Some pa =>
      room ← roomObjs s !! ra;
      if gameStarted room then Some (s, [])
      else if (length (players room) <? 2)%nat then
        Some (s, [(w, error "Need at least 2 players to start")])
      else if negb (forallb ready (roster (playerObjs s) room)) then
        Some (s, [(w, error "All players must be ready")])
      else
        let room1 := mkRoom (roomId room) (players room) 0 0 0 true in
        let s1 := setRoomObjs s (<[ra := room1]> (roomObjs s)) in
        first ← playerAt (playerObjs s1) room1 0;
        Some (s1,
              broadcast s1 room1
                (game_started (playerId first)
                   (map (λ p, (playerId p, positions p))
                      (roster (playerObjs s1) room1))))
  | _, _ => Some (s, [])
  end.

Definition handleRoll (s : Server) (w : nat) (die : Z)
  : option (Server * list Send) :=
  match currentRoom (connOf s w), currentPlayer (connOf s w) with
  | Some ra, Some pa =>
      room ← roomObjs s !! ra;
      me ← playerObjs s !! pa;
      currentTurnPlayer ← playerAt (playerObjs s) room (turnIndex room);
      if negb (String.eqb (playerId currentTurnPlayer) (playerId me)) then
        Some (s, [])
      else
        let room1 := setCurrentRoll room die in
        let room2 :=
          setConsecutiveSixes room1
            (if die =? 6 then consecutiveSixes room1 + 1 else 0) in
        let moves := computeMovableTokens room2 me die in
        let mustPass := (length moves =? 0)%nat in
        let skipTurn := (die =? 6) && (3 <=? consecutiveSixes room2) in
        let room3 := if skipTurn then setConsecutiveSixes room2 0 else room2 in
        let out1 := broadcast s room3 (roll_result (playerId me) die moves) in
        if skipTurn || mustPass then
          room4 ← nextTurn (playerObjs s) room3;
          next ← playerAt (playerObjs s) room4 (turnIndex room4);
          Some (setRoomObjs s (<[ra := room4]> (roomObjs s)),
                out1 ++ broadcast s room4 (turn (playerId next)))
        else
          Some (setRoomObjs s (<[ra := room3]> (roomObjs s)), out1)
  | _, _ => Some (s, [])
  end.

Definition handleMove (s : Server) (w : nat) (tokenIndex : Z)
  : option (Server * list Send) :=
  match currentRoom (connOf s w), currentPlayer (connOf s w) with
  | Some ra, Some pa =>
      room ← roomObjs s !! ra;
      me ← playerObjs s !! pa;
      currentTurnPlayer ← playerAt (playerObjs s) room (turnIndex room);
      if negb (String.eqb (playerId currentTurnPlayer) (playerId me)) then
        Some (s, [])
      else
        let roll := currentRoll room in
        let available := computeMovableTokens room me roll in
        if negb (bool_decide (tokenIndex ∈ available)) then Some (s, [])
        else
          '(objs1, result) ← performMove (playerObjs s) room pa tokenIndex roll;
          me1 ← objs1 !! pa;
          let s1 := setPlayerObjs s objs1 in
          let out1 :=
            broadcast s1 room
              (state_update (playerId me1) (positions me1) tokenIndex roll
                 (captured_ result) (finishedNow result)) in
          let out2 :=
            if finishedCount me1 =? 4
            then broadcast s1 room (player_finished (playerId me1))
            else [] in
          let extraTurn :=
            ((roll =? 6) && (0 <? consecutiveSixes room))
            || captured_ result || finishedNow result in
          room1 ← (if extraTurn then Some room
                   else nextTurn objs1 (setConsecutiveSixes room 0));
          let room2 := setCurrentRoll room1 0 in
          next ← playerAt objs1 room2 (turnIndex room2);
          let s2 := setRoomObjs s1 (<[ra := room2]> (roomObjs s1)) in
          Some (s2, out1 ++ out2 ++ broadcast s2 room2 (turn (playerId next)))
  | _, _ => Some (s, [])
  end.

(** [ws.on('message', ...)] on a parsed request.  [newId] is what [makeId()]
    returns and [die] what [Math.floor(Math.random() * 6) + 1] gives, should
    the handler ask. *)
Definition onMessage (s : Server) (w : nat) (data : Request) (newId : string)
    (die : Z) : option (Server * list Send) :=
  match data with
  | Join rid nm col => handleJoin s w rid nm col newId
  | Ready => handleReady s w
  | Start => handleStart s w
  | Roll => handleRoll s w die
  | Move tokenIndex => handleMove s w tokenIndex
  end.

(** [ws.on('close', ...)].  The socket is closed by the time the handler
    runs, so the broadcast passes over it. *)
Definition onClose (s : Server) (w : nat) : option (Server * list Send) :=
  let s0 :=
    mkServer (rooms s) (roomObjs s) (playerObjs s) (conns s)
      ({[w]} ∪ closedWs s) in
  match currentRoom (connOf s w), currentPlayer (connOf s w) with
  | Some ra, Some pa =>
      room ← roomObjs s0 !! ra;
      me ← playerObjs s0 !! pa;
      let room1 :=
        setPlayers room
          (List.filter
             (λ a, match playerObjs s0 !! a with
                   | Some p => negb (String.eqb (playerId p) (playerId me))
                   | None => true
                   end)
             (players room)) in
      let room2 :=
        if Z.of_nat (length (players room1)) <=? turnIndex room1
        then setTurnIndex room1 0 else room1 in
      let s1 := setRoomObjs s0 (<[ra := room2]> (roomObjs s0)) in
      let out :=
        broadcast s1 room2 (player_list (snapshot (playerObjs s1) room2)) in
      if (length (players room2) =? 0)%nat then
        Some (mkServer (delete (roomId room2) (rooms s1)) (roomObjs s1)
                (playerObjs s1) (conns s1) (closedWs s1), out)
      else Some (s1, out)
  | _, _ => Some (s0, [])
  end.

(** ** Runs of the server *)

Inductive Event :=
| Message (w : nat) (data : Request) (newId : string) (die : Z)
| Close (w : nat).

Definition step (s : Server) (e : Event) : option (Server * list Send) :=
  match e with
  | Message w data newId die => onMessage s w data newId die
  | Close w => onClose s w
  end.

(** What the environment can do: a message arrives on a socket that has not
    closed, with a die in 1..6 at hand; a socket closes once. *)
Definition enabled (s : Server) (e : Event) : Prop :=
  match e with
  | Message w _ _ die => (w ∉ closedWs s) ∧ (1 <= die <= 6)
  | Close w => w ∉ closedWs s
  end.

Definition initial : Server := mkServer ∅ [] [] ∅ ∅.

Inductive reachable : Server → Prop :=
| reach_initial : reachable initial
| reach_step s e s' out :
    reachable s → enabled s e → step s e = Some (s', out) → reachable s'.

(** A run from [s], collecting the sends; [None] if a handler throws. *)
Fixpoint run (s : Server) (es : list Event) : option (Server * list Send) :=
  match es with
  | [] => Some (s, [])
  | e :: rest =>
      '(s1, out1) ← step s e;
      '(s2, out2) ← run s1 rest;
      Some (s2, out1 ++ out2)
  end.

(** The same, checking [enabled] on the way (as a boolean). *)
Definition enabledb (s : Server) (e : Event) : bool :=
  match e with
  | Message w _ _ die =>
      negb (bool_decide (w ∈ closedWs s)) && (1 <=? die) && (die <=? 6)
  | Close w => negb (bool_decide (w ∈ closedWs s))
  end.

Fixpoint play (s : Server) (es : list Event) : option Server :=
  match es with
  | [] => Some s
  | e :: rest =>
      if enabledb s e then ('(s1, _) ← step s e; play s1 rest) else None
  end.

(** ** The client's board *)

(** From the client script: the tables of cells and the cell a token is
    drawn in. *)
Module Client.

(** [COLOR_START], as the client has it. *)
Definition COLOR_START (c : option string) : option Z :=
  match c with
  | Some k =>
      if String.eqb k "red" then Some 0
      else if String.eqb k "green" then Some 13
      else if String.eqb k "yellow" then Some 26
      else if String.eqb k "blue" then Some 39
      else None
  | None => None
  end.

(** The cells [row, col] of the 52 main track positions, by global index. *)
Definition boardMapping : list (Z * Z) :=
  [ (1, 6); (2, 6); (3, 6); (4, 6); (5, 6); (6, 6);
    (6, 5); (6, 4); (6, 3); (6, 2); (6, 1); (6, 0);
    (7, 0); (8, 0); (8, 1); (8, 2); (8, 3); (8, 4);
    (8, 5); (8, 6); (9, 6); (10, 6); (11, 6); (12, 6);
    (13, 6); (14, 6); (14, 7); (14, 8); (13, 8); (12, 8);
    (11, 8); (10, 8); (9, 8); (8, 8); (8, 9); (8, 10);
    (8, 11); (8, 12); (8, 13); (8, 14); (7, 14); (6, 14);
    (6, 13); (6, 12); (6, 11); (6, 10); (6, 9); (6, 8);
    (5, 8); (4, 8); (3, 8); (2, 8) ].

(** The six cells of the final path of each color. *)
Definition finalMapping (c : option string) : option (list (Z * Z)) :=
  match c with
  | Some k =>
      if String.eqb k "red" then
        Some [(1,7); (2,7); (3,7); (4,7); (5,7); (6,7)]
      else if String.eqb k "green" then
        Some [(7,1); (7,2); (7,3); (7,4); (7,5); (7,6)]
      else if String.eqb k "yellow" then
        Some [(13,7); (12,7); (11,7); (10,7); (9,7); (8,7)]
      else if String.eqb k "blue" then
        Some [(7,13); (7,12); (7,11); (7,10); (7,9); (7,8)]
      else None
  | None => None
  end.

(** The four home cells of each color. *)
Definition homePositions (c : option string) : option (list (Z * Z)) :=
  match c with
  | Some k =>
      if String.eqb k "red" then Some [(1,1); (1,3); (3,1); (3,3)]
      else if String.eqb k "green" then Some [(1,11); (1,13); (3,11); (3,13)]
      else if String.eqb k "yellow" then Some [(11,1); (11,3); (13,1); (13,3)]
      else if String.eqb k "blue" then Some [(11,11); (11,13); (13,11); (13,13)]
      else None
  | None => None
  end.

(** The cell [updateTokenPositions] puts token [i] of a player in, from the
    player's color and the token's position.  [None] when the
    destructuring [[row,col] = ...] meets [undefined] and throws. *)
Definition tokenCell (c : option string) (i : nat) (pos : Z)
  : option (Z * Z) :=
  if pos =? -1 then l ← homePositions c; l !! i
  else if pos <=? 51 then
    start ← COLOR_START c; at_index boardMapping (Z.rem (start + pos) 52)
  else l ← finalMapping c; at_index l (pos - 52).

(** The cell is one of the 15 x 15 cells [drawBoard] makes. *)
Definition on_grid (cell : Z * Z) : bool :=
  (0 <=? cell.1) && (cell.1 <? 15) && (0 <=? cell.2) && (cell.2 <? 15).

End Client.

(** ** Vocabulary of the properties *)

(** Every address of the room is in the store. *)
Definition addrs_in (objs : list Player) (room : Room) : Prop :=
  Forall (λ a, (a < length objs)%nat) (players room).

(** A room object is in order, for a store of [n] player objects: its turn
    index is a valid index (0 for an empty roster), its players are in the
    store, and its roll is 0 (none) or a die value. *)
Definition room_ok (n : nat) (r : Room) : Prop :=
  0 <= turnIndex r < Z.max 1 (Z.of_nat (length (players r))) ∧
  Forall (λ a, (a < n)%nat) (players r) ∧
  0 <= currentRoll r <= 6.

Definition conn_ok (s : Server) (c : Conn) : Prop :=
  (∀ ra, currentRoom c = Some ra → (ra < length (roomObjs s))%nat) ∧
  (∀ pa, currentPlayer c = Some pa → (pa < length (playerObjs s))%nat).

Record good (s : Server) : Prop := mkGood {
  good_rooms : Forall (room_ok (length (playerObjs s))) (roomObjs s);
  good_conns : ∀ w c, conns s !! w = Some c → conn_ok s c;
  good_registry :
    ∀ rid ra, rooms s !! rid = Some ra → (ra < length (roomObjs s))%nat
}.

(** The state a list of events leads to from the empty server (the empty
    server itself if the list cannot be played). *)
Definition after (es : list Event) : Server := default initial (play initial es).

(** The room object at address [ra] of a server (an empty room if there is
    none). *)
Definition roomAt (s : Server) (ra : nat) : Room :=
  default (createRoom "") (roomObjs s !! ra).

(** [j] is the seat the turn passes to from [turnIndex room]: the first
    seat after it, going round the table, whose player has fewer than four
    finished tokens (the seat [turnIndex room] itself comes last); and the
    turn stays where it is when every player has finished. *)
Definition next_active (objs : list Player) (room : Room) (j : Z) : Prop :=
  let n := Z.of_nat (length (players room)) in
  (∃ k p, 1 <= k <= n ∧ j = (turnIndex room + k) mod n ∧
          playerAt objs room j = Some p ∧ finishedCount p < 4 ∧
          ∀ k', 1 <= k' < k →
                ∃ q, playerAt objs room ((turnIndex room + k') mod n) = Some q ∧
                     4 <= finishedCount q)
  ∨ (j = turnIndex room ∧
     ∀ i, 0 <= i < n → ∃ q, playerAt objs room i = Some q ∧ 4 <= finishedCount q).

(** The server with the [gameStarted] flag of the room object at [ra]
    overwritten by [b]. *)
Definition flagStarted (s : Server) (ra : nat) (b : bool) : Server :=
  setRoomObjs s (<[ra := setGameStarted (roomAt s ra) b]> (roomObjs s)).

Definition flagResult (ra : nat) (b : bool) (r : Server * list Send)
  : Server * list Send :=
  (flagStarted r.1 ra b, r.2).

(** [c] is the first color of the fixed ordering that no player of the room
    has. *)
Definition first_unused (taken : list (option string)) (c : string) : Prop :=
  ∃ i, COLOR_ORDER !! i = Some c ∧ (Some c ∉ taken) ∧
       ∀ j c', (j < i)%nat → COLOR_ORDER !! j = Some c' → Some c' ∈ taken.

(** The test [performMove] makes on one opponent token. *)
Definition hit (target : option Z) (oppColor : option string) (oppPos : Z)
  : bool :=
  (0 <=? oppPos) && (oppPos <=? 51)
  && strict_eq (computeGlobalIndex oppColor oppPos) target
  && negb (is_safe target).

(** An opponent after the capture loop has passed over it. *)
Definition sentHome (target : option Z) (p : Player) : Player :=
  setPositions p
    (map (λ oppPos, if hit target (color p) oppPos then -1 else oppPos)
       (positions p)).

(** Whether the loop captures a token of the object at [a]. *)
Definition opponentHit (target : option Z) (me : string) (objs : list Player)
    (a : nat) : bool :=
  match objs !! a with
  | Some p =>
      negb (String.eqb (playerId p) me)
      && existsb (hit target (color p)) (positions p)
  | None => false
  end.

(** What one step can do to a room object that was there before it, in a
    server whose store of player objects goes from [objs] to [objs']: a
    player joins (the new object is appended to the store, and its color,
    if it has one, is not yet taken in the room), the game starts, a roll
    or a move is recorded, or players leave. *)
Inductive room_change (objs objs' : list Player) (r r' : Room) : Prop :=
| rc_join (p : Player) :
    gameStarted r = false →
    objs' = objs ++ [p] →
    (∀ c, color p = Some c → Some c ∉ map color (roster objs r)) →
    r' = setPlayers r (players r ++ [length objs]) →
    room_change objs objs' r r'
| rc_start :
    gameStarted r = false →
    (2 <= length (players r))%nat →
    forallb ready (roster objs r) = true →
    r' = mkRoom (roomId r) (players r) 0 0 0 true →
    room_change objs objs' r r'
| rc_roll (t die : Z) :
    1 <= die <= 6 →
    r' = mkRoom (roomId r) (players r) t die
           (if die =? 6
            then if 3 <=? consecutiveSixes r + 1 then 0
                 else consecutiveSixes r + 1
            else 0)
           (gameStarted r) →
    room_change objs objs' r r'
| rc_move (t c : Z) :
    c = consecutiveSixes r ∨ c = 0 →
    r' = mkRoom (roomId r) (players r) t 0 c (gameStarted r) →
    room_change objs objs' r r'
| rc_close (t : Z) (me : string) :
    r' = mkRoom (roomId r)
           (List.filter
              (λ a, match objs !! a with
                    | Some p => negb (String.eqb (playerId p) me)
                    | None => true
                    end)
              (players r))
           t (currentRoll r) (consecutiveSixes r) (gameStarted r) →
    room_change objs objs' r r'.

(** Two versions of one player object that differ in positions only, the
    number of tokens being the same. *)
Definition same_player (p p' : Player) : Prop :=
  playerId p' = playerId p ∧ name p' = name p ∧ color p' = color p ∧
  ws p' = ws p ∧ ready p' = ready p ∧
  length (positions p') = length (positions p).

(** The colors of the players of a room, those that are [undefined] left
    out. *)
Definition definedColors (objs : list Player) (room : Room) : list string :=
  omap color (roster objs room).

(** The domain of a token position: at home, on the track or in the lane. *)
Definition position_ok (x : Z) : Prop := x = -1 ∨ 0 <= x <= 57.

(** [makeId()] gave an id that no player object carries (the source calls
    it a random unique id; nothing in the code enforces it). *)
Definition fresh_id (s : Server) (e : Event) : Prop :=
  match e with
  | Message _ (Join _ _ _) newId _ => newId ∉ map playerId (playerObjs s)
  | _ => True
  end.

Definition fresh_idb (s : Server) (e : Event) : bool :=
  match e with
  | Message _ (Join _ _ _) newId _ =>
      negb (bool_decide (newId ∈ map playerId (playerObjs s)))
  | _ => true
  end.

(** The states the server reaches when every [makeId()] is fresh. *)
Inductive reachable_fresh : Server → Prop :=
| fresh_initial : reachable_fresh initial
| fresh_step s e s' out :
    reachable_fresh s → enabled s e → fresh_id s e →
    step s e = Some (s', out) → reachable_fresh s'.

(** Whether [play] meets fresh ids only. *)
Fixpoint fresh_run (s : Server) (es : list Event) : bool :=
  match es with
  | [] => true
  | e :: rest =>
      fresh_idb s e
      && match step s e with
         | Some (s1, _) => fresh_run s1 rest
         | None => true
         end
  end.

(** Every player object has its own id, every connection its own player
    object, and the player of an open connection sits in the roster of the
    connection's room. *)
Record seated (s : Server) : Prop := mkSeated {
  seated_ids : NoDup (map playerId (playerObjs s));
  seated_conns :
    ∀ w w' c c' pa,
      conns s !! w = Some c → conns s !! w' = Some c' →
      currentPlayer c = Some pa → currentPlayer c' = Some pa → w = w';
  seated_roster :
    ∀ w c ra pa,
      conns s !! w = Some c → w ∉ closedWs s →
      currentRoom c = Some ra → currentPlayer c = Some pa →
      ∃ room, roomObjs s !! ra = Some room ∧ pa ∈ players room
}.

(** Two sockets join room "A" and [makeId()] returns the same id twice; the
    first socket closes. *)
Definition colliding_ids : list Event :=
  [ Message 0 (Join "A" (Some "ann") (Some "red")) "p0" 1;
    Message 1 (Join "A" (Some "bob") (Some "green")) "p0" 1;
    Close 0 ].

(** The id and the roster of every room object. *)
Definition seats (l : list Room) : list (string * list nat) :=
  (λ r, (roomId r, players r)) <$> l.

(** The registry holds exactly the room objects that have players, each
    under its own id. *)
Definition live_registry (s : Server) : Prop :=
  (∀ rid ra, rooms s !! rid = Some ra →
     ∃ r, roomObjs s !! ra = Some r ∧ roomId r = rid ∧ players r ≠ []) ∧
  (∀ ra r, roomObjs s !! ra = Some r → players r ≠ [] →
     rooms s !! roomId r = Some ra).

(** Two tokens are in the same spot for the server: the same home slot, or
    off home with the same global index. *)
Definition same_spot (c1 : string) (i1 : nat) (p1 : Z)
    (c2 : string) (i2 : nat) (p2 : Z) : Prop :=
  (p1 = -1 ∧ p2 = -1 ∧ c1 = c2 ∧ i1 = i2)
  ∨ (p1 ≠ -1 ∧ p2 ≠ -1 ∧
     computeGlobalIndex (Some c1) p1 = computeGlobalIndex (Some c2) p2).

(** The slots of a board: a home slot for every color and token index, and
    the positions 0..57 of every color. *)
Definition token_slots : list (string * nat * Z) :=
  (c ← COLOR_ORDER; i ← seq 0 4; [(c, i, -1)])
  ++ (c ← COLOR_ORDER; p ← map Z.of_nat (seq 0 58); [(c, 0%nat, p)]).

(** What the client and the server make of a slot: the cell, whether it is
    on the grid, and the spot. *)
Definition slot_view (x : string * nat * Z)
  : option (Z * Z) * (bool * (string * nat + option Z)) :=
  (Client.tokenCell (Some x.1.1) x.1.2 x.2,
   (default false (Client.on_grid <$> Client.tokenCell (Some x.1.1) x.1.2 x.2),
    if x.2 =? -1 then inl (x.1.1, x.1.2)
    else inr (computeGlobalIndex (Some x.1.1) x.2))).

Definition views_agree
    (a b : option (Z * Z) * (bool * (string * nat + option Z))) : Prop :=
  a.2.1 = true ∧ is_Some a.1 ∧ (a.1 = b.1 ↔ a.2.2 = b.2.2).

(** ** Sample runs and boards *)

(** Three players join room "A", get ready and start. *)
Definition three_players_started : list Event :=
  [ Message 0 (Join "A" (Some "ann") (Some "red")) "p0" 1;
    Message 1 (Join "A" (Some "bob") (Some "green")) "p1" 1;
    Message 2 (Join "A" (Some "cy") (Some "blue")) "p2" 1;
    Message 0 Ready "" 1; Message 1 Ready "" 1; Message 2 Ready "" 1;
    Message 0 Start "" 1 ].

(** The first two roll a 3 with every token at home, so the turn reaches
    the third player, who then leaves. *)
Definition departure_run : list Event :=
  three_players_started ++
  [ Message 0 Roll "" 3; Message 1 Roll "" 3; Close 2 ].

(** Two players join room "A", get ready and start. *)
Definition two_players_started : list Event :=
  [ Message 0 (Join "A" (Some "ann") (Some "red")) "p0" 1;
    Message 1 (Join "A" (Some "bob") (Some "green")) "p1" 1;
    Message 0 Ready "" 1; Message 1 Ready "" 1;
    Message 0 Start "" 1 ].

(** The first player rolls two sixes, moving token 0 each time. *)
Definition two_sixes : list Event :=
  two_players_started ++
  [ Message 0 Roll "" 6; Message 0 (Move 0) "" 1;
    Message 0 Roll "" 6; Message 0 (Move 0) "" 1 ].

(** One connection has joined room "A"; nobody is ready, nothing started. *)
Definition first_joiner : list Event :=
  [ Message 0 (Join "A" None None) "p0" 1 ].

(** The first player rolls a 6 and moves token 0 out of home.  The six
    gives them the turn again, and the roll is used up ([currentRoll] is 0). *)
Definition six_then_out : list Event :=
  two_players_started ++ [ Message 0 Roll "" 6; Message 0 (Move 0) "" 1 ].

(** Four connections join room "A" without asking for a color. *)
Definition four_joined : list Event :=
  [ Message 0 (Join "A" None None) "p0" 1;
    Message 1 (Join "A" None None) "p1" 1;
    Message 2 (Join "A" None None) "p2" 1;
    Message 3 (Join "A" None None) "p3" 1 ].

(** A small board for the examples: red's token 0 stands on its square 3;
    green has two tokens on its square 44 (the global cell 5, not a safe
    one), a token on its square 47 (the global cell 8, a safe one) and one
    at the end of its lane. *)
Definition demo_objs : list Player :=
  [ mkPlayer "p0" "ann" (Some "red") 0 true [3; -1; -1; -1];
    mkPlayer "p1" "bob" (Some "green") 1 true [44; 44; 47; 57] ].

Definition demo_room : Room := mkRoom "A" [0%nat; 1%nat] 0 2 0 true.

(** The first player rolls a third six: the streak is bust, the turn goes to
    the second player, and the 6 stays in [currentRoll]. *)
Definition three_sixes : list Event :=
  two_sixes ++ [ Message 0 Roll "" 6 ].

(** One player alone in room "A" (nothing requires the game to have
    started): a 6 brings token 0 out, eleven 5s and a 2 bring it to 57. *)
Definition finish_run : list Event :=
  first_joiner
  ++ [ Message 0 Roll "" 6; Message 0 (Move 0) "" 1 ]
  ++ concat (replicate 11 [ Message 0 Roll "" 5; Message 0 (Move 0) "" 1 ])
  ++ [ Message 0 Roll "" 2; Message 0 (Move 0) "" 1 ].

(** Two players have joined room "A" and are ready; nobody has started. *)
Definition two_players_ready : list Event :=
  [ Message 0 (Join "A" (Some "ann") (Some "red")) "p0" 1;
    Message 1 (Join "A" (Some "bob") (Some "green")) "p1" 1;
    Message 0 Ready "" 1; Message 1 Ready "" 1 ].

(** After [colliding_ids], a third socket joins "A" (a new room object is
    made, the old one having left the registry), and the second socket
    closes. *)
Definition colliding_ids_rejoin : list Event :=
  colliding_ids ++
  [ Message 2 (Join "A" (Some "cy") (Some "red")) "p2" 1; Close 1 ].

(** * Properties *)

(** ** The move engine on small inputs *)

Example all_home_six :
  computeMovableTokens demo_room
    (mkPlayer "p0" "ann" (Some "red") 0 true [-1; -1; -1; -1]) 6
  = [0; 1; 2; 3].
Proof. reflexivity. Qed.

Example all_home_no_six roll :
  1 <= roll <= 5 →
  computeMovableTokens demo_room
    (mkPlayer "p0" "ann" (Some "red") 0 true [-1; -1; -1; -1]) roll
  = [].
Proof.
  intros Hr. unfold computeMovableTokens. simpl.
  destruct (Z.eqb_spec roll 6); [lia|done].
Qed.

Example enter_final_lane :
  destination 50 4 = 54 ∧ movableFrom 0 [50] 4 = [0] ∧ movableFrom 0 [50] 6 = [0].
Proof. done. Qed.

Example overshoot_in_lane : movableFrom 0 [55] 3 = [] ∧ movableFrom 0 [55] 2 = [0].
Proof. done. Qed.

Example green_start_is_global_13 :
  computeGlobalIndex (Some "green") 0 = Some 13 ∧
  computeGlobalIndex (Some "blue") 20 = Some 7 ∧
  computeGlobalIndex (Some "purple") 20 = None.
Proof. done. Qed.

(** ** Indexing and the turn rotation *)

Lemma at_index_Some {A} (l : list A) (i : Z) (x : A) :
  at_index l i = Some x → 0 <= i < Z.of_nat (length l) ∧ l !! Z.to_nat i = Some x.
Proof.
  unfold at_index. destruct (Z.ltb_spec i 0); [done|].
  intros Hl. split; [|done].
  apply lookup_lt_Some in Hl. lia.
Qed.

Lemma at_index_in_range {A} (l : list A) (i : Z) :
  0 <= i < Z.of_nat (length l) → is_Some (at_index l i).
Proof.
  intros Hi. unfold at_index. destruct (Z.ltb_spec i 0); [lia|].
  apply lookup_lt_is_Some. lia.
Qed.

Lemma playerAt_Some objs room idx p :
  playerAt objs room idx = Some p →
  0 <= idx < Z.of_nat (length (players room)) ∧
  ∃ a, players room !! Z.to_nat idx = Some a ∧ objs !! a = Some p.
Proof.
  unfold playerAt. intros H.
  destruct (at_index (players room) idx) as [a|] eqn:Ha; [|done].
  apply at_index_Some in Ha as [Hr Ha]. simpl in H. eauto.
Qed.

Lemma playerAt_in_range objs room idx :
  addrs_in objs room → 0 <= idx < Z.of_nat (length (players room)) →
  is_Some (playerAt objs room idx).
Proof.
  intros Hin Hr. unfold playerAt.
  destruct (at_index_in_range (players room) idx Hr) as [a Ha].
  rewrite Ha. simpl. apply lookup_lt_is_Some.
  apply at_index_Some in Ha as [_ Ha].
  eapply Forall_lookup_1 in Hin; eauto.
Qed.

Lemma rem_step_range (i n : Z) : 0 <= i → 0 < n → 0 <= Z.rem (i + 1) n < n.
Proof. intros. apply Z.rem_bound_pos; lia. Qed.

(** [nextTurn] writes nothing but [turnIndex], and only an index at which it
    found a player. *)
Lemma nextTurnLoop_cases objs room m idx room' :
  nextTurnLoop objs room m idx = Some room' →
  room' = room ∨
  ∃ j, room' = setTurnIndex room j ∧ 0 <= j < Z.of_nat (length (players room)).
Proof.
  revert idx. induction m as [|m IH]; intros idx; simpl.
  - intros [= <-]. by left.
  - destruct (playerAt objs room idx) as [p|] eqn:Hp; [|done]. simpl.
    destruct (finishedCount p <? 4).
    + intros [= <-]. right. exists idx. split; [done|].
      by apply playerAt_Some in Hp as [? _].
    + apply IH.
Qed.

Lemma nextTurn_cases objs room room' :
  nextTurn objs room = Some room' →
  room' = room ∨
  ∃ j, room' = setTurnIndex room j ∧ 0 <= j < Z.of_nat (length (players room)).
Proof.
  unfold nextTurn. destruct (length (players room) =? 0)%nat.
  - intros [= <-]. by left.
  - apply nextTurnLoop_cases.
Qed.

Lemma nextTurnLoop_total objs room m idx :
  addrs_in objs room → 0 <= idx < Z.of_nat (length (players room)) →
  is_Some (nextTurnLoop objs room m idx).
Proof.
  intros Hin. revert idx. induction m as [|m IH]; intros idx Hr; simpl; [eauto|].
  destruct (playerAt_in_range objs room idx Hin Hr) as [p ->]. simpl.
  destruct (finishedCount p <? 4); [eauto|].
  apply IH. apply rem_step_range; lia.
Qed.

Lemma nextTurn_total objs room :
  addrs_in objs room → 0 <= turnIndex room → is_Some (nextTurn objs room).
Proof.
  intros Hin Ht. unfold nextTurn.
  destruct (Nat.eqb_spec (length (players room)) 0); [eauto|].
  apply nextTurnLoop_total; [done|]. apply rem_step_range; lia.
Qed.

(** ** The invariant of the server *)

Lemma room_ok_mono n m r : (n <= m)%nat → room_ok n r → room_ok m r.
Proof.
  intros Hle (Ht & Ha & Hr). repeat split; try lia.
  eapply Forall_impl; [exact Ha|]. simpl. lia.
Qed.

Lemma room_ok_lookup s ra room :
  good s → roomObjs s !! ra = Some room →
  room_ok (length (playerObjs s)) room.
Proof. intros Hg Hl. eapply Forall_lookup_1; [apply Hg|exact Hl]. Qed.

Lemma room_ok_addrs_in s room :
  room_ok (length (playerObjs s)) room → addrs_in (playerObjs s) room.
Proof. by intros (_ & Ha & _). Qed.

Lemma connOf_ok s w : good s → conn_ok s (connOf s w).
Proof.
  intros Hg. unfold connOf.
  destruct (conns s !! w) as [c|] eqn:Hc; simpl.
  - by eapply good_conns.
  - split; intros ? [=].
Qed.

Lemma good_initial : good initial.
Proof.
  split; simpl.
  - constructor.
  - intros w c. by rewrite lookup_empty.
  - intros rid ra. by rewrite lookup_empty.
Qed.

Lemma getRoom_good s rid s1 ra :
  good s → getRoom s rid = (s1, ra) →
  good s1 ∧ is_Some (roomObjs s1 !! ra) ∧ playerObjs s1 = playerObjs s.
Proof.
  intros Hg. unfold getRoom.
  destruct (rooms s !! rid) as [ra0|] eqn:Hreg.
  - intros [= <- <-]. split; [done|]. split; [|done].
    apply lookup_lt_is_Some. by eapply good_registry.
  - intros [= <- <-]. split; [|split; [|done]].
    + split; simpl.
      * apply Forall_app. split; [apply Hg|].
        constructor; [|constructor]. repeat split; simpl; try lia. constructor.
      * intros w c Hc. destruct (good_conns s Hg w c Hc) as [H1 H2].
        split; simpl; [|done].
        intros ra' Hra'. rewrite length_app. specialize (H1 ra' Hra'). lia.
      * intros rid' ra'. rewrite length_app. simpl.
        destruct (decide (rid = rid')) as [->|Hne].
        -- rewrite lookup_insert_eq. intros [= <-]. lia.
        -- rewrite lookup_insert_ne by done. intros H.
           apply (good_registry s Hg) in H. lia.
    + simpl. rewrite lookup_app_r by lia. rewrite Nat.sub_diag. simpl. eauto.
Qed.

Lemma handleJoin_good s w rid nm col newId s' out :
  good s → handleJoin s w rid nm col newId = Some (s', out) → good s'.
Proof.
  intros Hg. unfold handleJoin.
  destruct (getRoom s rid) as [s1 ra] eqn:Hget.
  destruct (getRoom_good s rid s1 ra Hg Hget) as (Hg1 & [room Hroom] & Hobjs).
  rewrite Hroom. simpl.
  destruct (gameStarted room); [by intros [= <- <-]|].
  intros [= <- <-].
  pose proof (room_ok_lookup s1 ra room Hg1 Hroom) as (Ht & Ha & Hr).
  assert (Hra : (ra < length (roomObjs s1))%nat) by (by eapply lookup_lt_Some).
  split; simpl.
  - rewrite length_app. simpl. apply Forall_insert.
    + eapply Forall_impl; [apply Hg1|]. intros r. apply room_ok_mono. lia.
    + repeat split; simpl; try lia.
      * rewrite length_app. simpl. lia.
      * apply Forall_app. split.
        -- eapply Forall_impl; [exact Ha|]. simpl. lia.
        -- constructor; [lia|constructor].
  - intros w' c. unfold conn_ok. simpl. rewrite length_insert, length_app. simpl.
    destruct (decide (w = w')) as [->|Hne].
    + rewrite lookup_insert_eq. intros [= <-]. split; simpl.
      * by intros ? [= <-].
      * intros ? [= <-]. lia.
    + rewrite lookup_insert_ne by done. intros Hc.
      destruct (good_conns s1 Hg1 w' c Hc) as [H1 H2]. split; [done|].
      intros pa Hpa. specialize (H2 pa Hpa). lia.
  - intros rid' ra'. rewrite length_insert. apply Hg1.
Qed.

Lemma good_update_room s ra room' :
  good s → room_ok (length (playerObjs s)) room' →
  good (setRoomObjs s (<[ra := room']> (roomObjs s))).
Proof.
  intros Hg Hok. split; simpl.
  - apply Forall_insert; [apply Hg|done].
  - intros w c Hc. unfold conn_ok. simpl. rewrite length_insert.
    by apply (good_conns s Hg w c).
  - intros rid ra'. rewrite length_insert. apply Hg.
Qed.

Lemma good_update_players s objs' :
  good s → length objs' = length (playerObjs s) →
  good (setPlayerObjs s objs').
Proof.
  intros Hg Hlen. split; simpl.
  - rewrite Hlen. apply Hg.
  - intros w c Hc. unfold conn_ok. simpl. rewrite Hlen.
    by apply (good_conns s Hg w c).
  - apply Hg.
Qed.

Lemma room_ok_nextTurn n objs r r' :
  room_ok n r → nextTurn objs r = Some r' → room_ok n r'.
Proof.
  intros (Ht & Ha & Hr) Hn.
  apply nextTurn_cases in Hn as [->|(j & -> & Hj)]; [done|].
  repeat split; simpl; try done; lia.
Qed.

Lemma captureTokens_length target c ps :
  length (captureTokens target c ps).1 = length ps.
Proof.
  induction ps as [|p ps IH]; simpl; [done|].
  destruct (captureTokens target c ps) as [rest' b]. simpl in IH.
  destruct (_ && _); simpl; by rewrite IH.
Qed.

Lemma captureLoop_length target me addrs objs c :
  length (captureLoop target me addrs objs c).1 = length objs.
Proof.
  revert objs c. induction addrs as [|a addrs IH]; intros objs c; simpl; [done|].
  destruct (objs !! a) as [opp|]; [|apply IH].
  destruct (String.eqb (playerId opp) me); [apply IH|].
  destruct (captureTokens target (color opp) (positions opp)) as [ps' c'].
  rewrite IH. apply length_insert.
Qed.

Lemma performMove_length objs room pa ti roll objs' res :
  performMove objs room pa ti roll = Some (objs', res) →
  length objs' = length objs.
Proof.
  unfold performMove. intros H.
  destruct (objs !! pa) as [player|]; [|done]. simpl in H.
  destruct (at_index (positions player) ti) as [pos|]; [|done]. simpl in H.
  destruct (destination pos roll <=? 51).
  - pose proof (captureLoop_length
      (computeGlobalIndex (color player) (destination pos roll))
      (playerId player) (players room) objs false) as Hlen.
    destruct (captureLoop _ _ _ _ _) as [objs1 cap]. simpl in Hlen.
    destruct (objs1 !! pa); [|done]. simpl in H.
    injection H as <- <-. by rewrite length_insert.
  - destruct (objs !! pa); [|done]. simpl in H.
    injection H as <- <-. by rewrite length_insert.
Qed.

Lemma handleReady_good s w s' out :
  good s → handleReady s w = Some (s', out) → good s'.
Proof.
  intros Hg. unfold handleReady.
  destruct (currentRoom (connOf s w)) as [ra|]; [|by intros [= <- <-]].
  destruct (currentPlayer (connOf s w)) as [pa|]; [|by intros [= <- <-]].
  destruct (playerObjs s !! pa) as [player|]; [|done]. simpl.
  destruct (roomObjs s !! ra) as [room|]; [|done]. simpl.
  intros [= <- <-]. apply good_update_players; [done|]. apply length_insert.
Qed.

Lemma handleStart_good s w s' out :
  good s → handleStart s w = Some (s', out) → good s'.
Proof.
  intros Hg. unfold handleStart.
  destruct (currentRoom (connOf s w)) as [ra|]; [|by intros [= <- <-]].
  destruct (currentPlayer (connOf s w)) as [pa|]; [|by intros [= <- <-]].
  destruct (roomObjs s !! ra) as [room|] eqn:Hroom; [|done]. simpl.
  destruct (gameStarted room); [by intros [= <- <-]|].
  destruct (Nat.ltb_spec (length (players room)) 2); [by intros [= <- <-]|].
  destruct (negb _); [by intros [= <- <-]|].
  destruct (playerAt _ _ 0); [|done]. simpl.
  intros [= <- <-]. apply good_update_room; [done|].
  destruct (room_ok_lookup s ra room Hg Hroom) as (Ht & Ha & Hr).
  repeat split; simpl; try done; lia.
Qed.

Lemma handleRoll_good s w die s' out :
  good s → 1 <= die <= 6 → handleRoll s w die = Some (s', out) → good s'.
Proof.
  intros Hg Hdie. unfold handleRoll.
  destruct (currentRoom (connOf s w)) as [ra|]; [|by intros [= <- <-]].
  destruct (currentPlayer (connOf s w)) as [pa|]; [|by intros [= <- <-]].
  destruct (roomObjs s !! ra) as [room|] eqn:Hroom; [|done]. simpl.
  destruct (playerObjs s !! pa) as [me|]; [|done]. simpl.
  destruct (playerAt _ _ _) as [cur|]; [|done]. simpl.
  destruct (negb _); [by intros [= <- <-]|].
  destruct (room_ok_lookup s ra room Hg Hroom) as (Ht & Ha & Hr).
  set (room3 := if (die =? 6) && _ then _ else _).
  assert (Hok3 : room_ok (length (playerObjs s)) room3).
  { subst room3. destruct (_ && _); repeat split; simpl; try done; lia. }
  destruct (_ || _).
  - destruct (nextTurn (playerObjs s) room3) as [room4|] eqn:Hn; [|done]. simpl.
    destruct (playerAt _ room4 _); [|done]. simpl.
    intros [= <- <-]. apply good_update_room; [done|].
    by eapply room_ok_nextTurn.
  - intros [= <- <-]. by apply good_update_room.
Qed.

Lemma handleMove_good s w ti s' out :
  good s → handleMove s w ti = Some (s', out) → good s'.
Proof.
  intros Hg. unfold handleMove.
  destruct (currentRoom (connOf s w)) as [ra|]; [|by intros [= <- <-]].
  destruct (currentPlayer (connOf s w)) as [pa|]; [|by intros [= <- <-]].
  destruct (roomObjs s !! ra) as [room|] eqn:Hroom; [|done]. simpl.
  destruct (playerObjs s !! pa) as [me|]; [|done]. simpl.
  destruct (playerAt _ _ _) as [cur|]; [|done]. simpl.
  destruct (negb (String.eqb _ _)); [by intros [= <- <-]|].
  destruct (negb (bool_decide _)); [by intros [= <- <-]|].
  destruct (performMove _ _ _ _ _) as [[objs1 result]|] eqn:Hpm; [|done]. simpl.
  destruct (objs1 !! pa) as [me1|]; [|done]. simpl.
  apply performMove_length in Hpm.
  destruct (room_ok_lookup s ra room Hg Hroom) as (Ht & Ha & Hr).
  set (extra := _ || _ || _).
  destruct (if extra then Some room else _) as [room1|] eqn:Hroom1; [|done].
  simpl. destruct (playerAt _ _ _); [|done]. simpl.
  intros [= <- <-].
  assert (Hok1 : room_ok (length (playerObjs s)) room1).
  { destruct extra.
    - injection Hroom1 as <-. repeat split; simpl; try done; lia.
    - eapply room_ok_nextTurn; [|exact Hroom1].
      repeat split; simpl; try done; lia. }
  apply (good_update_room (setPlayerObjs s objs1)).
  - by apply good_update_players.
  - simpl. rewrite Hpm. destruct Hok1 as (? & ? & ?).
    repeat split; simpl; try done; lia.
Qed.

Lemma onClose_good s w s' out :
  good s → onClose s w = Some (s', out) → good s'.
Proof.
  intros Hg. unfold onClose.
  assert (Hg0 : good (mkServer (rooms s) (roomObjs s) (playerObjs s) (conns s)
                        ({[w]} ∪ closedWs s))).
  { split; simpl; apply Hg. }
  destruct (currentRoom (connOf s w)) as [ra|]; [|by intros [= <- <-]].
  destruct (currentPlayer (connOf s w)) as [pa|]; [|by intros [= <- <-]].
  simpl.
  destruct (roomObjs s !! ra) as [room|] eqn:Hroom; [|done]. simpl.
  destruct (playerObjs s !! pa) as [me|]; [|done]. simpl.
  destruct (room_ok_lookup s ra room Hg Hroom) as (Ht & Ha & Hr).
  set (l1 := List.filter _ (players room)).
  assert (Hl1 : Forall (λ a, (a < length (playerObjs s))%nat) l1).
  { apply Forall_forall. intros a Hin. apply list_elem_of_In in Hin.
    apply filter_In in Hin as [Hin _]. apply list_elem_of_In in Hin.
    by eapply Forall_forall in Ha. }
  destruct (Z.leb_spec (Z.of_nat (length l1)) (turnIndex room));
    match goal with |- context [<[ra := ?r]> _] => set (room2 := r) end;
    (assert (Hok2 : room_ok (length (playerObjs s)) room2)
      by (subst room2; repeat split; simpl; try done; lia)).
  all: simpl.
  all: pose proof (good_update_room _ ra room2 Hg0 Hok2) as Hg1.
  all: match goal with |- (if ?b then _ else _) = _ → _ => destruct b end;
    intros [= <- <-]; [|done].
  all: split; simpl; [apply Hg1|apply Hg1|].
  all: intros rid ra' Hl; apply lookup_delete_Some in Hl as [_ Hl].
  all: by apply (good_registry _ Hg1 rid ra').
Qed.

Lemma step_good s e s' out :
  good s → enabled s e → step s e = Some (s', out) → good s'.
Proof.
  intros Hg He. destruct e as [w data newId die|w]; simpl.
  - destruct He as [_ Hdie]. destruct data; simpl.
    + by apply handleJoin_good.
    + by apply handleReady_good.
    + by apply handleStart_good.
    + by apply handleRoll_good.
    + by apply handleMove_good.
  - by apply onClose_good.
Qed.

Lemma reachable_good s : reachable s → good s.
Proof.
  induction 1 as [|s e s' out _ IH He Hs]; [apply good_initial|].
  by eapply step_good.
Qed.

(** ** Concrete runs *)

Lemma enabledb_enabled s e : enabledb s e = true → enabled s e.
Proof.
  destruct e as [w data newId die|w]; simpl.
  - intros H. apply andb_prop in H as [H H3]. apply andb_prop in H as [H1 H2].
    apply negb_true_iff, bool_decide_eq_false in H1. split; [done|lia].
  - intros H. by apply negb_true_iff, bool_decide_eq_false in H.
Defined.

Lemma play_reachable es : ∀ s s', reachable s → play s es = Some s' → reachable s'.
Proof.
  induction es as [|e es IH]; intros s s' Hr; simpl.
  - by intros [= <-].
  - destruct (enabledb s e) eqn:He; [|done].
    destruct (step s e) as [[s1 out1]|] eqn:Hs; [|done]. simpl.
    apply IH. eapply reach_step; [exact Hr|by apply enabledb_enabled|exact Hs].
Defined.

Lemma after_reachable es : is_Some (play initial es) → reachable (after es).
Proof.
  intros [s Hs]. unfold after. rewrite Hs. simpl.
  eapply play_reachable; [apply reach_initial|exact Hs].
Defined.

(** ** C4: the turn index stays a valid index *)

(** C4. In every state the server can reach by joins, readies, starts,
    rolls, moves and departures, every room object with a non-empty roster
    has [0 <= turnIndex < players.length]. *)
Theorem turnIndex_in_range s ra room :
  reachable s → roomObjs s !! ra = Some room → players room ≠ [] →
  0 <= turnIndex room < Z.of_nat (length (players room)).
Proof.
  intros Hr Hroom Hne.
  destruct (room_ok_lookup s ra room (reachable_good s Hr) Hroom) as (Ht & _).
  destruct (players room) as [|a l]; [done|]. simpl length in *. lia.
Qed.

Lemma turnIndex_in_range_witness :
  players (roomAt (after departure_run) 0) = [0%nat; 1%nat] ∧
  0 <= turnIndex (roomAt (after departure_run) 0)
    < Z.of_nat (length (players (roomAt (after departure_run) 0))).
Proof.
  split; [vm_compute; reflexivity|].
  apply (turnIndex_in_range (after departure_run) 0).
  - apply after_reachable. vm_compute. eauto.
  - vm_compute. reflexivity.
  - vm_compute. discriminate.
Defined.

(** ** C5: requests from a player who does not hold the turn *)

(** C5. A 'roll' or a 'move' sent by a player whose id is not that of
    [players[turnIndex]] leaves the whole server as it was (so the roster,
    every position, [turnIndex], [currentRoll] and [consecutiveSixes] of the
    room too) and sends nothing: no broadcast and no error message. *)
Theorem not_your_turn_is_dropped s w ra pa room me cur newId die tokenIndex :
  currentRoom (connOf s w) = Some ra →
  currentPlayer (connOf s w) = Some pa →
  roomObjs s !! ra = Some room →
  playerObjs s !! pa = Some me →
  playerAt (playerObjs s) room (turnIndex room) = Some cur →
  playerId cur ≠ playerId me →
  onMessage s w Roll newId die = Some (s, []) ∧
  onMessage s w (Move tokenIndex) newId die = Some (s, []).
Proof.
  intros Hcr Hcp Hroom Hme Hcur Hne.
  apply String.eqb_neq in Hne.
  split; simpl; unfold handleRoll, handleMove;
    rewrite Hcr, Hcp, Hroom; simpl; rewrite Hme; simpl; rewrite Hcur; simpl;
    by rewrite Hne.
Qed.

Lemma not_your_turn_is_dropped_witness :
  onMessage (after three_players_started) 1 Roll "" 4
    = Some (after three_players_started, []) ∧
  onMessage (after three_players_started) 1 (Move 0) "" 4
    = Some (after three_players_started, []).
Proof.
  eapply (not_your_turn_is_dropped (after three_players_started) 1 0 1).
  - vm_compute. reflexivity.
  - vm_compute. reflexivity.
  - vm_compute. reflexivity.
  - vm_compute. reflexivity.
  - vm_compute. reflexivity.
  - vm_compute. discriminate.
Defined.

(** ** Where the turn goes *)

Lemma nextTurnLoop_next_active objs room m k idx room' :
  let n := Z.of_nat (length (players room)) in
  0 < n → 1 <= k → k + Z.of_nat m = n + 1 →
  idx = (turnIndex room + k) mod n →
  (∀ k', 1 <= k' < k →
         ∃ q, playerAt objs room ((turnIndex room + k') mod n) = Some q ∧
              4 <= finishedCount q) →
  nextTurnLoop objs room m idx = Some room' →
  next_active objs room (turnIndex room').
Proof.
  intros n Hn. revert k idx.
  induction m as [|m IH]; intros k idx Hk Hkm Hidx Hbefore; simpl.
  - intros [= <-]. right. split; [done|]. fold n.
    intros i Hi.
    set (k' := (i - turnIndex room) mod n).
    assert (Hk' : 0 <= k' < n) by (apply Z.mod_pos_bound; lia).
    destruct (decide (k' = 0)) as [H0|H0].
    + destruct (Hbefore n ltac:(lia)) as (q & Hq & Hfin).
      exists q. split; [|done]. rewrite <- Hq. f_equal.
      rewrite <- (Z.mod_small i n) at 1 by lia.
      replace (turnIndex room + n) with (i - (i - turnIndex room) + 1 * n) by lia.
      rewrite Z.mod_add by lia.
      rewrite Zminus_mod. fold k'. rewrite H0, Z.sub_0_r.
      by rewrite Z.mod_mod by lia.
    + destruct (Hbefore k' ltac:(lia)) as (q & Hq & Hfin).
      exists q. split; [|done]. rewrite <- Hq. f_equal.
      subst k'. rewrite Zplus_mod_idemp_r.
      replace (turnIndex room + (i - turnIndex room)) with i by lia.
      symmetry. apply Z.mod_small. lia.
  - destruct (playerAt objs room idx) as [p|] eqn:Hp; [|done]. simpl.
    destruct (Z.ltb_spec (finishedCount p) 4) as [Hact|Hfin].
    + intros [= <-]. left. simpl. exists k, p. fold n.
      repeat split; try done; lia.
    + apply (IH (k + 1)); [lia|lia| |].
      * rewrite Z.rem_mod_nonneg.
        -- fold n. subst idx. rewrite Zplus_mod_idemp_l. f_equal. lia.
        -- apply playerAt_Some in Hp as [? _]. lia.
        -- lia.
      * intros k' Hk'. destruct (decide (k' = k)) as [->|Hne].
        -- exists p. split; [|done]. by rewrite <- Hidx.
        -- apply Hbefore. lia.
Qed.

Lemma nextTurn_next_active objs room room' :
  0 <= turnIndex room → players room ≠ [] →
  nextTurn objs room = Some room' →
  next_active objs room (turnIndex room').
Proof.
  intros Ht Hne. unfold nextTurn.
  destruct (Nat.eqb_spec (length (players room)) 0) as [H0|H0].
  { by destruct (players room). }
  apply (nextTurnLoop_next_active objs room _ 1); try lia.
  apply Z.rem_mod_nonneg; lia.
Qed.

Lemma broadcast_ext s s' r r' m :
  players r = players r' → playerObjs s = playerObjs s' →
  closedWs s = closedWs s' → broadcast s r m = broadcast s' r' m.
Proof.
  intros Hp Ho Hc. unfold broadcast, roster. by rewrite Hp, Ho, Hc.
Qed.

Lemma playerAt_ext objs r r' i :
  players r = players r' → playerAt objs r i = playerAt objs r' i.
Proof. intros Hp. unfold playerAt. by rewrite Hp. Qed.

Lemma next_active_ext objs r r' j :
  players r = players r' → turnIndex r = turnIndex r' →
  next_active objs r j → next_active objs r' j.
Proof.
  intros Hp Ht. unfold next_active, playerAt. by rewrite Hp, Ht.
Qed.

(** ** C6: the third six in a row *)

(** C6. When the player holding the turn rolls a 6 that brings
    [consecutiveSixes] to 3 (or more), the roll is announced, the turn goes
    to the next active player whatever the legal moves are, and
    [consecutiveSixes] is 0 afterwards. *)
Theorem third_six_passes_turn s w ra pa room me cur :
  reachable s →
  currentRoom (connOf s w) = Some ra →
  currentPlayer (connOf s w) = Some pa →
  roomObjs s !! ra = Some room →
  playerObjs s !! pa = Some me →
  playerAt (playerObjs s) room (turnIndex room) = Some cur →
  playerId cur = playerId me →
  3 <= consecutiveSixes room + 1 →
  ∃ s' room' next,
    handleRoll s w 6 =
      Some (s',
            broadcast s room
              (roll_result (playerId me) 6 (computeMovableTokens room me 6))
            ++ broadcast s room (turn (playerId next))) ∧
    roomObjs s' !! ra = Some room' ∧
    playerObjs s' = playerObjs s ∧
    players room' = players room ∧
    consecutiveSixes room' = 0 ∧
    next_active (playerObjs s) room (turnIndex room') ∧
    playerAt (playerObjs s) room (turnIndex room') = Some next.
Proof.
  intros Hr Hcr Hcp Hroom Hme Hcur Hid Hsix.
  pose proof (reachable_good s Hr) as Hg.
  destruct (room_ok_lookup s ra room Hg Hroom) as (Ht & Ha & Hroll).
  pose proof (playerAt_Some _ _ _ _ Hcur) as [Hrange _].
  assert (Hne : players room ≠ []).
  { intros E. rewrite E in Hrange. simpl in Hrange. lia. }
  set (room3 := setConsecutiveSixes
                  (setConsecutiveSixes (setCurrentRoll room 6)
                     (consecutiveSixes room + 1)) 0).
  destruct (nextTurn_total (playerObjs s) room3) as [room4 Hn];
    [exact Ha|simpl; lia|].
  pose proof (nextTurn_next_active _ room3 _ (proj1 Ht) Hne Hn) as Hnext.
  assert (Hp4 : players room4 = players room).
  { apply nextTurn_cases in Hn as [->|(j & -> & _)]; done. }
  assert (Hc4 : consecutiveSixes room4 = 0).
  { apply nextTurn_cases in Hn as [->|(j & -> & _)]; done. }
  assert (Hnx : is_Some (playerAt (playerObjs s) room (turnIndex room4))).
  { apply playerAt_in_range; [exact Ha|].
    apply nextTurn_cases in Hn as [->|(j & -> & Hj)]; simpl; [lia|done]. }
  destruct Hnx as [next Hnx].
  exists (setRoomObjs s (<[ra := room4]> (roomObjs s))), room4, next.
  split; [|split; [|split; [|split; [|split; [|split]]]]]; try done.
  - unfold handleRoll. rewrite Hcr, Hcp, Hroom. simpl. rewrite Hme. simpl.
    rewrite Hcur. simpl.
    apply String.eqb_eq in Hid. rewrite Hid. simpl.
    destruct (Z.leb_spec 3 (consecutiveSixes room + 1)); [|lia]. simpl.
    fold room3. rewrite Hn. simpl.
    rewrite (playerAt_ext _ room4 room) by done. rewrite Hnx. simpl.
    do 2 f_equal. f_equal; by apply broadcast_ext.
  - simpl. apply list_lookup_insert_eq. by eapply lookup_lt_Some.
Qed.

Lemma third_six_passes_turn_witness :
  ∃ s' room' next,
    handleRoll (after two_sixes) 0 6 =
      Some (s',
            broadcast (after two_sixes) (roomAt (after two_sixes) 0)
              (roll_result "p0" 6 [0; 1; 2; 3])
            ++ broadcast (after two_sixes) (roomAt (after two_sixes) 0)
                 (turn (playerId next))) ∧
    roomObjs s' !! 0%nat = Some room' ∧
    playerObjs s' = playerObjs (after two_sixes) ∧
    players room' = [0%nat; 1%nat] ∧
    consecutiveSixes room' = 0 ∧
    next_active (playerObjs (after two_sixes)) (roomAt (after two_sixes) 0)
      (turnIndex room') ∧
    playerAt (playerObjs (after two_sixes)) (roomAt (after two_sixes) 0)
      (turnIndex room') = Some next.
Proof.
  eapply (third_six_passes_turn (after two_sixes) 0 0 0
            (roomAt (after two_sixes) 0)
            (mkPlayer "p0" "ann" (Some "red") 0 true [6; -1; -1; -1])).
  - apply after_reachable. vm_compute. eauto.
  - vm_compute. reflexivity.
  - vm_compute. reflexivity.
  - vm_compute. reflexivity.
  - vm_compute. reflexivity.
  - vm_compute. reflexivity.
  - vm_compute. reflexivity.
  - vm_compute. discriminate.
Defined.

(** ** C10: nothing in 'roll' or 'move' looks at [gameStarted] *)

Lemma nextTurnLoop_setGameStarted objs r b m idx :
  nextTurnLoop objs (setGameStarted r b) m idx
  = (λ r', setGameStarted r' b) <$> nextTurnLoop objs r m idx.
Proof.
  revert idx. induction m as [|m IH]; intros idx; simpl; [done|].
  change (playerAt objs (setGameStarted r b) idx) with (playerAt objs r idx).
  destruct (playerAt objs r idx) as [p|]; [|done]. simpl.
  destruct (finishedCount p <? 4); [done|]. apply IH.
Qed.

Lemma nextTurn_setGameStarted objs r b :
  nextTurn objs (setGameStarted r b)
  = (λ r', setGameStarted r' b) <$> nextTurn objs r.
Proof.
  unfold nextTurn. simpl. destruct (length (players r) =? 0)%nat; [done|].
  apply nextTurnLoop_setGameStarted.
Qed.

Lemma flagStarted_lookup s ra b room :
  roomObjs s !! ra = Some room →
  roomObjs (flagStarted s ra b) !! ra = Some (setGameStarted room b).
Proof.
  intros Hroom. unfold flagStarted, roomAt. simpl. rewrite Hroom. simpl.
  apply list_lookup_insert_eq. by eapply lookup_lt_Some.
Qed.

Lemma flagStarted_lookup_None s ra b :
  roomObjs s !! ra = None → roomObjs (flagStarted s ra b) !! ra = None.
Proof.
  intros Hroom. unfold flagStarted. simpl.
  apply lookup_ge_None. rewrite length_insert. by apply lookup_ge_None.
Qed.

Lemma flagStarted_insert s ra b room room' objs :
  roomObjs s !! ra = Some room →
  setRoomObjs (setPlayerObjs (flagStarted s ra b) objs)
    (<[ra := setGameStarted room' b]> (roomObjs (flagStarted s ra b)))
  = flagStarted
      (setRoomObjs (setPlayerObjs s objs) (<[ra := room']> (roomObjs s))) ra b.
Proof.
  intros Hroom. apply lookup_lt_Some in Hroom.
  unfold flagStarted, setRoomObjs, setPlayerObjs, roomAt. simpl.
  rewrite !list_insert_insert_eq.
  by rewrite list_lookup_insert_eq.
Qed.

Lemma handleRoll_ignores_started s w ra b die :
  currentRoom (connOf s w) = Some ra →
  handleRoll (flagStarted s ra b) w die
  = flagResult ra b <$> handleRoll s w die.
Proof.
  intros Hcr. unfold handleRoll.
  change (connOf (flagStarted s ra b) w) with (connOf s w).
  rewrite Hcr. destruct (currentPlayer (connOf s w)) as [pa|]; [|done].
  destruct (roomObjs s !! ra) as [room|] eqn:Hroom.
  2:{ by rewrite flagStarted_lookup_None. }
  rewrite (flagStarted_lookup s ra b room Hroom). simpl.
  destruct (playerObjs s !! pa) as [me|]; [|done]. simpl.
  change (playerAt (playerObjs s) (setGameStarted room b) (turnIndex room))
    with (playerAt (playerObjs s) room (turnIndex room)).
  destruct (playerAt _ _ _) as [cur|]; [|done]. simpl.
  destruct (negb _); [done|].
  unfold computeMovableTokens.
  set (c := if die =? 6 then consecutiveSixes room + 1 else 0).
  set (r2 := setConsecutiveSixes (setCurrentRoll room die) c).
  change (setConsecutiveSixes (setCurrentRoll (setGameStarted room b) die) c)
    with (setGameStarted r2 b).
  set (skip := (die =? 6) && (3 <=? c)).
  set (r3 := if skip then setConsecutiveSixes r2 0 else r2).
  assert (Hr3 : (if skip then setConsecutiveSixes (setGameStarted r2 b) 0
                 else setGameStarted r2 b) = setGameStarted r3 b).
  { subst r3. by destruct skip. }
  rewrite Hr3. clearbody r3. clear Hr3.
  destruct (skip || _).
  - rewrite nextTurn_setGameStarted.
    destruct (nextTurn _ _) as [room4|]; [|done]. simpl.
    change (playerAt (playerObjs s) (setGameStarted room4 b) (turnIndex room4))
      with (playerAt (playerObjs s) room4 (turnIndex room4)).
    destruct (playerAt _ _ _) as [next|]; [|done]. simpl.
    unfold flagResult. simpl. f_equal. f_equal.
    apply (flagStarted_insert s ra b room room4 (playerObjs s) Hroom).
  - simpl. unfold flagResult. simpl. f_equal. f_equal.
    apply (flagStarted_insert s ra b room r3 (playerObjs s) Hroom).
Qed.

Lemma handleMove_ignores_started s w ra b tokenIndex :
  currentRoom (connOf s w) = Some ra →
  handleMove (flagStarted s ra b) w tokenIndex
  = flagResult ra b <$> handleMove s w tokenIndex.
Proof.
  intros Hcr. unfold handleMove.
  change (connOf (flagStarted s ra b) w) with (connOf s w).
  rewrite Hcr. destruct (currentPlayer (connOf s w)) as [pa|]; [|done].
  destruct (roomObjs s !! ra) as [room|] eqn:Hroom.
  2:{ by rewrite flagStarted_lookup_None. }
  rewrite (flagStarted_lookup s ra b room Hroom). simpl.
  destruct (playerObjs s !! pa) as [me|]; [|done]. simpl.
  change (playerAt (playerObjs s) (setGameStarted room b) (turnIndex room))
    with (playerAt (playerObjs s) room (turnIndex room)).
  destruct (playerAt _ _ _) as [cur|]; [|done]. simpl.
  destruct (negb (String.eqb _ _)); [done|].
  change (computeMovableTokens (setGameStarted room b) me (currentRoll room))
    with (computeMovableTokens room me (currentRoll room)).
  destruct (negb (bool_decide _)); [done|].
  change (performMove (playerObjs s) (setGameStarted room b) pa tokenIndex
            (currentRoll room))
    with (performMove (playerObjs s) room pa tokenIndex (currentRoll room)).
  destruct (performMove _ _ _ _ _) as [[objs1 result]|]; [|done]. simpl.
  destruct (objs1 !! pa) as [me1|]; [|done]. simpl.
  destruct (_ || _ || _); simpl.
  - change (playerAt objs1 (setCurrentRoll (setGameStarted room b) 0)
              (turnIndex room))
      with (playerAt objs1 (setCurrentRoll room 0) (turnIndex room)).
    destruct (playerAt _ _ _) as [next|]; [|done]. simpl.
    unfold flagResult. simpl. f_equal. f_equal.
    apply (flagStarted_insert s ra b room (setCurrentRoll room 0) objs1 Hroom).
  - change (setConsecutiveSixes (setGameStarted room b) 0)
      with (setGameStarted (setConsecutiveSixes room 0) b).
    rewrite nextTurn_setGameStarted.
    destruct (nextTurn _ _) as [room1|]; [|done]. simpl.
    change (playerAt objs1 (setCurrentRoll (setGameStarted room1 b) 0)
              (turnIndex room1))
      with (playerAt objs1 (setCurrentRoll room1 0) (turnIndex room1)).
    destruct (playerAt _ _ _) as [next|]; [|done]. simpl.
    unfold flagResult. simpl. f_equal. f_equal.
    apply (flagStarted_insert s ra b room (setCurrentRoll room1 0) objs1 Hroom).
Qed.

(** C10. In a room that has not started, a 'roll' from the player at
    [players[turnIndex]] (the first joiner, as [turnIndex] starts at 0) is
    accepted: the die is stored in [currentRoll], [consecutiveSixes] is
    updated, and [roll_result] is broadcast.  Neither the 'roll' nor the
    'move' handler reads [gameStarted]: overwriting the flag of the sender's
    room changes nothing in what they do but that flag. *)
Theorem roll_before_start_is_accepted s w ra pa room me cur die :
  reachable s →
  currentRoom (connOf s w) = Some ra →
  currentPlayer (connOf s w) = Some pa →
  roomObjs s !! ra = Some room →
  playerObjs s !! pa = Some me →
  playerAt (playerObjs s) room (turnIndex room) = Some cur →
  playerId cur = playerId me →
  gameStarted room = false →
  1 <= die <= 6 →
  (∃ s' room' rest,
     handleRoll s w die =
       Some (s',
             broadcast s room
               (roll_result (playerId me) die (computeMovableTokens room me die))
             ++ rest) ∧
     roomObjs s' !! ra = Some room' ∧
     currentRoll room' = die ∧
     consecutiveSixes room' =
       (if die =? 6
        then if 3 <=? consecutiveSixes room + 1 then 0
             else consecutiveSixes room + 1
        else 0) ∧
     gameStarted room' = false) ∧
  (∀ b tokenIndex,
     handleRoll (flagStarted s ra b) w die
       = flagResult ra b <$> handleRoll s w die ∧
     handleMove (flagStarted s ra b) w tokenIndex
       = flagResult ra b <$> handleMove s w tokenIndex).
Proof.
  intros Hr Hcr Hcp Hroom Hme Hcur Hid Hns Hdie.
  split.
  2:{ intros b ti. split.
      - by apply handleRoll_ignores_started.
      - by apply handleMove_ignores_started. }
  pose proof (reachable_good s Hr) as Hg.
  destruct (room_ok_lookup s ra room Hg Hroom) as (Ht & Ha & Hroll).
  pose proof (lookup_lt_Some _ _ _ Hroom) as Hra.
  unfold handleRoll. rewrite Hcr, Hcp, Hroom. simpl. rewrite Hme. simpl.
  rewrite Hcur. simpl.
  apply String.eqb_eq in Hid. rewrite Hid. simpl.
  unfold computeMovableTokens.
  set (c := if die =? 6 then consecutiveSixes room + 1 else 0).
  set (r2 := setConsecutiveSixes (setCurrentRoll room die) c).
  set (skip := (die =? 6) && (3 <=? c)).
  set (r3 := if skip then setConsecutiveSixes r2 0 else r2).
  assert (Hp3 : players r3 = players room) by (subst r3; by destruct skip).
  assert (Ht3 : turnIndex r3 = turnIndex room) by (subst r3; by destruct skip).
  assert (Hroll3 : currentRoll r3 = die) by (subst r3; by destruct skip).
  assert (Hs3 : gameStarted r3 = false) by (subst r3; by destruct skip).
  assert (Hc3 : consecutiveSixes r3 =
                (if die =? 6
                 then if 3 <=? consecutiveSixes room + 1 then 0
                      else consecutiveSixes room + 1
                 else 0)).
  { subst r3 skip c. destruct (die =? 6); simpl; [|done].
    by destruct (3 <=? consecutiveSixes room + 1). }
  rewrite (broadcast_ext s s r3 room) by done.
  destruct (skip || _).
  - destruct (nextTurn_total (playerObjs s) r3) as [room4 Hn].
    { unfold addrs_in. by rewrite Hp3. }
    { lia. }
    rewrite Hn. simpl.
    assert (H4 : players room4 = players room ∧
                 0 <= turnIndex room4 < Z.of_nat (length (players room)) ∧
                 currentRoll room4 = die ∧
                 consecutiveSixes room4 = consecutiveSixes r3 ∧
                 gameStarted room4 = false).
    { pose proof (playerAt_Some _ _ _ _ Hcur) as [Hrange _].
      apply nextTurn_cases in Hn as [->|(j & -> & Hj)]; simpl.
      - rewrite Ht3. done.
      - rewrite Hp3 in Hj. done. }
    destruct H4 as (Hp4 & Ht4 & Hroll4 & Hc4 & Hs4).
    destruct (playerAt_in_range (playerObjs s) room4 (turnIndex room4))
      as [next Hnext].
    { unfold addrs_in. by rewrite Hp4. }
    { by rewrite Hp4. }
    rewrite Hnext. simpl.
    eexists _, room4, _. split; [reflexivity|]. simpl.
    rewrite list_lookup_insert_eq by done.
    rewrite Hc4, Hc3. done.
  - eexists _, r3, []. rewrite app_nil_r. split; [reflexivity|]. simpl.
    rewrite list_lookup_insert_eq by done. done.
Qed.

Lemma roll_before_start_is_accepted_witness :
  gameStarted (roomAt (after first_joiner) 0) = false ∧
  (∃ s' room' rest,
     handleRoll (after first_joiner) 0 4 =
       Some (s', [(0%nat, roll_result "p0" 4 [])] ++ rest) ∧
     roomObjs s' !! 0%nat = Some room' ∧
     currentRoll room' = 4 ∧
     consecutiveSixes room' = 0 ∧
     gameStarted room' = false) ∧
  (∀ b tokenIndex,
     handleRoll (flagStarted (after first_joiner) 0 b) 0 4
       = flagResult 0 b <$> handleRoll (after first_joiner) 0 4 ∧
     handleMove (flagStarted (after first_joiner) 0 b) 0 tokenIndex
       = flagResult 0 b <$> handleMove (after first_joiner) 0 tokenIndex).
Proof.
  split; [vm_compute; reflexivity|].
  eapply (roll_before_start_is_accepted (after first_joiner) 0 0 0
            (roomAt (after first_joiner) 0)
            (mkPlayer "p0" "Player 1" (Some "red") 0 false [-1; -1; -1; -1])).
  - apply after_reachable. vm_compute. eauto.
  - vm_compute. reflexivity.
  - vm_compute. reflexivity.
  - vm_compute. reflexivity.
  - vm_compute. reflexivity.
  - vm_compute. reflexivity.
  - vm_compute. reflexivity.
  - vm_compute. reflexivity.
  - lia.
Defined.

(** ** C1: what the 'move' handler checks *)

(** Two of the three conditions are checked: a 'move' is dropped, with the
    server unchanged and nothing sent, when the sender's id is not that of
    [players[turnIndex]], or when the token index is not in the list
    [computeMovableTokens] gives for [currentRoll]. *)
Lemma move_dropped s w ra pa room me cur tokenIndex :
  currentRoom (connOf s w) = Some ra →
  currentPlayer (connOf s w) = Some pa →
  roomObjs s !! ra = Some room →
  playerObjs s !! pa = Some me →
  playerAt (playerObjs s) room (turnIndex room) = Some cur →
  playerId cur ≠ playerId me ∨
    tokenIndex ∉ computeMovableTokens room me (currentRoll room) →
  handleMove s w tokenIndex = Some (s, []).
Proof.
  intros Hcr Hcp Hroom Hme Hcur Hbad.
  unfold handleMove. rewrite Hcr, Hcp, Hroom. simpl. rewrite Hme. simpl.
  rewrite Hcur. simpl.
  destruct (String.eqb_spec (playerId cur) (playerId me)) as [Heq|Hne];
    simpl; [|done].
  destruct Hbad as [Hbad|Hbad]; [done|].
  by rewrite bool_decide_eq_false_2.
Qed.

(** C1 (the code departs from the claim).  With no roll outstanding
    ([currentRoll] is 0) the handler does not drop a 'move' of the player
    holding the turn: [computeMovableTokens] with a roll of 0 lists every
    token on the track, so here the move of token 0 is executed.  It is
    broadcast as a [state_update] with roll 0, and the turn passes to the
    second player. *)
Theorem move_without_roll_is_executed :
  reachable (after six_then_out) ∧
  currentRoll (roomAt (after six_then_out) 0) = 0 ∧
  turnIndex (roomAt (after six_then_out) 0) = 0 ∧
  computeMovableTokens (roomAt (after six_then_out) 0)
    (mkPlayer "p0" "ann" (Some "red") 0 true [0; -1; -1; -1]) 0 = [0] ∧
  ∃ s',
    handleMove (after six_then_out) 0 0 =
      Some (s',
            [ (0%nat, state_update "p0" [0; -1; -1; -1] 0 0 false false);
              (1%nat, state_update "p0" [0; -1; -1; -1] 0 0 false false);
              (0%nat, turn "p1"); (1%nat, turn "p1") ]) ∧
    turnIndex (roomAt s' 0) = 1.
Proof.
  split; [apply after_reachable; vm_compute; eauto|].
  repeat split; try (vm_compute; reflexivity).
  eexists. split; vm_compute; reflexivity.
Qed.

(** ** C2: joining, and the color a player gets *)

(** C2 fails as stated: with red, green, yellow and blue all taken, a fifth
    join is answered with [joined] (no error), the player is appended to the
    roster, and its color is [undefined]. *)
Lemma join_full_room_counterexample :
  reachable (after four_joined) ∧
  map color (roster (playerObjs (after four_joined))
               (roomAt (after four_joined) 0))
    = [Some "red"; Some "green"; Some "yellow"; Some "blue"] ∧
  ∃ s' snap rest,
    handleJoin (after four_joined) 4 "A" None None "p4"
      = Some (s', (4%nat, joined "p4" None snap) :: rest) ∧
    players (roomAt s' 0) = [0; 1; 2; 3; 4]%nat ∧
    color <$> playerObjs s' !! 4%nat = Some None.
Proof.
  split; [apply after_reachable; vm_compute; eauto|].
  split; [vm_compute; reflexivity|].
  eexists _, _, _. repeat split; vm_compute; reflexivity.
Qed.

Lemma bind_Some_eq {A B} (f : A → option B) (x : A) : (Some x ≫= f) = f x.
Proof. done. Qed.

Lemma find_first {A} (f : A → bool) (l : list A) (x : A) :
  List.find f l = Some x →
  ∃ i, l !! i = Some x ∧ f x = true ∧
       ∀ j y, (j < i)%nat → l !! j = Some y → f y = false.
Proof.
  induction l as [|a l IH]; simpl; [done|].
  destruct (f a) eqn:Hfa.
  - intros [= <-]. exists 0%nat. repeat split; [done|]. intros j y Hj. lia.
  - intros Hfind. destruct (IH Hfind) as (i & Hi & Hfx & Hbefore).
    exists (S i). repeat split; [done|done|].
    intros [|j] y Hj; simpl.
    + by intros [= <-].
    + apply Hbefore. lia.
Qed.

Lemma find_is_Some {A} (f : A → bool) (l : list A) (x : A) :
  x ∈ l → f x = true → is_Some (List.find f l).
Proof.
  induction 1 as [x l|x a l Hin IH]; simpl; intros Hfx.
  - rewrite Hfx. eauto.
  - destruct (f a); eauto.
Qed.

(** C2, amended.  A join into a room that has not started never fails:
    there is no "room full" check.  It answers [joined], appends one new
    player (not ready, four tokens at home) to the roster, and the color is
    the requested one when that is non-empty and not taken; when the
    requested color is empty or taken and one of red, green, yellow, blue is
    unused, it is the first unused one in that order. *)
Theorem join_appends_and_picks_color s w rid nm col newId room :
  roomObjs (getRoom s rid).1 !! (getRoom s rid).2 = Some room →
  gameStarted room = false →
  ∃ s' player snap rest,
    handleJoin s w rid nm col newId
      = Some (s', (w, joined newId (color player) snap) :: rest) ∧
    roomObjs s' !! (getRoom s rid).2
      = Some (setPlayers room
                (players room ++ [length (playerObjs (getRoom s rid).1)])) ∧
    playerObjs s' = playerObjs (getRoom s rid).1 ++ [player] ∧
    playerId player = newId ∧ ready player = false ∧
    positions player = [-1; -1; -1; -1] ∧
    let taken := map color (roster (playerObjs (getRoom s rid).1) room) in
    (falsy col = false → col ∉ taken → color player = col) ∧
    (falsy col = true ∨ col ∈ taken →
     (∃ c, c ∈ COLOR_ORDER ∧ Some c ∉ taken) →
     ∃ c0, color player = Some c0 ∧ first_unused taken c0).
Proof.
  intros Hroom Hns. unfold handleJoin.
  destruct (getRoom s rid) as [s1 ra] eqn:Hget. cbn [fst snd] in *.
  rewrite Hroom, bind_Some_eq, Hns. cbv zeta.
  set (taken := map color (roster (playerObjs s1) room)).
  set (f := λ c : string, negb (includes taken (Some c))).
  eexists _, (mkPlayer _ _ _ _ _ _), _, _. split; [reflexivity|].
  cbn [roomObjs playerObjs playerId ready positions color].
  split.
  { apply list_lookup_insert_eq. by eapply lookup_lt_Some. }
  repeat split.
  - intros Hf Hnot. rewrite Hf. unfold includes.
    by rewrite bool_decide_eq_false_2.
  - intros Hcase (c & Hc & Hfree).
    assert (Hcond : falsy col || includes taken col = true).
    { destruct Hcase as [->|Hin]; [done|].
      unfold includes. rewrite bool_decide_eq_true_2 by done.
      apply orb_true_r. }
    rewrite Hcond.
    destruct (find_is_Some f COLOR_ORDER c Hc) as [c0 Hc0].
    { subst f. cbv beta. unfold includes. by rewrite bool_decide_eq_false_2. }
    rewrite Hc0. exists c0. split; [done|].
    apply find_first in Hc0 as (i & Hi & Hfx & Hbefore).
    exists i. split; [done|]. subst f. cbv beta in *. unfold includes in *.
    split.
    + apply negb_true_iff in Hfx. by apply bool_decide_eq_false in Hfx.
    + intros j c' Hj Hl. specialize (Hbefore j c' Hj Hl).
      apply negb_false_iff in Hbefore. by apply bool_decide_eq_true in Hbefore.
Qed.

(** The first joiner holds red; a second connection asks for red too. *)
Lemma join_appends_and_picks_color_witness :
  ∃ s' player snap rest,
    handleJoin (after first_joiner) 7 "A" None (Some "red") "p7"
      = Some (s', (7%nat, joined "p7" (color player) snap) :: rest) ∧
    roomObjs s' !! (getRoom (after first_joiner) "A").2
      = Some (setPlayers (roomAt (after first_joiner) 0)
                (players (roomAt (after first_joiner) 0) ++
                 [length (playerObjs (getRoom (after first_joiner) "A").1)])) ∧
    playerObjs s' = playerObjs (getRoom (after first_joiner) "A").1 ++ [player] ∧
    playerId player = "p7" ∧ ready player = false ∧
    positions player = [-1; -1; -1; -1] ∧
    let taken :=
      map color (roster (playerObjs (getRoom (after first_joiner) "A").1)
                   (roomAt (after first_joiner) 0)) in
    (falsy (Some "red") = false → Some "red" ∉ taken →
     color player = Some "red") ∧
    (falsy (Some "red") = true ∨ Some "red" ∈ taken →
     (∃ c, c ∈ COLOR_ORDER ∧ Some c ∉ taken) →
     ∃ c0, color player = Some c0 ∧ first_unused taken c0).
Proof.
  apply (join_appends_and_picks_color (after first_joiner) 7 "A" None
           (Some "red") "p7" (roomAt (after first_joiner) 0)).
  - vm_compute. reflexivity.
  - vm_compute. reflexivity.
Defined.

(** ** C3: a started room *)

(** C3 fails as stated for 'ready': in a started room the request is not
    rejected, and the roster is broadcast to both players. *)
Lemma ready_after_start_counterexample :
  reachable (after two_players_started) ∧
  gameStarted (roomAt (after two_players_started) 0) = true ∧
  ∃ s' snap,
    handleReady (after two_players_started) 0
      = Some (s', [(0%nat, player_list snap); (1%nat, player_list snap)]).
Proof.
  split; [apply after_reachable; vm_compute; eauto|].
  split; [vm_compute; reflexivity|].
  eexists _, _. vm_compute. reflexivity.
Qed.

(** C3, amended.  Once a room has started, a 'join' for it is answered with
    an error to the sender and changes nothing on the server, the roster
    included.  A 'ready' is not rejected: as before the start, the handler
    sets the sender's [ready] to true and broadcasts [player_list] to the
    room. *)
Theorem started_room_join_and_ready s rid ra room :
  rooms s !! rid = Some ra →
  roomObjs s !! ra = Some room →
  gameStarted room = true →
  (∀ w nm col newId,
     handleJoin s w rid nm col newId
       = Some (s, [(w, error "Game already started for this room")])) ∧
  (∀ w pa player,
     currentRoom (connOf s w) = Some ra →
     currentPlayer (connOf s w) = Some pa →
     playerObjs s !! pa = Some player →
     let s' := setPlayerObjs s (<[pa := setReady player true]> (playerObjs s)) in
     handleReady s w
       = Some (s', broadcast s' room (player_list (snapshot (playerObjs s') room)))).
Proof.
  intros Hreg Hroom Hst. split.
  - intros w nm col newId. unfold handleJoin, getRoom. rewrite Hreg, Hroom.
    simpl. by rewrite Hst.
  - intros w pa player Hcr Hcp Hpl. unfold handleReady.
    rewrite Hcr, Hcp, Hpl. simpl. by rewrite Hroom.
Qed.

Lemma started_room_join_and_ready_witness :
  (∀ w nm col newId,
     handleJoin (after two_players_started) w "A" nm col newId
       = Some (after two_players_started,
               [(w, error "Game already started for this room")])) ∧
  (∀ w pa player,
     currentRoom (connOf (after two_players_started) w) = Some 0%nat →
     currentPlayer (connOf (after two_players_started) w) = Some pa →
     playerObjs (after two_players_started) !! pa = Some player →
     let s' :=
       setPlayerObjs (after two_players_started)
         (<[pa := setReady player true]>
            (playerObjs (after two_players_started))) in
     handleReady (after two_players_started) w
       = Some (s', broadcast s' (roomAt (after two_players_started) 0)
                     (player_list
                        (snapshot (playerObjs s')
                           (roomAt (after two_players_started) 0))))).
Proof.
  apply (started_room_join_and_ready (after two_players_started) "A" 0
           (roomAt (after two_players_started) 0)).
  - vm_compute. reflexivity.
  - vm_compute. reflexivity.
  - vm_compute. reflexivity.
Defined.

(** ** C8: captures and safe squares *)

Lemma captureTokens_spec target c ps :
  captureTokens target c ps
  = (map (λ oppPos, if hit target c oppPos then -1 else oppPos) ps,
     existsb (hit target c) ps).
Proof.
  induction ps as [|p ps IH]; simpl; [done|].
  rewrite IH. fold (hit target c p). by destruct (hit target c p).
Qed.

Lemma hit_home target c : hit target c (-1) = false.
Proof. done. Qed.

Lemma sentHome_idemp target p : sentHome target (sentHome target p) = sentHome target p.
Proof.
  unfold sentHome, setPositions. simpl. f_equal.
  rewrite map_map. apply map_ext. intros x.
  destruct (hit target (color p) x) eqn:Hx; [done|]. by rewrite Hx.
Qed.

Lemma sentHome_no_hit target p :
  existsb (hit target (color (sentHome target p))) (positions (sentHome target p))
  = false.
Proof.
  simpl. induction (positions p) as [|x l IH]; simpl; [done|].
  rewrite IH, orb_false_r.
  destruct (hit target (color p) x) eqn:Hx; [done|exact Hx].
Qed.

(** What the capture loop leaves at an address. *)
Lemma captureLoop_lookup target me addrs : ∀ objs c a,
  (captureLoop target me addrs objs c).1 !! a
  = (λ p, if bool_decide (a ∈ addrs) && negb (String.eqb (playerId p) me)
          then sentHome target p else p) <$> objs !! a.
Proof.
  induction addrs as [|a0 rest IH]; intros objs c a; simpl.
  { destruct (objs !! a); simpl; [|done]. f_equal. }
  assert (Hmem : a ≠ a0 → bool_decide (a ∈ a0 :: rest) = bool_decide (a ∈ rest)).
  { intros Hne. apply bool_decide_ext. rewrite elem_of_cons.
    split; [by intros [?|?]|by right]. }
  destruct (objs !! a0) as [opp|] eqn:Hopp.
  - destruct (String.eqb (playerId opp) me) eqn:Hid.
    + rewrite IH. destruct (decide (a = a0)) as [->|Hne].
      * rewrite Hopp. simpl. by rewrite Hid, !andb_false_r.
      * by rewrite Hmem.
    + rewrite captureTokens_spec. rewrite IH.
      destruct (decide (a = a0)) as [->|Hne].
      * rewrite list_lookup_insert_eq by (by eapply lookup_lt_Some).
        rewrite Hopp. simpl. rewrite Hid. simpl.
        rewrite (bool_decide_eq_true_2 (a0 ∈ a0 :: rest)) by apply list_elem_of_here.
        simpl. fold (sentHome target opp).
        f_equal. destruct (_ && _); [apply sentHome_idemp|done].
      * rewrite list_lookup_insert_ne by done. by rewrite Hmem.
  - rewrite IH. destruct (decide (a = a0)) as [->|Hne].
    + by rewrite Hopp.
    + by rewrite Hmem.
Qed.

Lemma opponentHit_after target me objs a0 opp rest :
  objs !! a0 = Some opp →
  existsb (opponentHit target me (<[a0 := sentHome target opp]> objs)) rest
    || existsb (hit target (color opp)) (positions opp)
  = existsb (opponentHit target me objs) rest
    || existsb (hit target (color opp)) (positions opp).
Proof.
  intros Hopp. induction rest as [|a rest IH]; simpl; [done|].
  rewrite <- !orb_assoc, IH.
  unfold opponentHit at 1 3.
  destruct (decide (a = a0)) as [->|Hne].
  - rewrite list_lookup_insert_eq by (by eapply lookup_lt_Some).
    rewrite Hopp, sentHome_no_hit, andb_false_r. simpl.
    destruct (existsb (hit target (color opp)) (positions opp)).
    + by rewrite !orb_true_r.
    + by rewrite andb_false_r.
  - by rewrite list_lookup_insert_ne by done.
Qed.

(** Whether the capture loop reports a capture. *)
Lemma captureLoop_flag target me addrs : ∀ objs c,
  (captureLoop target me addrs objs c).2
  = c || existsb (opponentHit target me objs) addrs.
Proof.
  induction addrs as [|a0 rest IH]; intros objs c; simpl.
  { by rewrite orb_false_r. }
  unfold opponentHit at 1.
  destruct (objs !! a0) as [opp|] eqn:Hopp; [|by rewrite IH].
  destruct (String.eqb (playerId opp) me) eqn:Hid; simpl; [by rewrite IH|].
  rewrite captureTokens_spec, IH. fold (sentHome target opp).
  rewrite <- orb_assoc. f_equal.
  rewrite !(orb_comm (existsb (hit target (color opp)) (positions opp))).
  by apply opponentHit_after.
Qed.

Lemma hit_safe target c x : is_safe target = true → hit target c x = false.
Proof. intros Hs. unfold hit. rewrite Hs. simpl. apply andb_false_r. Qed.

Lemma sentHome_safe target p : is_safe target = true → sentHome target p = p.
Proof.
  intros Hs. unfold sentHome. destruct p as [i n c w r ps]. unfold setPositions.
  simpl. f_equal. rewrite <- (map_id ps) at 2. apply map_ext.
  intros x. by rewrite hit_safe.
Qed.

Lemma existsb_false {A} (f : A → bool) (l : list A) :
  (∀ x, f x = false) → existsb f l = false.
Proof. intros Hf. induction l as [|x l IH]; simpl; [done|]. by rewrite Hf, IH. Qed.

Lemma opponentHit_safe target me objs a :
  is_safe target = true → opponentHit target me objs a = false.
Proof.
  intros Hs. unfold opponentHit. destruct (objs !! a) as [p|]; [|done].
  rewrite existsb_false; [apply andb_false_r|].
  intros x. by apply hit_safe.
Qed.

(** C8. [performMove] moves the chosen token to its destination.  When the
    global index of the destination is a safe one, no capture is reported
    and no other player object changes, whoever stands there.  When the
    destination is on the main track and its global index is not safe, every
    token of every other player of the room that is on the main track at
    that global index goes to -1, their other tokens stay, and a capture is
    reported exactly when there was such a token. *)
Theorem capture_rule objs room pa tokenIndex roll player pos :
  objs !! pa = Some player →
  at_index (positions player) tokenIndex = Some pos →
  let newPos := destination pos roll in
  let target := computeGlobalIndex (color player) newPos in
  ∃ objs' res,
    performMove objs room pa tokenIndex roll = Some (objs', res) ∧
    objs' !! pa
      = Some (setPositions player
                (<[Z.to_nat tokenIndex := newPos]> (positions player))) ∧
    finishedNow res = (newPos =? 57) ∧
    (is_safe target = true →
     captured_ res = false ∧ ∀ a, a ≠ pa → objs' !! a = objs !! a) ∧
    (newPos <= 51 → is_safe target = false →
     (∀ a opp,
        a ∈ players room → objs !! a = Some opp →
        playerId opp ≠ playerId player →
        objs' !! a
          = Some (setPositions opp
                    (map (λ oppPos,
                            if (0 <=? oppPos) && (oppPos <=? 51)
                               && strict_eq
                                    (computeGlobalIndex (color opp) oppPos)
                                    target
                            then -1 else oppPos)
                       (positions opp)))) ∧
     (captured_ res = true ↔
      ∃ a opp oppPos,
        a ∈ players room ∧ objs !! a = Some opp ∧
        playerId opp ≠ playerId player ∧ oppPos ∈ positions opp ∧
        0 <= oppPos <= 51 ∧
        strict_eq (computeGlobalIndex (color opp) oppPos) target = true)).
Proof.
  intros Hpl Hpos newPos target.
  pose proof (lookup_lt_Some _ _ _ Hpl) as Hpa.
  unfold performMove. rewrite Hpl, bind_Some_eq, Hpos, bind_Some_eq.
  fold newPos. cbv zeta.
  destruct (Z.leb_spec newPos 51) as [Hmain|Hlane].
  - fold target.
    pose proof (captureLoop_lookup target (playerId player) (players room)
                  objs false) as Hlook.
    pose proof (captureLoop_flag target (playerId player) (players room)
                  objs false) as Hflag.
    destruct (captureLoop target (playerId player) (players room) objs false)
      as [objs1 cap] eqn:Hloop.
    simpl in Hlook, Hflag.
    assert (Hme1 : objs1 !! pa = Some player).
    { rewrite Hlook, Hpl. simpl. by rewrite String.eqb_refl, andb_false_r. }
    assert (Hlen1 : length objs1 = length objs).
    { pose proof (captureLoop_length target (playerId player) (players room)
                    objs false) as H. by rewrite Hloop in H. }
    rewrite Hme1, bind_Some_eq.
    eexists _, _. split; [reflexivity|]. simpl.
    split; [apply list_lookup_insert_eq; lia|].
    split; [done|].
    split.
    + intros Hsafe. split.
      * rewrite Hflag. apply existsb_false. intros a.
        by apply opponentHit_safe.
      * intros a Hne. rewrite list_lookup_insert_ne by done.
        rewrite Hlook. destruct (objs !! a) as [p|]; simpl; [|done].
        f_equal. destruct (_ && _); [by apply sentHome_safe|done].
    + intros _ Hunsafe. split.
      * intros a opp Hin Hopp Hid.
        assert (Hne : a ≠ pa) by (intros ->; congruence).
        rewrite list_lookup_insert_ne by done.
        rewrite Hlook, Hopp. simpl.
        rewrite bool_decide_eq_true_2 by done.
        apply String.eqb_neq in Hid. rewrite Hid. simpl.
        f_equal. unfold sentHome. f_equal. apply map_ext. intros x.
        unfold hit. by rewrite Hunsafe, andb_true_r.
      * rewrite Hflag. simpl. rewrite existsb_exists. split.
        -- intros (a & Hin & Hhit). unfold opponentHit in Hhit.
           destruct (objs !! a) as [opp|] eqn:Hopp; [|done].
           apply andb_prop in Hhit as [Hid Hex].
           apply negb_true_iff, String.eqb_neq in Hid.
           apply existsb_exists in Hex as (x & Hx & Hhit).
           unfold hit in Hhit. rewrite Hunsafe, andb_true_r in Hhit.
           apply andb_prop in Hhit as [Hr Heq].
           apply andb_prop in Hr as [H0 H51].
           exists a, opp, x. apply list_elem_of_In in Hin, Hx.
           repeat split; try done; lia.
        -- intros (a & opp & x & Hin & Hopp & Hid & Hx & Hr & Heq).
           exists a. split; [by apply list_elem_of_In|].
           unfold opponentHit. rewrite Hopp.
           apply String.eqb_neq in Hid. rewrite Hid. simpl.
           apply existsb_exists. exists x.
           split; [by apply list_elem_of_In|].
           unfold hit. rewrite Hunsafe, Heq, !andb_true_r.
           apply andb_true_intro. split; lia.
  - rewrite Hpl, bind_Some_eq.
    eexists _, _. split; [reflexivity|]. simpl.
    split; [apply list_lookup_insert_eq; lia|].
    split; [done|].
    split.
    + intros _. split; [done|].
      intros a Hne. by rewrite list_lookup_insert_ne.
    + intros Hmain. lia.
Qed.

(** Red moves token 0 by 2 onto the global cell 5: both green tokens there
    go home, the green token on the safe cell 8 and the finished one stay. *)
Lemma capture_rule_witness :
  ∃ objs' res,
    performMove demo_objs demo_room 0 0 2 = Some (objs', res) ∧
    objs' !! 0%nat = Some (mkPlayer "p0" "ann" (Some "red") 0 true [5; -1; -1; -1]) ∧
    objs' !! 1%nat = Some (mkPlayer "p1" "bob" (Some "green") 1 true [-1; -1; 47; 57]) ∧
    captured_ res = true.
Proof.
  destruct (capture_rule demo_objs demo_room 0 0 2
              (mkPlayer "p0" "ann" (Some "red") 0 true [3; -1; -1; -1]) 3
              eq_refl eq_refl)
    as (objs' & res & Hpm & Hme & _ & _ & Hcap).
  destruct (Hcap ltac:(vm_compute; discriminate) eq_refl) as [Hopp Hflag].
  exists objs', res. split; [exact Hpm|]. split; [exact Hme|]. split.
  - apply (Hopp 1%nat (mkPlayer "p1" "bob" (Some "green") 1 true [44; 44; 47; 57])).
    + vm_compute. apply list_elem_of_further, list_elem_of_here.
    + reflexivity.
    + discriminate.
  - apply Hflag.
    exists 1%nat, (mkPlayer "p1" "bob" (Some "green") 1 true [44; 44; 47; 57]), 44.
    repeat split; try done; try lia.
    + apply list_elem_of_further, list_elem_of_here.
    + apply list_elem_of_here.
Defined.

(** Red moves token 0 by 5 onto the global cell 8, a safe one, where a green
    token stands: nothing is captured. *)
Example landing_on_safe_cell :
  performMove demo_objs demo_room 0 0 5
  = Some ([ mkPlayer "p0" "ann" (Some "red") 0 true [8; -1; -1; -1];
            mkPlayer "p1" "bob" (Some "green") 1 true [44; 44; 47; 57] ],
          mkResult false false).
Proof. reflexivity. Qed.

(** ** C7: who plays after a move *)

Lemma captureLoop_own target addrs objs c pa player :
  objs !! pa = Some player →
  (captureLoop target (playerId player) addrs objs c).1 !! pa = Some player.
Proof.
  intros Hpl. rewrite captureLoop_lookup, Hpl. simpl.
  by rewrite String.eqb_refl, andb_false_r.
Qed.

(** [performMove] returns whenever the token index is one of the player's
    tokens; the token is then at its destination, and [finishedNow] tells
    whether that is 57. *)
Lemma performMove_returns objs room pa tokenIndex roll player pos :
  objs !! pa = Some player →
  at_index (positions player) tokenIndex = Some pos →
  ∃ objs' res,
    performMove objs room pa tokenIndex roll = Some (objs', res) ∧
    objs' !! pa
      = Some (setPositions player
                (<[Z.to_nat tokenIndex := destination pos roll]>
                   (positions player))) ∧
    finishedNow res = (destination pos roll =? 57).
Proof.
  intros Hpl Hpos. unfold performMove.
  pose proof (lookup_lt_Some _ _ _ Hpl) as Hpa.
  rewrite Hpl, bind_Some_eq, Hpos, bind_Some_eq. cbv zeta.
  destruct (destination pos roll <=? 51).
  - pose proof (captureLoop_own
        (computeGlobalIndex (color player) (destination pos roll))
        (players room) objs false pa player Hpl) as Hown.
    pose proof (captureLoop_length
        (computeGlobalIndex (color player) (destination pos roll))
        (playerId player) (players room) objs false) as Hlen.
    destruct (captureLoop _ _ _ _ _) as [objs1 cap]. simpl in Hown, Hlen.
    rewrite Hown, bind_Some_eq. eexists _, _. split; [reflexivity|].
    split; [|done]. apply list_lookup_insert_eq. lia.
  - rewrite Hpl, bind_Some_eq. eexists _, _. split; [reflexivity|].
    split; [|done]. by apply list_lookup_insert_eq.
Qed.

(** [captured] is reported exactly when a token of another player went
    home: some token of a player with another id, not at -1 before the
    move, is at -1 after it. *)
Lemma performMove_captured objs room pa tokenIndex roll player objs' res :
  objs !! pa = Some player →
  performMove objs room pa tokenIndex roll = Some (objs', res) →
  captured_ res = true ↔
  ∃ a opp opp' i x,
    objs !! a = Some opp ∧ objs' !! a = Some opp' ∧
    playerId opp ≠ playerId player ∧
    positions opp !! i = Some x ∧ x ≠ -1 ∧ positions opp' !! i = Some (-1).
Proof.
  intros Hpl Hpm. unfold performMove in Hpm.
  rewrite Hpl, bind_Some_eq in Hpm.
  destruct (at_index (positions player) tokenIndex) as [pos|]; [|done].
  rewrite bind_Some_eq in Hpm. cbv zeta in Hpm.
  assert (Hother : ∀ a opp, objs !! a = Some opp →
                     playerId opp ≠ playerId player → a ≠ pa).
  { intros a opp Ha Hid ->. congruence. }
  destruct (destination pos roll <=? 51).
  - set (target := computeGlobalIndex (color player) (destination pos roll)) in *.
    pose proof (captureLoop_lookup target (playerId player) (players room)
                  objs false) as Hlook.
    pose proof (captureLoop_flag target (playerId player) (players room)
                  objs false) as Hflag.
    destruct (captureLoop target (playerId player) (players room) objs false)
      as [objs1 cap]. simpl in Hlook, Hflag.
    destruct (objs1 !! pa) as [player1|]; [|done].
    rewrite bind_Some_eq in Hpm. injection Hpm as <- <-. simpl.
    rewrite Hflag. split.
    + intros Hex. apply existsb_exists in Hex as (a & Hin & Hhit).
      unfold opponentHit in Hhit.
      destruct (objs !! a) as [opp|] eqn:Hopp; [|done].
      apply andb_prop in Hhit as [Hid Hex].
      apply existsb_exists in Hex as (x & Hx & Hhit).
      apply list_elem_of_In, list_elem_of_lookup in Hx as [i Hi].
      exists a, opp, (sentHome target opp), i, x.
      assert (Hne : playerId opp ≠ playerId player).
      { by apply String.eqb_neq, negb_true_iff. }
      split; [done|]. split.
      { rewrite list_lookup_insert_ne by (intros <-; by eapply Hother).
        rewrite Hlook, Hopp. simpl.
        rewrite bool_decide_eq_true_2 by (by apply list_elem_of_In).
        by rewrite Hid. }
      split; [done|]. split; [done|]. split.
      { intros ->. by rewrite hit_home in Hhit. }
      simpl. rewrite list_lookup_fmap, Hi. simpl. by rewrite Hhit.
    + intros (a & opp & opp' & i & x & Hopp & Hopp' & Hid & Hi & Hx & Hi').
      rewrite list_lookup_insert_ne in Hopp'
        by (intros <-; by eapply Hother).
      rewrite Hlook, Hopp in Hopp'. simpl in Hopp'. injection Hopp' as <-.
      destruct (bool_decide (a ∈ players room)) eqn:Hin; simpl in Hi'.
      2:{ rewrite Hi in Hi'. congruence. }
      apply bool_decide_eq_true in Hin.
      apply String.eqb_neq in Hid. rewrite Hid in Hi'. simpl in Hi'.
      rewrite list_lookup_fmap, Hi in Hi'. simpl in Hi'.
      destruct (hit target (color opp) x) eqn:Hhit; [|congruence].
      apply existsb_exists. exists a. split; [by apply list_elem_of_In|].
      unfold opponentHit. rewrite Hopp, Hid. simpl.
      apply existsb_exists. exists x. split; [|done].
      apply list_elem_of_In, list_elem_of_lookup. eauto.
  - rewrite Hpl, bind_Some_eq in Hpm. injection Hpm as <- <-. simpl.
    split; [done|].
    intros (a & opp & opp' & i & x & Hopp & Hopp' & Hid & Hi & Hx & Hi').
    rewrite list_lookup_insert_ne in Hopp' by (intros <-; by eapply Hother).
    congruence.
Qed.

Lemma movableFrom_range i ps roll x :
  x ∈ movableFrom i ps roll → i <= x < i + Z.of_nat (length ps).
Proof.
  revert i. induction ps as [|pos rest IH]; intros i; simpl.
  { intros H. by apply elem_of_nil in H. }
  assert (Hrest : x ∈ movableFrom (i + 1) rest roll →
                  i <= x < i + Z.pos (Pos.of_succ_nat (length rest))).
  { intros H. apply IH in H. lia. }
  assert (Hcons : x ∈ i :: movableFrom (i + 1) rest roll →
                  i <= x < i + Z.pos (Pos.of_succ_nat (length rest))).
  { intros H. apply elem_of_cons in H as [->|H]; [lia|by apply Hrest]. }
  repeat match goal with |- context [if ?b then _ else _] => destruct b end;
    done.
Qed.

Lemma movable_index room me roll tokenIndex :
  tokenIndex ∈ computeMovableTokens room me roll →
  is_Some (at_index (positions me) tokenIndex).
Proof.
  intros H. apply movableFrom_range in H. apply at_index_in_range. lia.
Qed.

(** C7 fails as stated: here the roll is a 6 and the move is executed, with
    no capture and no token finished, yet the turn passes (from seat 1 to
    seat 0), because [consecutiveSixes] is 0. *)
Lemma move_on_six_counterexample :
  reachable (after three_sixes) ∧
  currentRoll (roomAt (after three_sixes) 0) = 6 ∧
  consecutiveSixes (roomAt (after three_sixes) 0) = 0 ∧
  turnIndex (roomAt (after three_sixes) 0) = 1 ∧
  ∃ s',
    handleMove (after three_sixes) 1 0 =
      Some (s',
            [ (0%nat, state_update "p1" [0; -1; -1; -1] 0 6 false false);
              (1%nat, state_update "p1" [0; -1; -1; -1] 0 6 false false);
              (0%nat, turn "p0"); (1%nat, turn "p0") ]) ∧
    turnIndex (roomAt s' 0) = 0.
Proof.
  split; [apply after_reachable; vm_compute; eauto|].
  repeat split; try (vm_compute; reflexivity).
  eexists. split; vm_compute; reflexivity.
Qed.

(** C7, amended.  When a move is executed (the sender holds the turn and the
    token index is in the list of legal moves for [currentRoll]), with the
    flags [captured] and [finishedNow] that [performMove] returns: if the
    roll is a 6 while [consecutiveSixes] is positive, or a token was
    captured, or the moved token reached 57, then [turnIndex] and
    [consecutiveSixes] stay as they are; otherwise [consecutiveSixes]
    becomes 0 and the turn goes to the next active player.  In both cases
    [currentRoll] is 0 in the room from which the closing [turn]
    notification is computed and sent.  [finishedNow] holds exactly when
    the moved token is at 57 after the move, and [captured] exactly when a
    token of a player with another id went home. *)
Theorem move_then_turn s w ra pa room me cur tokenIndex :
  reachable s →
  currentRoom (connOf s w) = Some ra →
  currentPlayer (connOf s w) = Some pa →
  roomObjs s !! ra = Some room →
  playerObjs s !! pa = Some me →
  playerAt (playerObjs s) room (turnIndex room) = Some cur →
  playerId cur = playerId me →
  tokenIndex ∈ computeMovableTokens room me (currentRoll room) →
  ∃ objs1 result s' room' next pre,
    performMove (playerObjs s) room pa tokenIndex (currentRoll room)
      = Some (objs1, result) ∧
    handleMove s w tokenIndex
      = Some (s', pre ++ broadcast s' room' (turn (playerId next))) ∧
    playerObjs s' = objs1 ∧
    roomObjs s' !! ra = Some room' ∧
    players room' = players room ∧
    currentRoll room' = 0 ∧
    playerAt objs1 room' (turnIndex room') = Some next ∧
    (finishedNow result = true ↔
     ∃ me1, objs1 !! pa = Some me1 ∧
            positions me1 !! Z.to_nat tokenIndex = Some 57) ∧
    (captured_ result = true ↔
     ∃ a opp opp' i x,
       playerObjs s !! a = Some opp ∧ objs1 !! a = Some opp' ∧
       playerId opp ≠ playerId me ∧
       positions opp !! i = Some x ∧ x ≠ -1 ∧
       positions opp' !! i = Some (-1)) ∧
    ((currentRoll room = 6 ∧ 0 < consecutiveSixes room) ∨
     captured_ result = true ∨ finishedNow result = true →
     turnIndex room' = turnIndex room ∧
     consecutiveSixes room' = consecutiveSixes room) ∧
    (¬ ((currentRoll room = 6 ∧ 0 < consecutiveSixes room) ∨
        captured_ result = true ∨ finishedNow result = true) →
     next_active objs1 room (turnIndex room') ∧
     consecutiveSixes room' = 0).
Proof.
  intros Hr Hcr Hcp Hroom Hme Hcur Hid Hmov.
  pose proof (reachable_good s Hr) as Hg.
  destruct (room_ok_lookup s ra room Hg Hroom) as (Ht & Ha & Hroll).
  pose proof (lookup_lt_Some _ _ _ Hroom) as Hra.
  pose proof (playerAt_Some _ _ _ _ Hcur) as [Hrange _].
  assert (Hne : players room ≠ []).
  { intros E. rewrite E in Hrange. simpl in Hrange. lia. }
  destruct (movable_index _ _ _ _ Hmov) as [pos Hpos].
  destruct (performMove_returns (playerObjs s) room pa tokenIndex
              (currentRoll room) me pos Hme Hpos)
    as (objs1 & result & Hpm & Hme1 & Hfin).
  pose proof (performMove_length _ _ _ _ _ _ _ Hpm) as Hlen.
  pose proof (performMove_captured _ _ _ _ _ _ _ _ Hme Hpm) as Hcap.
  assert (Hfin57 : finishedNow result = true ↔
            ∃ me1, objs1 !! pa = Some me1 ∧
                   positions me1 !! Z.to_nat tokenIndex = Some 57).
  { apply at_index_Some in Hpos as [Hti Hpos].
    apply lookup_lt_Some in Hpos.
    rewrite Hfin, Z.eqb_eq. split.
    - intros Hd. eexists. split; [exact Hme1|]. simpl.
      rewrite list_lookup_insert_eq by done. by rewrite Hd.
    - intros (me1 & Hl & H57). rewrite Hme1 in Hl. injection Hl as <-.
      simpl in H57. rewrite list_lookup_insert_eq in H57 by done.
      congruence. }
  assert (Ha1 : addrs_in objs1 room).
  { unfold addrs_in. by rewrite Hlen. }
  unfold handleMove. rewrite Hcr, Hcp, Hroom, bind_Some_eq, Hme, bind_Some_eq.
  rewrite Hcur, bind_Some_eq.
  apply String.eqb_eq in Hid. rewrite Hid. cbn [negb]. cbv zeta.
  rewrite (bool_decide_eq_true_2 _ Hmov). cbn [negb].
  rewrite Hpm, bind_Some_eq. cbv beta iota.
  rewrite Hme1, bind_Some_eq.
  set (extra := (currentRoll room =? 6) && (0 <? consecutiveSixes room)
                || captured_ result || finishedNow result).
  assert (Hextra : extra = true ↔
            (currentRoll room = 6 ∧ 0 < consecutiveSixes room) ∨
            captured_ result = true ∨ finishedNow result = true).
  { subst extra. rewrite !orb_true_iff, andb_true_iff, Z.eqb_eq, Z.ltb_lt.
    tauto. }
  destruct extra eqn:Hex.
  - rewrite bind_Some_eq.
    destruct (playerAt_in_range objs1 (setCurrentRoll room 0) (turnIndex room))
      as [next Hnext]; [exact Ha1|exact Hrange|].
    cbn [turnIndex setCurrentRoll]. rewrite Hnext, bind_Some_eq.
    eexists objs1, result, _, (setCurrentRoll room 0), next, _.
    split; [done|]. split; [by rewrite app_assoc|].
    split; [done|]. split.
    { cbn. by apply list_lookup_insert_eq. }
    split; [done|]. split; [done|]. split; [done|]. split; [done|].
    split; [done|]. split; [done|].
    intros Hno. destruct Hno. by apply Hextra.
  - destruct (nextTurn_total objs1 (setConsecutiveSixes room 0))
      as [room1 Hn]; [exact Ha1|simpl; lia|].
    pose proof (nextTurn_next_active _ (setConsecutiveSixes room 0) _
                  (proj1 Ht) Hne Hn) as Hnext_active.
    rewrite Hn, bind_Some_eq.
    assert (H1 : players room1 = players room ∧
                 0 <= turnIndex room1 < Z.of_nat (length (players room)) ∧
                 consecutiveSixes room1 = 0).
    { apply nextTurn_cases in Hn as [->|(j & -> & Hj)]; simpl; done. }
    destruct H1 as (Hp1 & Ht1 & Hc1).
    destruct (playerAt_in_range objs1 (setCurrentRoll room1 0) (turnIndex room1))
      as [next Hnext].
    { unfold addrs_in. simpl. rewrite Hp1. exact Ha1. }
    { simpl. by rewrite Hp1. }
    cbn [turnIndex setCurrentRoll]. rewrite Hnext, bind_Some_eq.
    eexists objs1, result, _, (setCurrentRoll room1 0), next, _.
    split; [done|]. split; [by rewrite app_assoc|].
    split; [done|]. split.
    { cbn. by apply list_lookup_insert_eq. }
    split; [done|]. split; [done|]. split; [done|]. split; [done|].
    split; [done|]. split.
    + intros Hyes. by apply Hextra in Hyes.
    + intros _. split; [|done]. exact Hnext_active.
Qed.

(** The first player has rolled a 6 and now moves token 0 out of home. *)
Lemma move_then_turn_witness :
  ∃ objs1 result s' room' next pre,
    performMove (playerObjs (after (two_players_started ++ [Message 0 Roll "" 6])))
      (roomAt (after (two_players_started ++ [Message 0 Roll "" 6])) 0) 0 0 6
      = Some (objs1, result) ∧
    handleMove (after (two_players_started ++ [Message 0 Roll "" 6])) 0 0
      = Some (s', pre ++ broadcast s' room' (turn (playerId next))) ∧
    playerObjs s' = objs1 ∧
    roomObjs s' !! 0%nat = Some room' ∧
    players room' = [0; 1]%nat ∧
    currentRoll room' = 0 ∧
    playerAt objs1 room' (turnIndex room') = Some next ∧
    (finishedNow result = true ↔
     ∃ me1, objs1 !! 0%nat = Some me1 ∧ positions me1 !! 0%nat = Some 57) ∧
    (captured_ result = true ↔
     ∃ a opp opp' i x,
       playerObjs (after (two_players_started ++ [Message 0 Roll "" 6])) !! a
         = Some opp ∧
       objs1 !! a = Some opp' ∧
       playerId opp ≠ "p0" ∧
       positions opp !! i = Some x ∧ x ≠ -1 ∧
       positions opp' !! i = Some (-1)) ∧
    ((6 = 6 ∧ 0 < 1) ∨
     captured_ result = true ∨ finishedNow result = true →
     turnIndex room' = 0 ∧ consecutiveSixes room' = 1) ∧
    (¬ ((6 = 6 ∧ 0 < 1) ∨
        captured_ result = true ∨ finishedNow result = true) →
     next_active objs1
       (roomAt (after (two_players_started ++ [Message 0 Roll "" 6])) 0)
       (turnIndex room') ∧
     consecutiveSixes room' = 0).
Proof.
  eapply (move_then_turn (after (two_players_started ++ [Message 0 Roll "" 6]))
            0 0 0
            (roomAt (after (two_players_started ++ [Message 0 Roll "" 6])) 0)
            (mkPlayer "p0" "ann" (Some "red") 0 true [-1; -1; -1; -1])).
  - apply after_reachable. vm_compute. eauto.
  - vm_compute. reflexivity.
  - vm_compute. reflexivity.
  - vm_compute. reflexivity.
  - vm_compute. reflexivity.
  - vm_compute. reflexivity.
  - vm_compute. reflexivity.
  - vm_compute. apply list_elem_of_here.
Defined.

(** ** C9: finished tokens *)

(** A token at 57 is listed as movable only for a roll that is not
    positive. *)
Lemma movableFrom_finished i ps roll x :
  x ∈ movableFrom i ps roll → ps !! Z.to_nat (x - i) = Some 57 → roll <= 0.
Proof.
  revert i. induction ps as [|pos rest IH]; intros i; simpl.
  { intros H. by apply elem_of_nil in H. }
  intros Hin Hl.
  assert (Hrest : x ∈ movableFrom (i + 1) rest roll → roll <= 0).
  { intros H. pose proof (movableFrom_range _ _ _ _ H) as Hr.
    apply (IH (i + 1) H).
    replace (Z.to_nat (x - i)) with (S (Z.to_nat (x - (i + 1)))) in Hl by lia.
    exact Hl. }
  assert (Hhead : x = i → pos = 57).
  { intros ->. rewrite Z.sub_diag in Hl. simpl in Hl. congruence. }
  destruct (Z.eqb_spec pos (-1)) as [Hhome|Hout].
  { destruct (roll =? 6); [|by apply Hrest].
    apply elem_of_cons in Hin as [Hx|Hin]; [|by apply Hrest].
    apply Hhead in Hx. lia. }
  destruct (Z.ltb_spec pos 52) as [Htrack|Hlane].
  { assert (x ≠ i) by (intros Hx; apply Hhead in Hx; lia).
    repeat match type of Hin with
           | context [if ?b then _ else _] => destruct b
           end;
      try (by apply Hrest);
      (apply elem_of_cons in Hin as [Hx|Hin]; [done|by apply Hrest]). }
  destruct (Z.leb_spec (pos + roll) 57) as [Hfits|Hover]; [|by apply Hrest].
  apply elem_of_cons in Hin as [Hx|Hin]; [|by apply Hrest].
  apply Hhead in Hx. lia.
Qed.

Lemma sentHome_keeps_finished target p i :
  positions p !! i = Some 57 → positions (sentHome target p) !! i = Some 57.
Proof.
  intros Hl. simpl. rewrite list_lookup_fmap, Hl. simpl.
  by unfold hit; simpl.
Qed.

(** [performMove], called as the 'move' handler calls it with a roll that is
    not negative, leaves every token at 57 where it is. *)
Lemma performMove_keeps_finished objs room pa tokenIndex roll objs' res a p i :
  0 <= roll →
  (∀ me, objs !! pa = Some me →
         tokenIndex ∈ computeMovableTokens room me roll) →
  performMove objs room pa tokenIndex roll = Some (objs', res) →
  objs !! a = Some p → positions p !! i = Some 57 →
  ∃ p', objs' !! a = Some p' ∧ positions p' !! i = Some 57.
Proof.
  intros Hroll Hmov Hpm Hp Hi.
  unfold performMove in Hpm.
  destruct (objs !! pa) as [player|] eqn:Hpl; [|done].
  rewrite bind_Some_eq in Hpm.
  destruct (at_index (positions player) tokenIndex) as [pos|] eqn:Hpos; [|done].
  rewrite bind_Some_eq in Hpm. cbv zeta in Hpm.
  specialize (Hmov player eq_refl).
  apply at_index_Some in Hpos as [Hrange Hpos].
  set (newPos := destination pos roll) in *.
  set (objs1 := (if newPos <=? 51
                 then captureLoop (computeGlobalIndex (color player) newPos)
                        (playerId player) (players room) objs false
                 else (objs, false)).1).
  assert (Hkeep : ∀ b q0, objs !! b = Some q0 → positions q0 !! i = Some 57 →
                    ∃ q, objs1 !! b = Some q ∧ positions q !! i = Some 57).
  { intros b q0 Hb Hq0. subst objs1. destruct (newPos <=? 51); simpl.
    - rewrite captureLoop_lookup, Hb. simpl.
      eexists. split; [reflexivity|].
      destruct (_ && _); [by apply sentHome_keeps_finished|done].
    - eauto. }
  destruct (if newPos <=? 51 then _ else _) as [objs1' cap] eqn:Hloop.
  simpl in objs1. subst objs1.
  destruct (objs1' !! pa) as [player1|] eqn:Hpl1; [|done].
  rewrite bind_Some_eq in Hpm. injection Hpm as <- <-.
  destruct (Hkeep a p Hp Hi) as (q & Hq & Hqi).
  destruct (decide (a = pa)) as [->|Hne].
  - rewrite list_lookup_insert_eq by (by eapply lookup_lt_Some).
    eexists. split; [reflexivity|]. simpl.
    assert (q = player1) as -> by congruence.
    destruct (decide (i = Z.to_nat tokenIndex)) as [->|Hni].
    + rewrite list_lookup_insert_eq by (by eapply lookup_lt_Some).
      f_equal.
      assert (p = player) as -> by congruence.
      assert (pos = 57) as -> by congruence.
      assert (roll <= 0).
      { apply (movableFrom_finished 0 (positions player) roll tokenIndex Hmov).
        by rewrite Z.sub_0_r. }
      subst newPos. unfold destination. simpl.
      replace roll with 0 by lia. done.
    + by rewrite list_lookup_insert_ne.
  - rewrite list_lookup_insert_ne by done. eauto.
Qed.

(** The position invariant itself holds: no step of the server, from a
    state it can reach, changes a position that is 57. *)
Lemma finished_token_stays s e s' out a p i :
  reachable s → enabled s e → step s e = Some (s', out) →
  playerObjs s !! a = Some p → positions p !! i = Some 57 →
  ∃ p', playerObjs s' !! a = Some p' ∧ positions p' !! i = Some 57.
Proof.
  intros Hr He Hstep Hp Hi.
  pose proof (reachable_good s Hr) as Hg.
  destruct e as [w data newId die|w]; simpl in Hstep.
  - destruct data as [rid nm col| | | |tokenIndex]; simpl in Hstep.
    + unfold handleJoin in Hstep.
      destruct (getRoom s rid) as [s1 ra] eqn:Hget.
      destruct (getRoom_good s rid s1 ra Hg Hget) as (_ & [room Hroom] & Hobjs).
      rewrite Hroom, bind_Some_eq in Hstep.
      destruct (gameStarted room); injection Hstep as <- <-.
      * rewrite Hobjs. eauto.
      * simpl. rewrite Hobjs. exists p. split; [|done].
        apply lookup_app_l_Some. done.
    + unfold handleReady in Hstep.
      destruct (currentRoom (connOf s w)) as [ra|];
        [|injection Hstep as <- <-; eauto].
      destruct (currentPlayer (connOf s w)) as [pa|];
        [|injection Hstep as <- <-; eauto].
      destruct (playerObjs s !! pa) as [player|] eqn:Hpl; [|done].
      rewrite bind_Some_eq in Hstep. cbv zeta in Hstep.
      destruct (roomObjs _ !! ra) as [room|]; [|done].
      rewrite bind_Some_eq in Hstep. injection Hstep as <- <-. simpl.
      destruct (decide (a = pa)) as [->|Hne].
      * rewrite list_lookup_insert_eq by (by eapply lookup_lt_Some).
        eexists. split; [reflexivity|]. simpl. congruence.
      * rewrite list_lookup_insert_ne by done. eauto.
    + unfold handleStart in Hstep.
      destruct (currentRoom (connOf s w)) as [ra|];
        [|injection Hstep as <- <-; eauto].
      destruct (currentPlayer (connOf s w)) as [pa|];
        [|injection Hstep as <- <-; eauto].
      destruct (roomObjs s !! ra) as [room|]; [|done].
      rewrite bind_Some_eq in Hstep.
      destruct (gameStarted room); [injection Hstep as <- <-; eauto|].
      destruct (_ <? 2)%nat; [injection Hstep as <- <-; eauto|].
      destruct (negb _); [injection Hstep as <- <-; eauto|].
      cbv zeta in Hstep. destruct (playerAt _ _ 0); [|done].
      rewrite bind_Some_eq in Hstep. injection Hstep as <- <-. eauto.
    + unfold handleRoll in Hstep.
      destruct (currentRoom (connOf s w)) as [ra|];
        [|injection Hstep as <- <-; eauto].
      destruct (currentPlayer (connOf s w)) as [pa|];
        [|injection Hstep as <- <-; eauto].
      destruct (roomObjs s !! ra) as [room|]; [|done].
      rewrite bind_Some_eq in Hstep.
      destruct (playerObjs s !! pa) as [me|]; [|done].
      rewrite bind_Some_eq in Hstep.
      destruct (playerAt _ _ _) as [cur|]; [|done].
      rewrite bind_Some_eq in Hstep.
      destruct (negb _); [injection Hstep as <- <-; eauto|].
      cbv zeta in Hstep.
      destruct (_ || _); [|injection Hstep as <- <-; eauto].
      destruct (nextTurn _ _) as [room4|]; [|done].
      rewrite bind_Some_eq in Hstep.
      destruct (playerAt _ _ _) as [next|]; [|done].
      rewrite bind_Some_eq in Hstep. injection Hstep as <- <-. eauto.
    + unfold handleMove in Hstep.
      destruct (currentRoom (connOf s w)) as [ra|];
        [|injection Hstep as <- <-; eauto].
      destruct (currentPlayer (connOf s w)) as [pa|];
        [|injection Hstep as <- <-; eauto].
      destruct (roomObjs s !! ra) as [room|] eqn:Hroom; [|done].
      rewrite bind_Some_eq in Hstep.
      destruct (playerObjs s !! pa) as [me|] eqn:Hme; [|done].
      rewrite bind_Some_eq in Hstep.
      destruct (playerAt _ _ _) as [cur|]; [|done].
      rewrite bind_Some_eq in Hstep.
      destruct (negb (String.eqb _ _)); [injection Hstep as <- <-; eauto|].
      cbv zeta in Hstep.
      destruct (bool_decide _) eqn:Hmov; cbn [negb] in Hstep;
        [|injection Hstep as <- <-; eauto].
      apply bool_decide_eq_true in Hmov.
      destruct (performMove _ _ _ _ _) as [[objs1 result]|] eqn:Hpm; [|done].
      rewrite bind_Some_eq in Hstep. cbv beta iota in Hstep.
      destruct (objs1 !! pa) as [me1|]; [|done].
      rewrite bind_Some_eq in Hstep.
      destruct (room_ok_lookup s ra room Hg Hroom) as (_ & _ & Hroll).
      assert (Hkeep : ∃ p', objs1 !! a = Some p' ∧ positions p' !! i = Some 57).
      { eapply performMove_keeps_finished; [| |exact Hpm|exact Hp|exact Hi].
        - lia.
        - intros me' Hme'. congruence. }
      destruct (_ || _ || _).
      * rewrite bind_Some_eq in Hstep.
        destruct (playerAt _ _ _) as [next|]; [|done].
        rewrite bind_Some_eq in Hstep. by injection Hstep as <- <-.
      * destruct (nextTurn _ _) as [room1|]; [|done].
        rewrite bind_Some_eq in Hstep.
        destruct (playerAt _ _ _) as [next|]; [|done].
        rewrite bind_Some_eq in Hstep. by injection Hstep as <- <-.
  - unfold onClose in Hstep.
    destruct (currentRoom (connOf s w)) as [ra|];
      [|injection Hstep as <- <-; eauto].
    destruct (currentPlayer (connOf s w)) as [pa|];
      [|injection Hstep as <- <-; eauto].
    cbv zeta in Hstep. cbn [roomObjs playerObjs] in Hstep.
    destruct (roomObjs s !! ra) as [room|]; [|done].
    rewrite bind_Some_eq in Hstep.
    destruct (playerObjs s !! pa) as [me|]; [|done].
    rewrite bind_Some_eq in Hstep.
    destruct (_ =? 0)%nat; injection Hstep as <- <-; eauto.
Qed.

(** C9 (the code departs from the claim).  After its last move token 0 is
    at 57 and no roll is outstanding.  A further 'move' for that token is
    not dropped: [computeMovableTokens] with the roll 0 lists the finished
    token as movable, and the move is executed and broadcast (the position
    stays 57 and is reported as finished once more). *)
Theorem finished_token_listed_as_movable :
  reachable (after finish_run) ∧
  playerObjs (after finish_run) !! 0%nat
    = Some (mkPlayer "p0" "Player 1" (Some "red") 0 false [57; -1; -1; -1]) ∧
  currentRoll (roomAt (after finish_run) 0) = 0 ∧
  computeMovableTokens (roomAt (after finish_run) 0)
    (mkPlayer "p0" "Player 1" (Some "red") 0 false [57; -1; -1; -1])
    (currentRoll (roomAt (after finish_run) 0)) = [0] ∧
  ∃ s',
    handleMove (after finish_run) 0 0 =
      Some (s',
            [ (0%nat, state_update "p0" [57; -1; -1; -1] 0 0 false true);
              (0%nat, turn "p0") ]).
Proof.
  split; [apply after_reachable; vm_compute; eauto|].
  repeat split; try (vm_compute; reflexivity).
  eexists. vm_compute. reflexivity.
Qed.

(** * Further properties of the code *)

(** ** Board geometry: [computeGlobalIndex] *)

Lemma COLOR_START_cases c st :
  COLOR_START c = Some st →
  (c = Some "red" ∧ st = 0 ∧ colorOffset c = Some 0) ∨
  (c = Some "green" ∧ st = 13 ∧ colorOffset c = Some 10) ∨
  (c = Some "yellow" ∧ st = 26 ∧ colorOffset c = Some 20) ∨
  (c = Some "blue" ∧ st = 39 ∧ colorOffset c = Some 30).
Proof.
  destruct c as [k|]; simpl; [|done].
  repeat match goal with
         | |- context [String.eqb ?a ?b] =>
             destruct (String.eqb_spec a b) as [->|]
         end;
    intros [= <-]; auto 10.
Qed.

Lemma computeGlobalIndex_main c st pos :
  COLOR_START c = Some st → 0 <= pos <= 51 →
  computeGlobalIndex c pos = Some (Z.rem (st + pos) 52).
Proof.
  intros Hc Hpos. unfold computeGlobalIndex.
  destruct (Z.ltb_spec pos 0); [lia|].
  destruct (Z.leb_spec pos 51); [|lia]. by rewrite Hc.
Qed.

(** For each of the four colors, the map from a token's own offset 0..51 to
    the global index is one-to-one and onto 0..51: every cell of the ring is
    reached from exactly one offset. *)
Theorem main_track_bijection c :
  is_Some (COLOR_START c) →
  (∀ pos, 0 <= pos <= 51 →
          ∃ g, computeGlobalIndex c pos = Some g ∧ 0 <= g <= 51) ∧
  (∀ p1 p2, 0 <= p1 <= 51 → 0 <= p2 <= 51 →
            computeGlobalIndex c p1 = computeGlobalIndex c p2 → p1 = p2) ∧
  (∀ g, 0 <= g <= 51 →
        ∃ pos, 0 <= pos <= 51 ∧ computeGlobalIndex c pos = Some g).
Proof.
  intros [st Hc].
  assert (Hst : 0 <= st <= 39).
  { destruct (COLOR_START_cases c st Hc) as [H|[H|[H|H]]]; lia. }
  split; [|split].
  - intros pos Hpos. rewrite (computeGlobalIndex_main c st pos Hc Hpos).
    eexists. split; [done|]. Z.quot_rem_to_equations. lia.
  - intros p1 p2 H1 H2.
    rewrite (computeGlobalIndex_main c st p1 Hc H1).
    rewrite (computeGlobalIndex_main c st p2 Hc H2).
    intros [= Heq]. Z.quot_rem_to_equations. lia.
  - intros g Hg. exists ((g - st) mod 52).
    assert (Hm : 0 <= (g - st) mod 52 < 52) by (apply Z.mod_pos_bound; lia).
    split; [lia|].
    rewrite (computeGlobalIndex_main c st _ Hc) by lia. f_equal.
    rewrite Z.rem_mod_nonneg by lia.
    rewrite Zplus_mod_idemp_r. replace (st + (g - st)) with g by lia.
    apply Z.mod_small. lia.
Qed.

Lemma main_track_bijection_witness :
  (∀ pos, 0 <= pos <= 51 →
          ∃ g, computeGlobalIndex (Some "green") pos = Some g ∧ 0 <= g <= 51) ∧
  (∀ p1 p2, 0 <= p1 <= 51 → 0 <= p2 <= 51 →
            computeGlobalIndex (Some "green") p1
              = computeGlobalIndex (Some "green") p2 → p1 = p2) ∧
  (∀ g, 0 <= g <= 51 →
        ∃ pos, 0 <= pos <= 51 ∧ computeGlobalIndex (Some "green") pos = Some g).
Proof.
  apply (main_track_bijection (Some "green")). simpl. eauto.
Defined.

(** The index of a final-lane position (52..57) of one of the four colors is
    shared with no other position: not with a main-track or home position of
    any color, and not with a lane position of another color. *)
Theorem lane_index_is_private c1 c2 p1 p2 :
  is_Some (COLOR_START c1) → is_Some (COLOR_START c2) →
  52 <= p1 <= 57 → p2 <= 57 →
  computeGlobalIndex c1 p1 = computeGlobalIndex c2 p2 →
  c1 = c2 ∧ p1 = p2.
Proof.
  intros [s1 H1] [s2 H2] Hp1 Hp2.
  unfold computeGlobalIndex.
  destruct (Z.ltb_spec p1 0); [lia|]. destruct (Z.leb_spec p1 51); [lia|].
  destruct (COLOR_START_cases c1 s1 H1) as [(-> & -> & ->)|[(-> & -> & ->)|
    [(-> & -> & ->)|(-> & -> & ->)]]];
  destruct (COLOR_START_cases c2 s2 H2) as [(-> & -> & E)|[(-> & -> & E)|
    [(-> & -> & E)|(-> & -> & E)]]];
  destruct (Z.ltb_spec p2 0); try (simpl; intros [= Heq]; lia);
  destruct (Z.leb_spec p2 51);
  try (rewrite H2; simpl; intros [= Heq]; Z.quot_rem_to_equations; lia);
  rewrite E; simpl; intros [= Heq]; split; try done; try lia; f_equal; lia.
Qed.

Lemma lane_index_is_private_witness :
  Some "red" = Some "red" ∧ 55 = 55.
Proof.
  apply (lane_index_is_private (Some "red") (Some "red") 55 55);
    [simpl; eauto|simpl; eauto|lia|lia|reflexivity].
Defined.

(** ** The move engine: [computeMovableTokens] and [performMove] *)

Lemma movableFrom_iff i0 ps roll x :
  x ∈ movableFrom i0 ps roll ↔
  ∃ pos, i0 <= x ∧ ps !! Z.to_nat (x - i0) = Some pos ∧
         (if pos =? -1 then roll = 6 else pos + roll <= 57).
Proof.
  revert i0. induction ps as [|pos rest IH]; intros i0; simpl.
  { split; [intros H; by apply elem_of_nil in H|by intros (? & _ & ? & _)]. }
  set (cond := λ p : Z, if p =? -1 then roll = 6 else p + roll <= 57).
  assert (Hrest : x ∈ movableFrom (i0 + 1) rest roll ↔
            ∃ p, i0 < x ∧ rest !! Z.to_nat (x - (i0 + 1)) = Some p ∧ cond p).
  { rewrite IH. split; intros (p & Hx & Hl & Hc); exists p;
      (split; [lia|done]). }
  assert (Hsplit : (∃ p, i0 <= x ∧
                         (pos :: rest) !! Z.to_nat (x - i0) = Some p ∧ cond p)
                   ↔ (x = i0 ∧ cond pos) ∨ x ∈ movableFrom (i0 + 1) rest roll).
  { rewrite Hrest. split.
    - intros (p & Hx & Hl & Hc). destruct (decide (x = i0)) as [->|Hne].
      + rewrite Z.sub_diag in Hl. simpl in Hl. injection Hl as ->. by left.
      + right. exists p. split; [lia|]. split; [|done].
        replace (Z.to_nat (x - i0)) with (S (Z.to_nat (x - (i0 + 1)))) in Hl
          by lia.
        exact Hl.
    - intros [[-> Hc]|(p & Hx & Hl & Hc)].
      + exists pos. rewrite Z.sub_diag. by repeat split.
      + exists p. split; [lia|]. split; [|done].
        replace (Z.to_nat (x - i0)) with (S (Z.to_nat (x - (i0 + 1)))) by lia.
        exact Hl. }
  fold (cond pos) in Hsplit |- *.
  change (∃ pos0, i0 <= x ∧ (pos :: rest) !! Z.to_nat (x - i0) = Some pos0 ∧
                  (if pos0 =? -1 then roll = 6 else pos0 + roll <= 57))
    with (∃ p, i0 <= x ∧ (pos :: rest) !! Z.to_nat (x - i0) = Some p ∧ cond p).
  rewrite Hsplit. unfold cond at 1.
  assert (Hnot : x ∈ movableFrom (i0 + 1) rest roll → x ≠ i0).
  { intros H. apply movableFrom_range in H. lia. }
  destruct (Z.eqb_spec pos (-1)) as [Hhome|Hout].
  - destruct (Z.eqb_spec roll 6) as [H6|H6].
    + rewrite elem_of_cons. split; [intros [->|H]; auto|intros [[-> _]|H]; auto].
    + split; [auto|]. by intros [[_ ?]|H].
  - destruct (Z.ltb_spec pos 52) as [Htrack|Hlane].
    + destruct (Z.leb_spec (pos + roll) 51) as [Hin|Hover].
      * rewrite elem_of_cons.
        split; [intros [->|H]; [left; split; [done|lia]|auto]
               |intros [[-> _]|H]; auto].
      * destruct (Z.leb_spec (pos + roll - 51) 6) as [Hfit|Hno].
        -- rewrite elem_of_cons.
           split; [intros [->|H]; [left; split; [done|lia]|auto]
                  |intros [[-> _]|H]; auto].
        -- split; [auto|]. intros [[_ ?]|H]; [lia|done].
    + destruct (Z.leb_spec (pos + roll) 57) as [Hfit|Hno].
      * rewrite elem_of_cons.
        split; [intros [->|H]; auto|intros [[-> _]|H]; auto].
      * split; [auto|]. intros [[_ ?]|H]; [lia|done].
Qed.

(** A token index is listed as movable exactly when it is one of the
    player's tokens and that token is at home with a roll of 6, or is out of
    home with [pos + roll <= 57]: the three branches of the loop for tokens
    on the track and in the lane come to the same test. *)
Theorem movable_iff room player roll i :
  i ∈ computeMovableTokens room player roll ↔
  ∃ pos, at_index (positions player) i = Some pos ∧
         (if pos =? -1 then roll = 6 else pos + roll <= 57).
Proof.
  unfold computeMovableTokens. rewrite movableFrom_iff. unfold at_index.
  split.
  - intros (pos & Hi & Hl & Hc). exists pos.
    destruct (Z.ltb_spec i 0); [lia|]. by rewrite Z.sub_0_r in Hl.
  - intros (pos & Hl & Hc). exists pos.
    destruct (Z.ltb_spec i 0); [done|]. rewrite Z.sub_0_r. auto.
Qed.

Lemma movableFrom_ascending i0 ps roll j k a b :
  (j < k)%nat →
  movableFrom i0 ps roll !! j = Some a → movableFrom i0 ps roll !! k = Some b →
  a < b.
Proof.
  revert i0 j k. induction ps as [|pos rest IH]; intros i0 j k Hjk; simpl.
  { by rewrite lookup_nil. }
  assert (Hcons : ∀ j k, (j < k)%nat →
            (i0 :: movableFrom (i0 + 1) rest roll) !! j = Some a →
            (i0 :: movableFrom (i0 + 1) rest roll) !! k = Some b → a < b).
  { intros [|j'] [|k'] Hlt; simpl; try lia.
    - intros [= <-] Hb. apply list_elem_of_lookup_2, movableFrom_range in Hb. lia.
    - apply IH. lia. }
  repeat match goal with |- context [if ?c then _ else _] => destruct c end;
    first [by apply Hcons|by apply IH].
Qed.

(** The list of movable tokens is in ascending order of token index, without
    repetition, and names only tokens the player has. *)
Theorem movable_ascending room player roll :
  (∀ j k a b, (j < k)%nat →
     computeMovableTokens room player roll !! j = Some a →
     computeMovableTokens room player roll !! k = Some b → a < b) ∧
  NoDup (computeMovableTokens room player roll) ∧
  (∀ i, i ∈ computeMovableTokens room player roll →
        0 <= i < Z.of_nat (length (positions player))).
Proof.
  assert (Hasc : ∀ j k a b, (j < k)%nat →
     computeMovableTokens room player roll !! j = Some a →
     computeMovableTokens room player roll !! k = Some b → a < b).
  { intros j k a b. apply movableFrom_ascending. }
  split; [exact Hasc|]. split.
  - apply NoDup_alt. intros j k x Hj Hk.
    destruct (Nat.lt_trichotomy j k) as [Hlt|[Heq|Hgt]]; [|done|].
    + pose proof (Hasc j k x x Hlt Hj Hk). lia.
    + pose proof (Hasc k j x x Hgt Hk Hj). lia.
  - intros i Hi. apply movableFrom_range in Hi. lia.
Qed.

Lemma setPositions_same p : setPositions p (positions p) = p.
Proof. by destruct p. Qed.

Lemma captureTokens_no_hit target c ps :
  (∀ x, hit target c x = false) → captureTokens target c ps = (ps, false).
Proof.
  intros Hno. rewrite captureTokens_spec. f_equal.
  - rewrite <- (map_id ps) at 2. apply map_ext. intros x. by rewrite Hno.
  - by apply existsb_false.
Qed.

(** A capture loop whose test fails on every token of every object it
    passes over leaves the store and the flag as they are. *)
Lemma captureLoop_no_hit target me addrs : ∀ objs cap,
  (∀ a p x, a ∈ addrs → objs !! a = Some p →
            String.eqb (playerId p) me = false →
            hit target (color p) x = false) →
  captureLoop target me addrs objs cap = (objs, cap).
Proof.
  induction addrs as [|a0 rest IH]; intros objs cap Hno; simpl; [done|].
  assert (Hrest : ∀ a p x, a ∈ rest → objs !! a = Some p →
                    String.eqb (playerId p) me = false →
                    hit target (color p) x = false).
  { intros a p x Hin. apply Hno. by apply list_elem_of_further. }
  destruct (objs !! a0) as [opp|] eqn:Hopp; [|by apply IH].
  destruct (String.eqb (playerId opp) me) eqn:Hid; [by apply IH|].
  rewrite captureTokens_no_hit.
  - rewrite setPositions_same, list_insert_id by done.
    rewrite orb_false_r. by apply IH.
  - intros x. eapply Hno; [apply list_elem_of_here|done|done].
Qed.

Lemma hit_start_cell c oc x : hit (computeGlobalIndex c 0) oc x = false.
Proof.
  unfold hit. destruct (COLOR_START c) as [st|] eqn:Hc.
  - rewrite (computeGlobalIndex_main c st 0 Hc) by lia.
    destruct (COLOR_START_cases c st Hc) as [(_ & -> & _)|[(_ & -> & _)|
      [(_ & -> & _)|(_ & -> & _)]]]; simpl; apply andb_false_r.
  - set (g := computeGlobalIndex oc x).
    unfold computeGlobalIndex. simpl. rewrite Hc. simpl.
    destruct g; simpl; by rewrite ?andb_false_r.
Qed.

(** A token leaving home goes to the player's square 0 and captures
    nothing, whatever the roll passed, whoever stands on that cell and
    whatever the player's color is: the four entry cells are safe ones, and
    for any other color the index is [NaN].  The store changes at the moved
    token only. *)
Theorem leaving_home_never_captures objs room pa tokenIndex roll player :
  objs !! pa = Some player →
  at_index (positions player) tokenIndex = Some (-1) →
  performMove objs room pa tokenIndex roll
  = Some (<[pa := setPositions player
                    (<[Z.to_nat tokenIndex := 0]> (positions player))]> objs,
          mkResult false false).
Proof.
  intros Hpl Hpos. unfold performMove.
  rewrite Hpl, bind_Some_eq, Hpos, bind_Some_eq. cbv zeta.
  change (destination (-1) roll) with 0. cbn [Z.leb Z.compare Z.eqb].
  rewrite captureLoop_no_hit by (intros; apply hit_start_cell).
  by rewrite Hpl, bind_Some_eq.
Qed.

Lemma leaving_home_never_captures_witness :
  performMove
    [ mkPlayer "p0" "ann" (Some "red") 0 true [13; -1; -1; -1];
      mkPlayer "p1" "bob" (Some "green") 1 true [-1; 5; -1; -1] ]
    demo_room 1 0 6
  = Some ([ mkPlayer "p0" "ann" (Some "red") 0 true [13; -1; -1; -1];
            mkPlayer "p1" "bob" (Some "green") 1 true [0; 5; -1; -1] ],
          mkResult false false).
Proof.
  apply (leaving_home_never_captures
           [ mkPlayer "p0" "ann" (Some "red") 0 true [13; -1; -1; -1];
             mkPlayer "p1" "bob" (Some "green") 1 true [-1; 5; -1; -1] ]
           demo_room 1 0 6
           (mkPlayer "p1" "bob" (Some "green") 1 true [-1; 5; -1; -1]));
    reflexivity.
Defined.

Lemma hit_outside_target oc x target :
  (∀ g, target = Some g → g < 0) → hit target oc x = false.
Proof.
  intros Htar. unfold hit.
  destruct (Z.leb_spec 0 x) as [H0|]; [|done].
  destruct (Z.leb_spec x 51) as [H51|]; [|done]. simpl.
  destruct target as [g|]; [|by destruct (computeGlobalIndex oc x)].
  specialize (Htar g eq_refl).
  unfold computeGlobalIndex.
  destruct (Z.ltb_spec x 0); [lia|]. destruct (Z.leb_spec x 51); [|lia].
  destruct (COLOR_START oc) as [st|] eqn:Hc; simpl; [|done].
  assert (0 <= st <= 39).
  { destruct (COLOR_START_cases oc st Hc) as [H'|[H'|[H'|H']]]; lia. }
  destruct (Z.eqb_spec (Z.rem (st + x) 52) g) as [Heq|]; [|done].
  exfalso. Z.quot_rem_to_equations. lia.
Qed.

Lemma hit_outside_color target oc x :
  COLOR_START oc = None → hit target oc x = false.
Proof.
  intros Hc. unfold hit.
  destruct (Z.leb_spec 0 x) as [H0|]; [|done].
  destruct (Z.leb_spec x 51) as [H51|]; [|done]. simpl.
  unfold computeGlobalIndex.
  destruct (Z.ltb_spec x 0); [lia|]. destruct (Z.leb_spec x 51); [|lia].
  by rewrite Hc.
Qed.

(** A player whose color is not one of red, green, yellow, blue (a join may
    ask for any string, and gets [undefined] in a full room) is outside the
    capture rule: the moves of such a player capture nothing, and the tokens
    of such a player are never sent home by a move of another player. *)
Theorem outside_color_outside_captures objs room pa tokenIndex roll player
    objs' res :
  objs !! pa = Some player →
  performMove objs room pa tokenIndex roll = Some (objs', res) →
  (COLOR_START (color player) = None →
   captured_ res = false ∧ ∀ a, a ≠ pa → objs' !! a = objs !! a) ∧
  (∀ a opp, a ≠ pa → objs !! a = Some opp →
            COLOR_START (color opp) = None → objs' !! a = Some opp).
Proof.
  intros Hpl Hpm. unfold performMove in Hpm.
  rewrite Hpl, bind_Some_eq in Hpm.
  destruct (at_index (positions player) tokenIndex) as [pos|]; [|done].
  rewrite bind_Some_eq in Hpm. cbv zeta in Hpm.
  set (d := destination pos roll) in *.
  destruct (Z.leb_spec d 51) as [Hmain|Hlane].
  - set (target := computeGlobalIndex (color player) d) in *.
    pose proof (captureLoop_lookup target (playerId player) (players room)
                  objs false) as Hlook.
    split.
    + intros Hc.
      rewrite captureLoop_no_hit in Hpm.
      * rewrite Hpl, bind_Some_eq in Hpm. injection Hpm as <- <-.
        split; [done|]. intros a Hne. by rewrite list_lookup_insert_ne.
      * intros a p x _ _ _. apply hit_outside_target.
        subst target. unfold computeGlobalIndex.
        destruct (Z.ltb_spec d 0); [intros g [= <-]; lia|].
        destruct (Z.leb_spec d 51); [|lia]. by rewrite Hc.
    + intros a opp Hne Hopp Hc.
      destruct (captureLoop target (playerId player) (players room) objs false)
        as [objs1 cap]. simpl in Hlook.
      destruct (objs1 !! pa) as [player1|]; [|done].
      rewrite bind_Some_eq in Hpm. injection Hpm as <- <-.
      rewrite list_lookup_insert_ne by done.
      rewrite Hlook, Hopp. simpl. f_equal.
      destruct (_ && _); [|done].
      unfold sentHome. rewrite <- (setPositions_same opp) at 3. f_equal.
      rewrite <- (map_id (positions opp)) at 2. apply map_ext.
      intros x. by rewrite hit_outside_color.
  - rewrite Hpl, bind_Some_eq in Hpm. injection Hpm as <- <-.
    split.
    + intros _. split; [done|]. intros a Hne. by rewrite list_lookup_insert_ne.
    + intros a opp Hne Hopp _. by rewrite list_lookup_insert_ne.
Qed.

(** A purple player lands on the cell where a red token stands, and a red
    player on a cell where a purple token stands: nobody goes home. *)
Lemma outside_color_outside_captures_witness :
  (COLOR_START (Some "purple") = None →
   captured_ (mkResult false false) = false ∧
   ∀ a, a ≠ 1%nat →
     [ mkPlayer "p0" "ann" (Some "red") 0 true [7; -1; -1; -1];
       mkPlayer "p1" "bob" (Some "purple") 1 true [7; 5; -1; -1] ] !! a
     = [ mkPlayer "p0" "ann" (Some "red") 0 true [7; -1; -1; -1];
         mkPlayer "p1" "bob" (Some "purple") 1 true [5; 5; -1; -1] ] !! a) ∧
  (∀ a opp, a ≠ 1%nat →
     [ mkPlayer "p0" "ann" (Some "red") 0 true [7; -1; -1; -1];
       mkPlayer "p1" "bob" (Some "purple") 1 true [5; 5; -1; -1] ] !! a
       = Some opp →
     COLOR_START (color opp) = None →
     [ mkPlayer "p0" "ann" (Some "red") 0 true [7; -1; -1; -1];
       mkPlayer "p1" "bob" (Some "purple") 1 true [7; 5; -1; -1] ] !! a
     = Some opp).
Proof.
  apply (outside_color_outside_captures
           [ mkPlayer "p0" "ann" (Some "red") 0 true [7; -1; -1; -1];
             mkPlayer "p1" "bob" (Some "purple") 1 true [5; 5; -1; -1] ]
           demo_room 1 0 2
           (mkPlayer "p1" "bob" (Some "purple") 1 true [5; 5; -1; -1]));
    reflexivity.
Defined.

(** ** What a step does to the stores *)

Lemma insert_room_inv (l : list Room) ra0 rX ra r' :
  <[ra0 := rX]> l !! ra = Some r' →
  l !! ra = Some r' ∨ (ra = ra0 ∧ r' = rX).
Proof.
  intros H. apply list_lookup_insert_Some in H as [(-> & -> & _)|[_ H]]; auto.
Qed.

(** Every room object of the server after a step was there before it,
    unchanged or changed in one of the ways of [room_change], or is the new
    room of a join with the joiner as its only player.  No room object is
    ever dropped from the store. *)
Lemma step_roomObjs s e s' out :
  good s → enabled s e → step s e = Some (s', out) →
  (length (roomObjs s) <= length (roomObjs s'))%nat ∧
  ∀ ra r', roomObjs s' !! ra = Some r' →
    roomObjs s !! ra = Some r' ∨
    (∃ r, roomObjs s !! ra = Some r ∧
          room_change (playerObjs s) (playerObjs s') r r') ∨
    (roomObjs s !! ra = None ∧
     ∃ rid, r' = setPlayers (createRoom rid) [length (playerObjs s)]).
Proof.
  intros Hg He Hstep.
  assert (Hone : ∀ ra0 room rX,
            roomObjs s !! ra0 = Some room →
            room_change (playerObjs s) (playerObjs s') room rX →
            (length (roomObjs s) <= length (<[ra0 := rX]> (roomObjs s)))%nat ∧
            ∀ ra r', <[ra0 := rX]> (roomObjs s) !! ra = Some r' →
              roomObjs s !! ra = Some r' ∨
              (∃ r, roomObjs s !! ra = Some r ∧
                    room_change (playerObjs s) (playerObjs s') r r') ∨
              (roomObjs s !! ra = None ∧
               ∃ rid, r' = setPlayers (createRoom rid) [length (playerObjs s)])).
  { intros ra0 room rX Hroom Hch. rewrite length_insert. split; [lia|].
    intros ra r' Hl. apply insert_room_inv in Hl as [Hl|[-> ->]]; eauto. }
  assert (Hsame : (length (roomObjs s) <= length (roomObjs s))%nat ∧
            ∀ ra r', roomObjs s !! ra = Some r' →
              roomObjs s !! ra = Some r' ∨
              (∃ r, roomObjs s !! ra = Some r ∧
                    room_change (playerObjs s) (playerObjs s') r r') ∨
              (roomObjs s !! ra = None ∧
               ∃ rid, r' = setPlayers (createRoom rid) [length (playerObjs s)])).
  { split; [lia|]. auto. }
  destruct e as [w data newId die|w]; simpl in Hstep.
  - destruct He as [_ Hdie].
    destruct data as [rid nm col| | | |tokenIndex]; simpl in Hstep.
    + unfold handleJoin, getRoom in Hstep.
      destruct (rooms s !! rid) as [ra0|] eqn:Hreg.
      * destruct (roomObjs s !! ra0) as [room|] eqn:Hroom; [|done].
        rewrite bind_Some_eq in Hstep.
        destruct (gameStarted room) eqn:Hst; injection Hstep as <- <-;
          [exact Hsame|].
        cbn [roomObjs playerObjs] in *. apply (Hone ra0 room); [done|].
        eapply rc_join; [done|reflexivity| |reflexivity].
        cbn [color]. intros c Hc.
        set (taken := map color (roster (playerObjs s) room)) in *.
        destruct (falsy col || includes taken col) eqn:Hcond.
        -- change (List.find (λ c, negb (includes taken (Some c))) COLOR_ORDER
                   = Some c) in Hc.
           apply find_first in Hc as (i & _ & Hf & _).
           apply negb_true_iff in Hf. unfold includes in Hf.
           by apply bool_decide_eq_false in Hf.
        -- apply orb_false_iff in Hcond as [_ Hinc]. unfold includes in Hinc.
           apply bool_decide_eq_false in Hinc. by rewrite <- Hc.
      * cbn [roomObjs playerObjs rooms conns closedWs] in Hstep.
        rewrite lookup_app_r, Nat.sub_diag in Hstep by lia.
        simpl in Hstep. injection Hstep as <- <-. simpl.
        rewrite insert_app_r_alt, Nat.sub_diag by lia. simpl.
        rewrite length_app. simpl. split; [lia|].
        intros ra r' Hl.
        destruct (decide (ra < length (roomObjs s))%nat) as [Hlt|Hge].
        -- left. by rewrite lookup_app_l in Hl.
        -- right. right. rewrite lookup_app_r in Hl by lia.
           split; [apply lookup_ge_None; lia|].
           destruct (ra - length (roomObjs s))%nat as [|k]; simpl in Hl;
             [|by rewrite lookup_nil in Hl].
           injection Hl as <-. by exists rid.
    + unfold handleReady in Hstep.
      destruct (currentRoom (connOf s w)) as [ra0|];
        [|injection Hstep as <- <-; exact Hsame].
      destruct (currentPlayer (connOf s w)) as [pa|];
        [|injection Hstep as <- <-; exact Hsame].
      destruct (playerObjs s !! pa) as [player|]; [|done].
      rewrite bind_Some_eq in Hstep. cbv zeta in Hstep.
      destruct (roomObjs _ !! ra0) as [room|]; [|done].
      rewrite bind_Some_eq in Hstep. injection Hstep as <- <-. exact Hsame.
    + unfold handleStart in Hstep.
      destruct (currentRoom (connOf s w)) as [ra0|];
        [|injection Hstep as <- <-; exact Hsame].
      destruct (currentPlayer (connOf s w)) as [pa|];
        [|injection Hstep as <- <-; exact Hsame].
      destruct (roomObjs s !! ra0) as [room|] eqn:Hroom; [|done].
      rewrite bind_Some_eq in Hstep.
      destruct (gameStarted room) eqn:Hst;
        [injection Hstep as <- <-; exact Hsame|].
      destruct (Nat.ltb_spec (length (players room)) 2);
        [injection Hstep as <- <-; exact Hsame|].
      destruct (forallb ready _) eqn:Hready; cbn [negb] in Hstep;
        [|injection Hstep as <- <-; exact Hsame].
      cbv zeta in Hstep. destruct (playerAt _ _ 0); [|done].
      rewrite bind_Some_eq in Hstep. injection Hstep as <- <-. simpl.
      apply (Hone ra0 room); [done|]. by apply rc_start.
    + unfold handleRoll in Hstep.
      destruct (currentRoom (connOf s w)) as [ra0|];
        [|injection Hstep as <- <-; exact Hsame].
      destruct (currentPlayer (connOf s w)) as [pa|];
        [|injection Hstep as <- <-; exact Hsame].
      destruct (roomObjs s !! ra0) as [room|] eqn:Hroom; [|done].
      rewrite bind_Some_eq in Hstep.
      destruct (playerObjs s !! pa) as [me|]; [|done].
      rewrite bind_Some_eq in Hstep.
      destruct (playerAt _ _ _) as [cur|]; [|done].
      rewrite bind_Some_eq in Hstep.
      destruct (negb _); [injection Hstep as <- <-; exact Hsame|].
      cbv zeta in Hstep.
      set (c := if die =? 6 then consecutiveSixes (setCurrentRoll room die) + 1
                else 0) in Hstep.
      set (r2 := setConsecutiveSixes (setCurrentRoll room die) c) in Hstep.
      set (skip := (die =? 6) && (3 <=? consecutiveSixes r2)) in Hstep.
      set (r3 := if skip then setConsecutiveSixes r2 0 else r2) in Hstep.
      assert (H3 : ∀ t, room_change (playerObjs s) (playerObjs s')
                          room (setTurnIndex r3 t)).
      { intros t. apply (rc_roll _ _ _ _ t die); [done|].
        subst r3 skip r2 c. simpl.
        destruct (die =? 6); simpl; [|done].
        by destruct (3 <=? consecutiveSixes room + 1). }
      assert (H3' : r3 = setTurnIndex r3 (turnIndex r3)) by (by destruct r3).
      destruct (_ || _).
      * destruct (nextTurn _ _) as [room4|] eqn:Hn; [|done].
        rewrite bind_Some_eq in Hstep.
        destruct (playerAt _ _ _) as [next|]; [|done].
        rewrite bind_Some_eq in Hstep. injection Hstep as <- <-. simpl.
        apply (Hone ra0 room); [done|].
        apply nextTurn_cases in Hn as [->|(j & -> & _)]; [|by apply H3].
        rewrite H3'. apply H3.
      * injection Hstep as <- <-. simpl.
        apply (Hone ra0 room); [done|]. rewrite H3'. apply H3.
    + unfold handleMove in Hstep.
      destruct (currentRoom (connOf s w)) as [ra0|];
        [|injection Hstep as <- <-; exact Hsame].
      destruct (currentPlayer (connOf s w)) as [pa|];
        [|injection Hstep as <- <-; exact Hsame].
      destruct (roomObjs s !! ra0) as [room|] eqn:Hroom; [|done].
      rewrite bind_Some_eq in Hstep.
      destruct (playerObjs s !! pa) as [me|]; [|done].
      rewrite bind_Some_eq in Hstep.
      destruct (playerAt _ _ _) as [cur|]; [|done].
      rewrite bind_Some_eq in Hstep.
      destruct (negb (String.eqb _ _)); [injection Hstep as <- <-; exact Hsame|].
      cbv zeta in Hstep.
      destruct (negb (bool_decide _)); [injection Hstep as <- <-; exact Hsame|].
      destruct (performMove _ _ _ _ _) as [[objs1 result]|]; [|done].
      rewrite bind_Some_eq in Hstep. cbv beta iota in Hstep.
      destruct (objs1 !! pa) as [me1|]; [|done].
      rewrite bind_Some_eq in Hstep.
      destruct (_ || _ || _).
      * rewrite bind_Some_eq in Hstep.
        destruct (playerAt _ _ _) as [next|]; [|done].
        rewrite bind_Some_eq in Hstep. injection Hstep as <- <-. simpl.
        apply (Hone ra0 room); [done|].
        apply (rc_move _ _ _ _ (turnIndex room) (consecutiveSixes room));
          [by left|done].
      * destruct (nextTurn _ _) as [room1|] eqn:Hn; [|done].
        rewrite bind_Some_eq in Hstep.
        destruct (playerAt _ _ _) as [next|]; [|done].
        rewrite bind_Some_eq in Hstep. injection Hstep as <- <-. simpl.
        apply (Hone ra0 room); [done|].
        apply nextTurn_cases in Hn as [->|(j & -> & _)].
        -- apply (rc_move _ _ _ _ (turnIndex room) 0); [by right|done].
        -- apply (rc_move _ _ _ _ j 0); [by right|done].
  - unfold onClose in Hstep.
    destruct (currentRoom (connOf s w)) as [ra0|];
      [|injection Hstep as <- <-; exact Hsame].
    destruct (currentPlayer (connOf s w)) as [pa|];
      [|injection Hstep as <- <-; exact Hsame].
    cbv zeta in Hstep. cbn [roomObjs playerObjs] in Hstep.
    destruct (roomObjs s !! ra0) as [room|] eqn:Hroom; [|done].
    rewrite bind_Some_eq in Hstep.
    destruct (playerObjs s !! pa) as [me|]; [|done].
    rewrite bind_Some_eq in Hstep.
    match type of Hstep with
    | context [setRoomObjs _ (<[ra0 := ?r]> _)] => set (room2 := r) in Hstep
    end.
    assert (Hch : room_change (playerObjs s) (playerObjs s') room room2).
    { subst room2. simpl. destruct (_ <=? _).
      - by apply (rc_close _ _ _ _ 0 (playerId me)).
      - by apply (rc_close _ _ _ _ (turnIndex room) (playerId me)). }
    destruct (_ =? 0)%nat; injection Hstep as <- <-; simpl;
      by apply (Hone ra0 room).
Qed.

Lemma same_player_refl p : same_player p p.
Proof. by repeat split. Qed.

Lemma sentHome_same_player target p : same_player p (sentHome target p).
Proof. repeat split. simpl. apply length_map. Qed.

(** [performMove] keeps every player object in its place, with its id,
    name, color, socket, ready flag and number of tokens. *)
Lemma performMove_same_player objs room pa tokenIndex roll objs' res a p :
  performMove objs room pa tokenIndex roll = Some (objs', res) →
  objs !! a = Some p →
  ∃ p', objs' !! a = Some p' ∧ same_player p p'.
Proof.
  intros Hpm Hp. unfold performMove in Hpm.
  destruct (objs !! pa) as [player|] eqn:Hpl; [|done].
  rewrite bind_Some_eq in Hpm.
  destruct (at_index (positions player) tokenIndex) as [pos|]; [|done].
  rewrite bind_Some_eq in Hpm. cbv zeta in Hpm.
  assert (H1 : ∃ q, (if destination pos roll <=? 51
                     then captureLoop
                            (computeGlobalIndex (color player)
                               (destination pos roll))
                            (playerId player) (players room) objs false
                     else (objs, false)).1 !! a = Some q ∧ same_player p q).
  { destruct (_ <=? 51); simpl.
    - rewrite captureLoop_lookup, Hp. simpl. eexists. split; [done|].
      destruct (_ && _); [apply sentHome_same_player|apply same_player_refl].
    - eauto using same_player_refl. }
  destruct (if _ <=? 51 then _ else _) as [objs1 cap]. simpl in H1.
  destruct H1 as (q & Hq & Hsame).
  destruct (objs1 !! pa) as [player1|] eqn:Hpl1; [|done].
  rewrite bind_Some_eq in Hpm. injection Hpm as <- <-.
  destruct (decide (a = pa)) as [->|Hne].
  - rewrite list_lookup_insert_eq by (by eapply lookup_lt_Some).
    eexists. split; [done|].
    assert (q = player1) as -> by congruence.
    destruct Hsame as (? & ? & ? & ? & ? & Hlen).
    repeat split; try done. simpl. by rewrite length_insert.
  - rewrite list_lookup_insert_ne by done. eauto.
Qed.

(** What a step does to the store of player objects: nothing; or a join
    appends one new object, not ready and with four tokens at home; or a
    'ready' sets one flag; or a move runs [performMove] for a token index
    listed as movable for the room's roll. *)
Lemma step_playerObjs s e s' out :
  good s → step s e = Some (s', out) →
  playerObjs s' = playerObjs s
  ∨ (∃ w rid nm col newId die p,
       e = Message w (Join rid nm col) newId die ∧
       playerObjs s' = playerObjs s ++ [p] ∧
       playerId p = newId ∧ ws p = w ∧ ready p = false ∧
       positions p = [-1; -1; -1; -1])
  ∨ (∃ pa p, playerObjs s !! pa = Some p ∧
             playerObjs s' = <[pa := setReady p true]> (playerObjs s))
  ∨ (∃ ra pa room me tokenIndex res,
       roomObjs s !! ra = Some room ∧ playerObjs s !! pa = Some me ∧
       tokenIndex ∈ computeMovableTokens room me (currentRoll room) ∧
       0 <= currentRoll room <= 6 ∧
       performMove (playerObjs s) room pa tokenIndex (currentRoll room)
         = Some (playerObjs s', res)).
Proof.
  intros Hg Hstep.
  destruct e as [w data newId die|w]; simpl in Hstep.
  - destruct data as [rid nm col| | | |tokenIndex]; simpl in Hstep.
    + unfold handleJoin in Hstep.
      destruct (getRoom s rid) as [s1 ra] eqn:Hget.
      destruct (getRoom_good s rid s1 ra Hg Hget) as (_ & [room Hroom] & Hobjs).
      rewrite Hroom, bind_Some_eq in Hstep.
      destruct (gameStarted room); injection Hstep as <- <-; [by left|].
      right. left. simpl. rewrite Hobjs.
      eexists w, rid, nm, col, newId, die, _. by repeat split.
    + unfold handleReady in Hstep.
      destruct (currentRoom (connOf s w)) as [ra|];
        [|injection Hstep as <- <-; by left].
      destruct (currentPlayer (connOf s w)) as [pa|];
        [|injection Hstep as <- <-; by left].
      destruct (playerObjs s !! pa) as [player|] eqn:Hpl; [|done].
      rewrite bind_Some_eq in Hstep. cbv zeta in Hstep.
      destruct (roomObjs _ !! ra) as [room|]; [|done].
      rewrite bind_Some_eq in Hstep. injection Hstep as <- <-.
      right. right. left. eauto.
    + unfold handleStart in Hstep.
      destruct (currentRoom (connOf s w)) as [ra|];
        [|injection Hstep as <- <-; by left].
      destruct (currentPlayer (connOf s w)) as [pa|];
        [|injection Hstep as <- <-; by left].
      destruct (roomObjs s !! ra) as [room|]; [|done].
      rewrite bind_Some_eq in Hstep.
      destruct (gameStarted room); [injection Hstep as <- <-; by left|].
      destruct (_ <? 2)%nat; [injection Hstep as <- <-; by left|].
      destruct (negb _); [injection Hstep as <- <-; by left|].
      cbv zeta in Hstep. destruct (playerAt _ _ 0); [|done].
      rewrite bind_Some_eq in Hstep. injection Hstep as <- <-. by left.
    + unfold handleRoll in Hstep.
      destruct (currentRoom (connOf s w)) as [ra|];
        [|injection Hstep as <- <-; by left].
      destruct (currentPlayer (connOf s w)) as [pa|];
        [|injection Hstep as <- <-; by left].
      destruct (roomObjs s !! ra) as [room|]; [|done].
      rewrite bind_Some_eq in Hstep.
      destruct (playerObjs s !! pa) as [me|]; [|done].
      rewrite bind_Some_eq in Hstep.
      destruct (playerAt _ _ _) as [cur|]; [|done].
      rewrite bind_Some_eq in Hstep.
      destruct (negb _); [injection Hstep as <- <-; by left|].
      cbv zeta in Hstep.
      destruct (_ || _); [|injection Hstep as <- <-; by left].
      destruct (nextTurn _ _) as [room4|]; [|done].
      rewrite bind_Some_eq in Hstep.
      destruct (playerAt _ _ _) as [next|]; [|done].
      rewrite bind_Some_eq in Hstep. injection Hstep as <- <-. by left.
    + unfold handleMove in Hstep.
      destruct (currentRoom (connOf s w)) as [ra|];
        [|injection Hstep as <- <-; by left].
      destruct (currentPlayer (connOf s w)) as [pa|];
        [|injection Hstep as <- <-; by left].
      destruct (roomObjs s !! ra) as [room|] eqn:Hroom; [|done].
      rewrite bind_Some_eq in Hstep.
      destruct (playerObjs s !! pa) as [me|] eqn:Hme; [|done].
      rewrite bind_Some_eq in Hstep.
      destruct (playerAt _ _ _) as [cur|]; [|done].
      rewrite bind_Some_eq in Hstep.
      destruct (negb (String.eqb _ _)); [injection Hstep as <- <-; by left|].
      cbv zeta in Hstep.
      destruct (bool_decide _) eqn:Hmov; cbn [negb] in Hstep;
        [|injection Hstep as <- <-; by left].
      apply bool_decide_eq_true in Hmov.
      destruct (performMove _ _ _ _ _) as [[objs1 result]|] eqn:Hpm; [|done].
      rewrite bind_Some_eq in Hstep. cbv beta iota in Hstep.
      destruct (objs1 !! pa) as [me1|]; [|done].
      rewrite bind_Some_eq in Hstep.
      destruct (room_ok_lookup s ra room Hg Hroom) as (_ & _ & Hroll).
      assert (Hfinal : playerObjs s' = objs1).
      { destruct (_ || _ || _).
        - rewrite bind_Some_eq in Hstep.
          destruct (playerAt _ _ _) as [next|]; [|done].
          rewrite bind_Some_eq in Hstep. by injection Hstep as <- <-.
        - destruct (nextTurn _ _) as [room1|]; [|done].
          rewrite bind_Some_eq in Hstep.
          destruct (playerAt _ _ _) as [next|]; [|done].
          rewrite bind_Some_eq in Hstep. by injection Hstep as <- <-. }
      right. right. right. rewrite Hfinal.
      exists ra, pa, room, me, tokenIndex, result.
      repeat split; try done; lia.
  - unfold onClose in Hstep.
    destruct (currentRoom (connOf s w)) as [ra|];
      [|injection Hstep as <- <-; by left].
    destruct (currentPlayer (connOf s w)) as [pa|];
      [|injection Hstep as <- <-; by left].
    cbv zeta in Hstep. cbn [roomObjs playerObjs] in Hstep.
    destruct (roomObjs s !! ra) as [room|]; [|done].
    rewrite bind_Some_eq in Hstep.
    destruct (playerObjs s !! pa) as [me|]; [|done].
    rewrite bind_Some_eq in Hstep.
    destruct (_ =? 0)%nat; injection Hstep as <- <-; by left.
Qed.

(** Seen from one address: a step keeps every player object in place, with
    its id, name, color and socket; its number of tokens stays; and its
    ready flag is never taken back. *)
Lemma step_player_at s e s' out a p :
  good s → step s e = Some (s', out) → playerObjs s !! a = Some p →
  ∃ p', playerObjs s' !! a = Some p' ∧
        playerId p' = playerId p ∧ name p' = name p ∧ color p' = color p ∧
        ws p' = ws p ∧ (ready p = true → ready p' = true) ∧
        length (positions p') = length (positions p).
Proof.
  intros Hg Hstep Hp.
  destruct (step_playerObjs s e s' out Hg Hstep)
    as [->|[(w & rid & nm & col & newId & die & q & _ & -> & _)|
       [(pa & q & Hq & ->)|
        (ra & pa & room & me & ti & res & _ & _ & _ & _ & Hpm)]]].
  - exists p. by repeat split.
  - exists p. split; [by apply lookup_app_l_Some|by repeat split].
  - destruct (decide (a = pa)) as [->|Hne].
    + rewrite list_lookup_insert_eq by (by eapply lookup_lt_Some).
      eexists. split; [done|]. assert (q = p) as -> by congruence.
      by repeat split.
    + rewrite list_lookup_insert_ne by done. exists p. by repeat split.
  - destruct (performMove_same_player _ _ _ _ _ _ _ a p Hpm Hp)
      as (p' & Hp' & H1 & H2 & H3 & H4 & H5 & H6).
    exists p'. repeat split; try done. by rewrite H5.
Qed.

(** ** Invariants of the reachable states *)

Lemma destination_ok pos roll :
  position_ok pos → 0 <= roll →
  (if pos =? -1 then roll = 6 else pos + roll <= 57) →
  position_ok (destination pos roll).
Proof.
  unfold position_ok, destination. intros Hpos Hroll Hcond.
  destruct (Z.eqb_spec pos (-1)); [lia|].
  destruct (_ && _); lia.
Qed.

Lemma sentHome_positions_ok target p :
  Forall position_ok (positions p) →
  Forall position_ok (positions (sentHome target p)).
Proof.
  intros H. simpl. apply Forall_fmap. eapply Forall_impl; [exact H|].
  intros x Hx. simpl. destruct (hit _ _ _); [by left|done].
Qed.

(** A move that the handler lets through keeps every token of every player
    in the domain of positions. *)
Lemma performMove_positions_ok objs room pa tokenIndex roll objs' res :
  0 <= roll →
  (∀ b q, objs !! b = Some q → Forall position_ok (positions q)) →
  (∀ me, objs !! pa = Some me → tokenIndex ∈ computeMovableTokens room me roll) →
  performMove objs room pa tokenIndex roll = Some (objs', res) →
  ∀ a p', objs' !! a = Some p' → Forall position_ok (positions p').
Proof.
  intros Hroll Hall Hmov Hpm a p' Hp'. unfold performMove in Hpm.
  destruct (objs !! pa) as [player|] eqn:Hpl; [|done].
  rewrite bind_Some_eq in Hpm.
  destruct (at_index (positions player) tokenIndex) as [pos|] eqn:Hpos; [|done].
  rewrite bind_Some_eq in Hpm. cbv zeta in Hpm.
  specialize (Hmov player eq_refl).
  assert (Hd : position_ok (destination pos roll)).
  { unfold computeMovableTokens in Hmov.
    apply movableFrom_iff in Hmov as (pos' & Hi & Hl & Hcond).
    apply at_index_Some in Hpos as [_ Hpos]. rewrite Z.sub_0_r in Hl.
    assert (pos' = pos) as -> by congruence.
    apply destination_ok; [|done|done].
    eapply Forall_lookup_1; [by eapply Hall|exact Hpos]. }
  assert (H1 : ∀ b q, (if destination pos roll <=? 51
                       then captureLoop
                              (computeGlobalIndex (color player)
                                 (destination pos roll))
                              (playerId player) (players room) objs false
                       else (objs, false)).1 !! b = Some q →
                 Forall position_ok (positions q)).
  { intros b q. destruct (_ <=? 51); simpl; [|by apply Hall].
    rewrite captureLoop_lookup.
    destruct (objs !! b) as [q0|] eqn:Hq0; simpl; [|done].
    intros [= <-]. specialize (Hall b q0 Hq0).
    destruct (_ && _); [by apply sentHome_positions_ok|done]. }
  destruct (if _ <=? 51 then _ else _) as [objs1 cap]. simpl in H1.
  destruct (objs1 !! pa) as [player1|] eqn:Hpl1; [|done].
  rewrite bind_Some_eq in Hpm. injection Hpm as <- <-.
  apply list_lookup_insert_Some in Hp' as [(-> & <- & _)|[_ Hp']];
    [|by eapply H1].
  simpl. apply Forall_insert; [by eapply H1|done].
Qed.

(** In every state the server can reach, every player object has exactly
    four tokens, each at home (-1) or at a position from 0 to 57. *)
Theorem tokens_stay_on_board s a p :
  reachable s → playerObjs s !! a = Some p →
  length (positions p) = 4%nat ∧ Forall position_ok (positions p).
Proof.
  intros Hr. revert a p.
  induction Hr as [|s e s' out Hr IH He Hs]; intros a p Hp.
  { simpl in Hp. by rewrite lookup_nil in Hp. }
  pose proof (reachable_good s Hr) as Hg.
  destruct (step_playerObjs s e s' out Hg Hs)
    as [Heq|[(w & rid & nm & col & newId & die & q & _ & Heq & _ & _ & _ & Hq)|
       [(pa & q & Hq & Heq)|
        (ra & pa & room & me & ti & res & Hroom & Hme & Hmov & Hroll & Hpm)]]].
  - rewrite Heq in Hp. by eapply IH.
  - rewrite Heq in Hp. apply lookup_app_Some in Hp as [Hp|[_ Hp]].
    + by eapply IH.
    + apply list_lookup_singleton_Some in Hp as [_ <-]. rewrite Hq.
      split; [done|]. repeat constructor.
  - rewrite Heq in Hp.
    apply list_lookup_insert_Some in Hp as [(-> & <- & _)|[_ Hp]];
      [exact (IH a q Hq)|exact (IH a p Hp)].
  - split.
    + destruct (lookup_lt_is_Some_2 (playerObjs s) a) as [p0 Hp0].
      { rewrite <- (performMove_length _ _ _ _ _ _ _ Hpm).
        by eapply lookup_lt_Some. }
      destruct (performMove_same_player _ _ _ _ _ _ _ a p0 Hpm Hp0)
        as (p1 & Hp1 & _ & _ & _ & _ & _ & Hlen).
      assert (p1 = p) as -> by congruence.
      rewrite Hlen. by eapply IH.
    + eapply (performMove_positions_ok _ _ _ _ _ _ _ (proj1 Hroll)); [| |exact Hpm|exact Hp].
      * intros b q Hq. by eapply IH.
      * intros me' Hme'. congruence.
Qed.

Lemma tokens_stay_on_board_witness :
  length (positions
            (mkPlayer "p0" "Player 1" (Some "red") 0 false [57; -1; -1; -1]))
    = 4%nat ∧
  Forall position_ok
    (positions
       (mkPlayer "p0" "Player 1" (Some "red") 0 false [57; -1; -1; -1])).
Proof.
  apply (tokens_stay_on_board (after finish_run) 0).
  - apply after_reachable. vm_compute. eauto.
  - vm_compute. reflexivity.
Defined.

(** In every state the server can reach, [consecutiveSixes] is 0, 1 or 2 in
    every room: the roll that would make it 3 sets it back to 0. *)
Theorem sixes_stay_below_three s ra r :
  reachable s → roomObjs s !! ra = Some r → 0 <= consecutiveSixes r <= 2.
Proof.
  intros Hr. revert ra r.
  induction Hr as [|s e s' out Hr IH He Hs]; intros ra r' Hr'.
  { simpl in Hr'. by rewrite lookup_nil in Hr'. }
  pose proof (reachable_good s Hr) as Hg.
  destruct (step_roomObjs s e s' out Hg He Hs) as [_ Hinv].
  destruct (Hinv ra r' Hr') as [Hsame|[(r & Hroom & Hch)|[_ (rid & ->)]]].
  - by eapply IH.
  - specialize (IH ra r Hroom).
    destruct Hch as [p _ _ _ ->| _ _ _ ->|t die Hdie ->|t c Hc ->|t me ->];
      simpl; try lia.
    destruct (die =? 6); [|lia].
    destruct (Z.leb_spec 3 (consecutiveSixes r + 1)); lia.
  - simpl. lia.
Qed.

Lemma sixes_stay_below_three_witness :
  0 <= consecutiveSixes (roomAt (after two_sixes) 0) <= 2.
Proof.
  apply (sixes_stay_below_three (after two_sixes) 0).
  - apply after_reachable. vm_compute. eauto.
  - vm_compute. reflexivity.
Defined.

Lemma List_filter_sublist {A} (f : A → bool) (l : list A) :
  sublist (List.filter f l) l.
Proof.
  induction l as [|x l IH]; simpl; [constructor|].
  destruct (f x); by constructor.
Qed.

Lemma omap_sublist {A B} (f : A → option B) (l1 l2 : list A) :
  sublist l1 l2 → sublist (omap f l1) (omap f l2).
Proof.
  induction 1 as [|x l1 l2 _ IH|x l1 l2 _ IH]; simpl; [constructor| |].
  - destruct (f x); [by constructor|done].
  - destruct (f x); [by constructor|done].
Qed.

Lemma roster_elem objs r p :
  p ∈ roster objs r ↔ ∃ a, a ∈ players r ∧ objs !! a = Some p.
Proof. unfold roster. apply list_elem_of_omap. Qed.

(** A step changes no color: the colors of the players of a room whose
    addresses are in the store read the same before and after. *)
Lemma definedColors_stable s e s' out r :
  good s → step s e = Some (s', out) →
  Forall (λ a, (a < length (playerObjs s))%nat) (players r) →
  definedColors (playerObjs s') r = definedColors (playerObjs s) r.
Proof.
  intros Hg Hs. unfold definedColors, roster.
  induction 1 as [|a l Ha _ IH]; simpl; [done|].
  destruct (lookup_lt_is_Some_2 _ _ Ha) as [p Hp].
  destruct (step_player_at s e s' out a p Hg Hs Hp)
    as (p' & Hp' & _ & _ & Hc & _).
  rewrite Hp, Hp'. simpl. rewrite Hc.
  destruct (color p); simpl; [f_equal|]; exact IH.
Qed.

(** Once a room has started it stays started under every step, it keeps its
    id, and its roster can only lose players: the players after the step
    are players from before it, in the same order. *)
Theorem started_is_forever s e s' out ra r :
  reachable s → enabled s e → step s e = Some (s', out) →
  roomObjs s !! ra = Some r → gameStarted r = true →
  ∃ r', roomObjs s' !! ra = Some r' ∧ gameStarted r' = true ∧
        roomId r' = roomId r ∧ sublist (players r') (players r).
Proof.
  intros Hr He Hs Hroom Hst.
  pose proof (reachable_good s Hr) as Hg.
  destruct (step_roomObjs s e s' out Hg He Hs) as [Hlen Hinv].
  destruct (lookup_lt_is_Some_2 (roomObjs s') ra) as [r' Hr'].
  { apply lookup_lt_Some in Hroom. lia. }
  exists r'. split; [done|].
  destruct (Hinv ra r' Hr') as [Hsame|[(r0 & Hr0 & Hch)|[Hnone _]]].
  - assert (r' = r) as -> by congruence. by repeat split.
  - assert (r0 = r) as -> by congruence.
    destruct Hch as [p Hns _ _ ->|Hns _ _ ->|t die Hdie ->|t c Hc ->|t me ->];
      simpl; try congruence; repeat split; try done.
    apply List_filter_sublist.
  - congruence.
Qed.

Lemma started_is_forever_witness :
  ∃ r', roomObjs (default initial
                    (fst <$> step (after three_players_started) (Close 1)))
          !! 0%nat = Some r' ∧
        gameStarted r' = true ∧
        roomId r' = roomId (roomAt (after three_players_started) 0) ∧
        sublist (players r') (players (roomAt (after three_players_started) 0)).
Proof.
  apply (started_is_forever (after three_players_started) (Close 1) _
           (default [] (snd <$> step (after three_players_started) (Close 1)))).
  - apply after_reachable. vm_compute. eauto.
  - apply enabledb_enabled. vm_compute. reflexivity.
  - vm_compute. reflexivity.
  - vm_compute. reflexivity.
  - vm_compute. reflexivity.
Defined.

(** In a started room every player is ready: a start needs everybody
    ready, nobody joins a started room, and a ready flag is never taken
    back. *)
Theorem started_room_all_ready s ra r :
  reachable s → roomObjs s !! ra = Some r → gameStarted r = true →
  Forall (λ p, ready p = true) (roster (playerObjs s) r).
Proof.
  intros Hr. revert ra r.
  induction Hr as [|s e s' out Hr IH He Hs]; intros ra r' Hr' Hst.
  { simpl in Hr'. by rewrite lookup_nil in Hr'. }
  pose proof (reachable_good s Hr) as Hg.
  assert (Hcarry : ∀ r0,
            roomObjs s !! ra = Some r0 →
            Forall (λ p, ready p = true) (roster (playerObjs s) r0) →
            (∀ a, a ∈ players r' → a ∈ players r0) →
            Forall (λ p, ready p = true) (roster (playerObjs s') r')).
  { intros r0 Hr0 Hall Hsub. apply Forall_forall. intros p' Hp'.
    apply roster_elem in Hp' as (a & Ha & Hp').
    destruct (room_ok_lookup s ra r0 Hg Hr0) as (_ & Haddr & _).
    assert (Halt : (a < length (playerObjs s))%nat).
    { eapply Forall_forall in Haddr; [exact Haddr|by apply Hsub]. }
    destruct (lookup_lt_is_Some_2 _ _ Halt) as [p Hp].
    destruct (step_player_at s e s' out a p Hg Hs Hp)
      as (p'' & Hp'' & _ & _ & _ & _ & Hready & _).
    assert (p'' = p') as -> by congruence.
    apply Hready. eapply Forall_forall in Hall; [exact Hall|].
    apply roster_elem. exists a. split; [by apply Hsub|done]. }
  destruct (step_roomObjs s e s' out Hg He Hs) as [_ Hinv].
  destruct (Hinv ra r' Hr') as [Hsame|[(r0 & Hr0 & Hch)|[_ (rid & ->)]]].
  - apply (Hcarry r'); [done|by eapply IH|done].
  - destruct Hch as [p Hns _ _ ->|Hns _ Hready ->|t die Hdie ->|t c Hc ->|t me ->];
      simpl in Hst; try congruence.
    + apply (Hcarry r0); [done| |done].
      apply Forall_forall. intros p Hp.
      rewrite forallb_forall in Hready. apply Hready.
      by apply list_elem_of_In.
    + apply (Hcarry r0); [done|by eapply IH|done].
    + apply (Hcarry r0); [done|by eapply IH|done].
    + apply (Hcarry r0); [done|by eapply IH|].
      simpl. intros a Ha. apply list_elem_of_In in Ha.
      apply filter_In in Ha as [Ha _]. by apply list_elem_of_In.
  - done.
Qed.

Lemma started_room_all_ready_witness :
  Forall (λ p, ready p = true)
    (roster (playerObjs (after departure_run)) (roomAt (after departure_run) 0)).
Proof.
  apply (started_room_all_ready (after departure_run) 0).
  - apply after_reachable. vm_compute. eauto.
  - vm_compute. reflexivity.
  - vm_compute. reflexivity.
Defined.

(** In every state the server can reach, no two players of a room have the
    same color, the players without a color ([undefined], in a room where
    the four colors are taken) left aside. *)
Theorem colors_distinct s ra r :
  reachable s → roomObjs s !! ra = Some r →
  NoDup (definedColors (playerObjs s) r).
Proof.
  intros Hr. revert ra r.
  induction Hr as [|s e s' out Hr IH He Hs]; intros ra r' Hr'.
  { simpl in Hr'. by rewrite lookup_nil in Hr'. }
  pose proof (reachable_good s Hr) as Hg.
  destruct (step_roomObjs s e s' out Hg He Hs) as [_ Hinv].
  assert (Hkeep : ∀ r0, roomObjs s !! ra = Some r0 →
            NoDup (definedColors (playerObjs s') r0)).
  { intros r0 Hr0. rewrite (definedColors_stable s e s' out r0 Hg Hs).
    - by eapply IH.
    - by destruct (room_ok_lookup s ra r0 Hg Hr0) as (_ & Haddr & _). }
  destruct (Hinv ra r' Hr') as [Hsame|[(r0 & Hr0 & Hch)|[_ (rid & ->)]]].
  - by apply Hkeep.
  - specialize (Hkeep r0 Hr0).
    destruct Hch as [p Hns Hobjs Hfree ->|Hns _ _ ->|t die Hdie ->|t c Hc ->
                    |t me ->]; try exact Hkeep.
    + assert (Hnew : playerObjs s' !! length (playerObjs s) = Some p).
      { rewrite Hobjs, lookup_app_r, Nat.sub_diag by lia. done. }
      unfold definedColors, roster in Hkeep |- *.
      cbn [players setPlayers]. rewrite !omap_app.
      apply NoDup_app. split; [exact Hkeep|].
      simpl. rewrite Hnew. simpl.
      destruct (color p) as [c|] eqn:Hc; simpl.
      2:{ split; [|constructor]. intros x _ Hin. by apply elem_of_nil in Hin. }
      split; [|apply NoDup_singleton].
      intros x Hx Hin. apply list_elem_of_singleton in Hin as ->.
      apply (Hfree c eq_refl).
      change (c ∈ definedColors (playerObjs s') r0) in Hx.
      rewrite (definedColors_stable s e s' out r0 Hg Hs) in Hx
        by (by destruct (room_ok_lookup s ra r0 Hg Hr0) as (_ & Haddr & _)).
      apply list_elem_of_omap in Hx as (q & Hq & Hcq).
      apply list_elem_of_fmap. exists q. split; [done|exact Hq].
    + apply (sublist_NoDup _ (definedColors (playerObjs s') r0));
        [exact Hkeep|].
      unfold definedColors, roster. cbn [players].
      apply omap_sublist, omap_sublist, List_filter_sublist.
  - unfold definedColors, roster. simpl.
    destruct (playerObjs s' !! length (playerObjs s)) as [p|]; simpl;
      [|constructor].
    destruct (color p); simpl; [apply NoDup_singleton|constructor].
Qed.

Lemma colors_distinct_witness :
  NoDup (definedColors (playerObjs (after four_joined))
           (roomAt (after four_joined) 0)).
Proof.
  apply (colors_distinct (after four_joined) 0).
  - apply after_reachable. vm_compute. eauto.
  - vm_compute. reflexivity.
Defined.

(** ** The turn rotation: [nextTurn] *)

(** [nextTurn] always returns on a room whose players are in the store and
    whose turn index is not negative.  It writes [turnIndex] and nothing
    else; an empty room is left as it is; otherwise the new index is a seat
    of the room, the first one after the current seat, going round, whose
    player still has a token to bring in (the current seat when everybody
    has finished). *)
Theorem nextTurn_finds_next_active objs room :
  addrs_in objs room → 0 <= turnIndex room →
  ∃ room',
    nextTurn objs room = Some room' ∧
    room' = setTurnIndex room (turnIndex room') ∧
    (players room = [] → room' = room) ∧
    (players room ≠ [] → next_active objs room (turnIndex room')) ∧
    (turnIndex room' = turnIndex room ∨
     0 <= turnIndex room' < Z.of_nat (length (players room))).
Proof.
  intros Hin Ht.
  destruct (nextTurn_total objs room Hin Ht) as [room' Hn].
  exists room'. split; [done|].
  pose proof (nextTurn_cases objs room room' Hn) as Hcases.
  split; [|split; [|split]].
  - destruct Hcases as [->|(j & -> & _)]; by destruct room.
  - intros Hempty. unfold nextTurn in Hn. rewrite Hempty in Hn. simpl in Hn.
    congruence.
  - intros Hne. by apply nextTurn_next_active.
  - destruct Hcases as [->|(j & -> & Hj)]; [by left|by right].
Qed.

(** Seat 1 has finished, so from seat 0 the turn goes to seat 2. *)
Lemma nextTurn_finds_next_active_witness :
  ∃ room',
    nextTurn
      [ mkPlayer "p0" "ann" (Some "red") 0 true [3; -1; -1; -1];
        mkPlayer "p1" "bob" (Some "green") 1 true [57; 57; 57; 57];
        mkPlayer "p2" "cy" (Some "blue") 2 true [-1; -1; -1; -1] ]
      (mkRoom "A" [0; 1; 2]%nat 0 0 0 true) = Some room' ∧
    room' = setTurnIndex (mkRoom "A" [0; 1; 2]%nat 0 0 0 true) (turnIndex room') ∧
    (players (mkRoom "A" [0; 1; 2]%nat 0 0 0 true) = [] →
     room' = mkRoom "A" [0; 1; 2]%nat 0 0 0 true) ∧
    (players (mkRoom "A" [0; 1; 2]%nat 0 0 0 true) ≠ [] →
     next_active
       [ mkPlayer "p0" "ann" (Some "red") 0 true [3; -1; -1; -1];
         mkPlayer "p1" "bob" (Some "green") 1 true [57; 57; 57; 57];
         mkPlayer "p2" "cy" (Some "blue") 2 true [-1; -1; -1; -1] ]
       (mkRoom "A" [0; 1; 2]%nat 0 0 0 true) (turnIndex room')) ∧
    (turnIndex room' = turnIndex (mkRoom "A" [0; 1; 2]%nat 0 0 0 true) ∨
     0 <= turnIndex room'
       < Z.of_nat (length (players (mkRoom "A" [0; 1; 2]%nat 0 0 0 true)))).
Proof.
  apply (nextTurn_finds_next_active
           [ mkPlayer "p0" "ann" (Some "red") 0 true [3; -1; -1; -1];
             mkPlayer "p1" "bob" (Some "green") 1 true [57; 57; 57; 57];
             mkPlayer "p2" "cy" (Some "blue") 2 true [-1; -1; -1; -1] ]
           (mkRoom "A" [0; 1; 2]%nat 0 0 0 true)).
  - unfold addrs_in. simpl. repeat constructor.
  - simpl. lia.
Defined.

Example nextTurn_skips_finished_seat :
  turnIndex <$>
    nextTurn
      [ mkPlayer "p0" "ann" (Some "red") 0 true [3; -1; -1; -1];
        mkPlayer "p1" "bob" (Some "green") 1 true [57; 57; 57; 57];
        mkPlayer "p2" "cy" (Some "blue") 2 true [-1; -1; -1; -1] ]
      (mkRoom "A" [0; 1; 2]%nat 0 0 0 true)
  = Some 2.
Proof. reflexivity. Qed.

(** ** The registry: [getRoom] *)

(** [getRoom] leaves the room it returns registered under the id: asking
    again returns the same room and changes nothing.  Other ids keep their
    entries, the room objects that were in the store stay as they are, and
    a room made for an unknown id is the empty room of [createRoom]. *)
Theorem getRoom_registers s rid :
  good s →
  let s1 := (getRoom s rid).1 in
  let ra := (getRoom s rid).2 in
  rooms s1 !! rid = Some ra ∧
  is_Some (roomObjs s1 !! ra) ∧
  getRoom s1 rid = (s1, ra) ∧
  (∀ rid', rid' ≠ rid → rooms s1 !! rid' = rooms s !! rid') ∧
  (∀ a r, roomObjs s !! a = Some r → roomObjs s1 !! a = Some r) ∧
  (rooms s !! rid = None → roomObjs s1 !! ra = Some (createRoom rid)) ∧
  (is_Some (rooms s !! rid) → s1 = s).
Proof.
  intros Hg. unfold getRoom.
  destruct (rooms s !! rid) as [ra0|] eqn:Hreg; simpl.
  - rewrite Hreg. repeat split; try done.
    apply lookup_lt_is_Some. by eapply good_registry.
  - rewrite lookup_insert_eq. simpl.
    rewrite lookup_app_r, Nat.sub_diag by lia. simpl.
    repeat split; try done.
    + intros rid' Hne. by rewrite lookup_insert_ne.
    + intros a r Ha. by apply lookup_app_l_Some.
Qed.

Lemma getRoom_registers_witness :
  let s1 := (getRoom (after first_joiner) "B").1 in
  let ra := (getRoom (after first_joiner) "B").2 in
  rooms s1 !! "B" = Some ra ∧
  is_Some (roomObjs s1 !! ra) ∧
  getRoom s1 "B" = (s1, ra) ∧
  (∀ rid', rid' ≠ "B" → rooms s1 !! rid' = rooms (after first_joiner) !! rid') ∧
  (∀ a r, roomObjs (after first_joiner) !! a = Some r →
          roomObjs s1 !! a = Some r) ∧
  (rooms (after first_joiner) !! "B" = None →
   roomObjs s1 !! ra = Some (createRoom "B")) ∧
  (is_Some (rooms (after first_joiner) !! "B") → s1 = after first_joiner).
Proof.
  apply (getRoom_registers (after first_joiner) "B").
  apply reachable_good, after_reachable. vm_compute. eauto.
Defined.

(** ** The handlers: start and roll *)

(** A 'start' from any player of the room (not only the first joiner)
    returns in every reachable state.  It takes effect exactly when the room
    has not started, has at least two players and all of them are ready:
    then the room is started with [turnIndex], [currentRoll] and
    [consecutiveSixes] at 0 and the same players, and [game_started] is
    broadcast with the first player as turn holder.  Otherwise the server
    is unchanged, and whatever is sent is an error to the sender alone. *)
Theorem start_outcomes s w ra pa room :
  reachable s →
  currentRoom (connOf s w) = Some ra →
  currentPlayer (connOf s w) = Some pa →
  roomObjs s !! ra = Some room →
  ∃ s' out,
    handleStart s w = Some (s', out) ∧
    (gameStarted room = false ∧ (2 <= length (players room))%nat ∧
     Forall (λ p, ready p = true) (roster (playerObjs s) room) →
     ∃ first,
       playerAt (playerObjs s) room 0 = Some first ∧
       s' = setRoomObjs s
              (<[ra := mkRoom (roomId room) (players room) 0 0 0 true]>
                 (roomObjs s)) ∧
       out = broadcast s room
               (game_started (playerId first)
                  (map (λ p, (playerId p, positions p))
                     (roster (playerObjs s) room)))) ∧
    (¬ (gameStarted room = false ∧ (2 <= length (players room))%nat ∧
        Forall (λ p, ready p = true) (roster (playerObjs s) room)) →
     s' = s ∧ ∀ x, x ∈ out → x.1 = w ∧ ∃ t, x.2 = error t).
Proof.
  intros Hr Hcr Hcp Hroom.
  pose proof (reachable_good s Hr) as Hg.
  destruct (room_ok_lookup s ra room Hg Hroom) as (_ & Haddr & _).
  assert (Hready : forallb ready (roster (playerObjs s) room) = true ↔
                   Forall (λ p, ready p = true) (roster (playerObjs s) room)).
  { rewrite forallb_forall, Forall_forall. split; intros H p Hp; apply H;
      by apply list_elem_of_In. }
  unfold handleStart. rewrite Hcr, Hcp, Hroom, bind_Some_eq.
  destruct (gameStarted room) eqn:Hst.
  { eexists _, _. split; [done|]. split; [by intros [? _]|].
    intros _. split; [done|]. intros x Hx. by apply elem_of_nil in Hx. }
  destruct (Nat.ltb_spec (length (players room)) 2) as [Hfew|Hmany].
  { eexists _, _. split; [done|]. split; [intros (_ & ? & _); lia|].
    intros _. split; [done|]. intros x Hx.
    apply list_elem_of_singleton in Hx as ->. eauto. }
  destruct (forallb ready (roster (playerObjs s) room)) eqn:Hall; cbn [negb].
  2:{ eexists _, _. split; [done|]. split.
      - intros (_ & _ & Hf). apply Hready in Hf. congruence.
      - intros _. split; [done|]. intros x Hx.
        apply list_elem_of_singleton in Hx as ->. eauto. }
  cbv zeta.
  destruct (playerAt_in_range (playerObjs s) room 0) as [first Hfirst];
    [exact Haddr|lia|].
  change (playerAt (playerObjs (setRoomObjs s _)) _ 0)
    with (playerAt (playerObjs s) room 0).
  rewrite Hfirst, bind_Some_eq.
  eexists _, _. split; [done|]. split.
  - intros _. exists first. by repeat split.
  - intros Hno. destruct Hno. repeat split; [done|by apply Hready].
Qed.

(** The second player, not the first joiner, starts the game. *)
Lemma start_outcomes_witness :
  ∃ s' out,
    handleStart (after two_players_ready) 1 = Some (s', out) ∧
    (gameStarted (roomAt (after two_players_ready) 0) = false ∧
     (2 <= length (players (roomAt (after two_players_ready) 0)))%nat ∧
     Forall (λ p, ready p = true)
       (roster (playerObjs (after two_players_ready))
          (roomAt (after two_players_ready) 0)) →
     ∃ first,
       playerAt (playerObjs (after two_players_ready))
         (roomAt (after two_players_ready) 0) 0 = Some first ∧
       s' = setRoomObjs (after two_players_ready)
              (<[0%nat := mkRoom (roomId (roomAt (after two_players_ready) 0))
                            (players (roomAt (after two_players_ready) 0))
                            0 0 0 true]>
                 (roomObjs (after two_players_ready))) ∧
       out = broadcast (after two_players_ready)
               (roomAt (after two_players_ready) 0)
               (game_started (playerId first)
                  (map (λ p, (playerId p, positions p))
                     (roster (playerObjs (after two_players_ready))
                        (roomAt (after two_players_ready) 0))))) ∧
    (¬ (gameStarted (roomAt (after two_players_ready) 0) = false ∧
        (2 <= length (players (roomAt (after two_players_ready) 0)))%nat ∧
        Forall (λ p, ready p = true)
          (roster (playerObjs (after two_players_ready))
             (roomAt (after two_players_ready) 0))) →
     s' = after two_players_ready ∧
     ∀ x, x ∈ out → x.1 = 1%nat ∧ ∃ t, x.2 = error t).
Proof.
  apply (start_outcomes (after two_players_ready) 1 0 1
           (roomAt (after two_players_ready) 0)).
  - apply after_reachable. vm_compute. eauto.
  - vm_compute. reflexivity.
  - vm_compute. reflexivity.
  - vm_compute. reflexivity.
Defined.

(** An accepted roll that does not bust the six streak.  [currentRoll]
    becomes the die and [consecutiveSixes] counts it.  With a legal move,
    the turn stays and only [roll_result] is sent; with none, the turn goes
    to the next active player, [roll_result] with no moves is followed by
    [turn], and the die stays in [currentRoll]. *)
Theorem roll_waits_or_passes s w ra pa room me cur die :
  reachable s →
  currentRoom (connOf s w) = Some ra →
  currentPlayer (connOf s w) = Some pa →
  roomObjs s !! ra = Some room →
  playerObjs s !! pa = Some me →
  playerAt (playerObjs s) room (turnIndex room) = Some cur →
  playerId cur = playerId me →
  ¬ (die = 6 ∧ 3 <= consecutiveSixes room + 1) →
  ∃ s' room' out,
    handleRoll s w die = Some (s', out) ∧
    roomObjs s' !! ra = Some room' ∧
    playerObjs s' = playerObjs s ∧
    players room' = players room ∧
    currentRoll room' = die ∧
    consecutiveSixes room' = (if die =? 6 then consecutiveSixes room + 1 else 0) ∧
    (computeMovableTokens room me die ≠ [] →
     turnIndex room' = turnIndex room ∧
     out = broadcast s room
             (roll_result (playerId me) die (computeMovableTokens room me die))) ∧
    (computeMovableTokens room me die = [] →
     next_active (playerObjs s) room (turnIndex room') ∧
     ∃ next,
       playerAt (playerObjs s) room (turnIndex room') = Some next ∧
       out = broadcast s room (roll_result (playerId me) die [])
             ++ broadcast s room (turn (playerId next))).
Proof.
  intros Hr Hcr Hcp Hroom Hme Hcur Hid Hnobust.
  pose proof (reachable_good s Hr) as Hg.
  destruct (room_ok_lookup s ra room Hg Hroom) as (Ht & Ha & Hroll).
  pose proof (lookup_lt_Some _ _ _ Hroom) as Hra.
  pose proof (playerAt_Some _ _ _ _ Hcur) as [Hrange _].
  assert (Hne : players room ≠ []).
  { intros E. rewrite E in Hrange. simpl in Hrange. lia. }
  unfold handleRoll. rewrite Hcr, Hcp, Hroom, bind_Some_eq, Hme, bind_Some_eq.
  rewrite Hcur, bind_Some_eq.
  apply String.eqb_eq in Hid. rewrite Hid. cbn [negb]. cbv zeta.
  unfold computeMovableTokens.
  set (moves := movableFrom 0 (positions me) die).
  set (c := if die =? 6 then consecutiveSixes (setCurrentRoll room die) + 1
            else 0).
  set (r2 := setConsecutiveSixes (setCurrentRoll room die) c).
  assert (Hskip : (die =? 6) && (3 <=? consecutiveSixes r2) = false).
  { subst r2 c. simpl. destruct (Z.eqb_spec die 6) as [->|]; [|done].
    simpl. apply Z.leb_gt. lia. }
  rewrite Hskip. cbn [orb].
  destruct moves as [|m ms] eqn:Hmoves; cbn [length Nat.eqb].
  - destruct (nextTurn_total (playerObjs s) r2) as [room4 Hn];
      [exact Ha|simpl; lia|].
    pose proof (nextTurn_next_active _ r2 _ (proj1 Ht) Hne Hn) as Hnext.
    rewrite Hn, bind_Some_eq.
    assert (H4 : players room4 = players room ∧
                 0 <= turnIndex room4 < Z.of_nat (length (players room)) ∧
                 currentRoll room4 = die ∧ consecutiveSixes room4 = c).
    { apply nextTurn_cases in Hn as [->|(j & -> & Hj)]; simpl; done. }
    destruct H4 as (Hp4 & Ht4 & Hroll4 & Hc4).
    destruct (playerAt_in_range (playerObjs s) room (turnIndex room4))
      as [next Hnx]; [exact Ha|done|].
    rewrite (playerAt_ext _ room4 room) by done. rewrite Hnx, bind_Some_eq.
    eexists _, room4, _. split; [done|]. simpl.
    split; [by apply list_lookup_insert_eq|].
    repeat split; try done.
    exists next. split; [done|]. f_equal; by apply broadcast_ext.
  - eexists _, r2, _. split; [done|]. simpl.
    split; [by apply list_lookup_insert_eq|].
    repeat split; try done.
Qed.

(** After the start, the first player rolls a 3 with every token at home. *)
Lemma roll_waits_or_passes_witness :
  ∃ s' room' out,
    handleRoll (after two_players_started) 0 3 = Some (s', out) ∧
    roomObjs s' !! 0%nat = Some room' ∧
    playerObjs s' = playerObjs (after two_players_started) ∧
    players room' = players (roomAt (after two_players_started) 0) ∧
    currentRoll room' = 3 ∧
    consecutiveSixes room' = 0 ∧
    (computeMovableTokens (roomAt (after two_players_started) 0)
       (mkPlayer "p0" "ann" (Some "red") 0 true [-1; -1; -1; -1]) 3 ≠ [] →
     turnIndex room' = turnIndex (roomAt (after two_players_started) 0) ∧
     out = broadcast (after two_players_started)
             (roomAt (after two_players_started) 0)
             (roll_result "p0" 3
                (computeMovableTokens (roomAt (after two_players_started) 0)
                   (mkPlayer "p0" "ann" (Some "red") 0 true [-1; -1; -1; -1])
                   3))) ∧
    (computeMovableTokens (roomAt (after two_players_started) 0)
       (mkPlayer "p0" "ann" (Some "red") 0 true [-1; -1; -1; -1]) 3 = [] →
     next_active (playerObjs (after two_players_started))
       (roomAt (after two_players_started) 0) (turnIndex room') ∧
     ∃ next,
       playerAt (playerObjs (after two_players_started))
         (roomAt (after two_players_started) 0) (turnIndex room') = Some next ∧
       out = broadcast (after two_players_started)
               (roomAt (after two_players_started) 0) (roll_result "p0" 3 [])
             ++ broadcast (after two_players_started)
                  (roomAt (after two_players_started) 0)
                  (turn (playerId next))).
Proof.
  eapply (roll_waits_or_passes (after two_players_started) 0 0 0
            (roomAt (after two_players_started) 0)
            (mkPlayer "p0" "ann" (Some "red") 0 true [-1; -1; -1; -1])).
  - apply after_reachable. vm_compute. eauto.
  - vm_compute. reflexivity.
  - vm_compute. reflexivity.
  - vm_compute. reflexivity.
  - vm_compute. reflexivity.
  - vm_compute. reflexivity.
  - vm_compute. reflexivity.
  - intros [H _]. discriminate H.
Defined.

(** ** What is sent, and to whom *)

Lemma broadcast_open s s' room m x :
  closedWs s = closedWs s' → x ∈ broadcast s room m → x.1 ∉ closedWs s'.
Proof.
  intros Hc. unfold broadcast. intros Hx. apply list_elem_of_In in Hx.
  apply in_flat_map in Hx as (p & _ & Hx). rewrite Hc in Hx.
  destruct (bool_decide_reflect (ws p ∈ closedWs s')) as [|Hopen]; [done|].
  destruct Hx as [<-|[]]. exact Hopen.
Qed.

Lemma getRoom_closedWs s rid : closedWs (getRoom s rid).1 = closedWs s.
Proof. unfold getRoom. by destruct (rooms s !! rid). Qed.

(** Nothing is ever sent to a socket that has closed: every send of a step
    goes to a socket that is open after the step.  In particular the
    [player_list] that follows a close does not go to the socket that
    closed. *)
Theorem sends_reach_open_sockets s e s' out x :
  enabled s e → step s e = Some (s', out) → x ∈ out → x.1 ∉ closedWs s'.
Proof.
  intros He. destruct e as [w data newId die|w]; simpl.
  - destruct He as [Hw _]. destruct data as [rid nm col| | | |tokenIndex]; simpl.
    + unfold handleJoin. pose proof (getRoom_closedWs s rid) as Hc.
      destruct (getRoom s rid) as [s1 ra]. simpl in Hc.
      destruct (roomObjs s1 !! ra) as [room|]; [|done]. simpl.
      destruct (gameStarted room).
      * intros [= <- <-] Hx. apply list_elem_of_singleton in Hx as ->.
        simpl. by rewrite Hc.
      * intros [= <- <-] Hx. simpl. apply elem_of_cons in Hx as [->|Hx].
        -- simpl. by rewrite Hc.
        -- by eapply broadcast_open in Hx.
    + unfold handleReady.
      destruct (currentRoom (connOf s w)) as [ra|];
        [|by intros [= <- <-] Hx; apply elem_of_nil in Hx].
      destruct (currentPlayer (connOf s w)) as [pa|];
        [|by intros [= <- <-] Hx; apply elem_of_nil in Hx].
      destruct (playerObjs s !! pa) as [player|]; [|done]. simpl.
      destruct (roomObjs s !! ra) as [room|]; [|done]. simpl.
      intros [= <- <-] Hx. by eapply broadcast_open in Hx.
    + unfold handleStart.
      destruct (currentRoom (connOf s w)) as [ra|];
        [|by intros [= <- <-] Hx; apply elem_of_nil in Hx].
      destruct (currentPlayer (connOf s w)) as [pa|];
        [|by intros [= <- <-] Hx; apply elem_of_nil in Hx].
      destruct (roomObjs s !! ra) as [room|]; [|done]. simpl.
      destruct (gameStarted room);
        [by intros [= <- <-] Hx; apply elem_of_nil in Hx|].
      destruct (length (players room) <? 2)%nat;
        [by intros [= <- <-] Hx; apply list_elem_of_singleton in Hx as ->|].
      destruct (negb _);
        [by intros [= <- <-] Hx; apply list_elem_of_singleton in Hx as ->|].
      destruct (playerAt _ _ 0); [|done]. simpl.
      intros [= <- <-] Hx. by eapply broadcast_open in Hx.
    + unfold handleRoll.
      destruct (currentRoom (connOf s w)) as [ra|];
        [|by intros [= <- <-] Hx; apply elem_of_nil in Hx].
      destruct (currentPlayer (connOf s w)) as [pa|];
        [|by intros [= <- <-] Hx; apply elem_of_nil in Hx].
      destruct (roomObjs s !! ra) as [room|]; [|done]. simpl.
      destruct (playerObjs s !! pa) as [me|]; [|done]. simpl.
      destruct (playerAt _ _ _) as [cur|]; [|done]. simpl.
      destruct (negb _);
        [by intros [= <- <-] Hx; apply elem_of_nil in Hx|].
      destruct (_ || _).
      * destruct (nextTurn _ _) as [room4|]; [|done]. simpl.
        destruct (playerAt _ room4 _); [|done]. simpl.
        intros [= <- <-] Hx. apply elem_of_app in Hx as [Hx|Hx];
          by eapply broadcast_open in Hx.
      * intros [= <- <-] Hx. by eapply broadcast_open in Hx.
    + unfold handleMove.
      destruct (currentRoom (connOf s w)) as [ra|];
        [|by intros [= <- <-] Hx; apply elem_of_nil in Hx].
      destruct (currentPlayer (connOf s w)) as [pa|];
        [|by intros [= <- <-] Hx; apply elem_of_nil in Hx].
      destruct (roomObjs s !! ra) as [room|]; [|done]. simpl.
      destruct (playerObjs s !! pa) as [me|]; [|done]. simpl.
      destruct (playerAt _ _ _) as [cur|]; [|done]. simpl.
      destruct (negb (String.eqb _ _));
        [by intros [= <- <-] Hx; apply elem_of_nil in Hx|].
      destruct (negb (bool_decide _));
        [by intros [= <- <-] Hx; apply elem_of_nil in Hx|].
      destruct (performMove _ _ _ _ _) as [[objs1 result]|]; [|done]. simpl.
      destruct (objs1 !! pa) as [me1|]; [|done]. simpl.
      set (extra := _ || _ || _).
      destruct extra.
      * simpl. destruct (playerAt _ _ _); [|done]. simpl.
        intros [= <- <-] Hx.
        apply elem_of_app in Hx as [Hx|Hx]; [by eapply broadcast_open in Hx|].
        apply elem_of_app in Hx as [Hx|Hx]; [|by eapply broadcast_open in Hx].
        destruct (finishedCount me1 =? 4); [by eapply broadcast_open in Hx|].
        by apply elem_of_nil in Hx.
      * destruct (nextTurn _ _) as [room1|]; [|done]. simpl.
        destruct (playerAt _ _ _); [|done]. simpl.
        intros [= <- <-] Hx.
        apply elem_of_app in Hx as [Hx|Hx]; [by eapply broadcast_open in Hx|].
        apply elem_of_app in Hx as [Hx|Hx]; [|by eapply broadcast_open in Hx].
        destruct (finishedCount me1 =? 4); [by eapply broadcast_open in Hx|].
        by apply elem_of_nil in Hx.
  - unfold onClose.
    destruct (currentRoom (connOf s w)) as [ra|];
      [|by intros [= <- <-] Hx; apply elem_of_nil in Hx].
    destruct (currentPlayer (connOf s w)) as [pa|];
      [|by intros [= <- <-] Hx; apply elem_of_nil in Hx].
    simpl.
    destruct (roomObjs s !! ra) as [room|]; [|done]. simpl.
    destruct (playerObjs s !! pa) as [me|]; [|done]. simpl.
    match goal with |- (if ?b then _ else _) = _ → _ => destruct b end;
      intros [= <- <-] Hx; by eapply broadcast_open in Hx.
Qed.

(** The first player's socket closes; the roster goes to the second only. *)
Lemma sends_reach_open_sockets_witness :
  (1%nat, player_list [mkEntry "p1" "bob" (Some "green") true]).1
  ∉ closedWs (after (two_players_ready ++ [Close 0])).
Proof.
  apply (sends_reach_open_sockets (after two_players_ready) (Close 0)
           (after (two_players_ready ++ [Close 0]))
           [(1%nat, player_list [mkEntry "p1" "bob" (Some "green") true])]).
  - vm_compute. intros H. discriminate H.
  - vm_compute. reflexivity.
  - apply list_elem_of_here.
Defined.

(** ** The handlers return *)

Lemma handleJoin_returns s w rid nm col newId :
  good s → is_Some (handleJoin s w rid nm col newId).
Proof.
  intros Hg. unfold handleJoin.
  destruct (getRoom s rid) as [s1 ra] eqn:Hget.
  destruct (getRoom_good s rid s1 ra Hg Hget) as (_ & [room Hroom] & _).
  rewrite Hroom, bind_Some_eq. destruct (gameStarted room); eauto.
Qed.

Lemma conn_lookups s w ra pa :
  good s →
  currentRoom (connOf s w) = Some ra → currentPlayer (connOf s w) = Some pa →
  is_Some (roomObjs s !! ra) ∧ is_Some (playerObjs s !! pa).
Proof.
  intros Hg Hra Hpa. destruct (connOf_ok s w Hg) as [H1 H2].
  split; apply lookup_lt_is_Some; auto.
Qed.

Lemma handleReady_returns s w : good s → is_Some (handleReady s w).
Proof.
  intros Hg. unfold handleReady.
  destruct (currentRoom (connOf s w)) as [ra|] eqn:Hra; [|eauto].
  destruct (currentPlayer (connOf s w)) as [pa|] eqn:Hpa; [|eauto].
  destruct (conn_lookups s w ra pa Hg Hra Hpa) as [[room Hroom] [me Hme]].
  rewrite Hme, bind_Some_eq. cbv zeta. simpl. rewrite Hroom. simpl. eauto.
Qed.

Lemma handleStart_returns s w : good s → is_Some (handleStart s w).
Proof.
  intros Hg. unfold handleStart.
  destruct (currentRoom (connOf s w)) as [ra|] eqn:Hra; [|eauto].
  destruct (currentPlayer (connOf s w)) as [pa|] eqn:Hpa; [|eauto].
  destruct (conn_lookups s w ra pa Hg Hra Hpa) as [[room Hroom] _].
  rewrite Hroom, bind_Some_eq.
  destruct (room_ok_lookup s ra room Hg Hroom) as (_ & Haddr & _).
  destruct (gameStarted room); [eauto|].
  destruct (Nat.ltb_spec (length (players room)) 2); [eauto|].
  destruct (negb _); [eauto|]. cbv zeta.
  destruct (playerAt_in_range (playerObjs s) room 0) as [first Hfirst];
    [exact Haddr|lia|].
  change (playerAt (playerObjs (setRoomObjs s _)) _ 0)
    with (playerAt (playerObjs s) room 0).
  rewrite Hfirst, bind_Some_eq. eauto.
Qed.

Lemma handleRoll_returns s w die :
  good s →
  (∀ ra room, currentRoom (connOf s w) = Some ra →
              is_Some (currentPlayer (connOf s w)) →
              roomObjs s !! ra = Some room → players room ≠ []) →
  is_Some (handleRoll s w die).
Proof.
  intros Hg Hseat. unfold handleRoll.
  destruct (currentRoom (connOf s w)) as [ra|] eqn:Hra; [|eauto].
  destruct (currentPlayer (connOf s w)) as [pa|] eqn:Hpa; [|eauto].
  destruct (conn_lookups s w ra pa Hg Hra Hpa) as [[room Hroom] [me Hme]].
  rewrite Hroom, bind_Some_eq, Hme, bind_Some_eq.
  destruct (room_ok_lookup s ra room Hg Hroom) as (Ht & Ha & Hroll).
  specialize (Hseat ra room eq_refl (mk_is_Some _ _ eq_refl) Hroom).
  assert (Hlen : (0 < length (players room))%nat).
  { destruct (players room); [done|simpl; lia]. }
  destruct (playerAt_in_range (playerObjs s) room (turnIndex room))
    as [cur Hcur]; [exact Ha|lia|].
  rewrite Hcur, bind_Some_eq.
  destruct (negb _); [eauto|]. cbv zeta.
  set (moves := computeMovableTokens _ me die).
  set (room3 := if (die =? 6) && _ then _ else _).
  assert (H3 : players room3 = players room ∧ turnIndex room3 = turnIndex room).
  { subst room3. by destruct (_ && _). }
  destruct H3 as [Hp3 Ht3].
  destruct (_ || _); [|eauto].
  destruct (nextTurn_total (playerObjs s) room3) as [room4 Hn].
  { unfold addrs_in. by rewrite Hp3. }
  { lia. }
  rewrite Hn, bind_Some_eq.
  assert (H4 : players room4 = players room ∧
               0 <= turnIndex room4 < Z.of_nat (length (players room))).
  { apply nextTurn_cases in Hn as [->|(j & -> & Hj)]; simpl; rewrite ?Hp3 in *;
      split; try done; lia. }
  destruct H4 as [Hp4 Ht4].
  destruct (playerAt_in_range (playerObjs s) room4 (turnIndex room4))
    as [next Hnext].
  { unfold addrs_in. by rewrite Hp4. }
  { by rewrite Hp4. }
  rewrite Hnext, bind_Some_eq. eauto.
Qed.

Lemma handleMove_returns s w tokenIndex :
  good s →
  (∀ ra room, currentRoom (connOf s w) = Some ra →
              is_Some (currentPlayer (connOf s w)) →
              roomObjs s !! ra = Some room → players room ≠ []) →
  is_Some (handleMove s w tokenIndex).
Proof.
  intros Hg Hseat. unfold handleMove.
  destruct (currentRoom (connOf s w)) as [ra|] eqn:Hra; [|eauto].
  destruct (currentPlayer (connOf s w)) as [pa|] eqn:Hpa; [|eauto].
  destruct (conn_lookups s w ra pa Hg Hra Hpa) as [[room Hroom] [me Hme]].
  rewrite Hroom, bind_Some_eq, Hme, bind_Some_eq.
  destruct (room_ok_lookup s ra room Hg Hroom) as (Ht & Ha & Hroll).
  specialize (Hseat ra room eq_refl (mk_is_Some _ _ eq_refl) Hroom).
  assert (Hlen : (0 < length (players room))%nat).
  { destruct (players room); [done|simpl; lia]. }
  destruct (playerAt_in_range (playerObjs s) room (turnIndex room))
    as [cur Hcur]; [exact Ha|lia|].
  rewrite Hcur, bind_Some_eq.
  destruct (negb (String.eqb _ _)); [eauto|]. cbv zeta.
  destruct (bool_decide_reflect
              (tokenIndex ∈ computeMovableTokens room me (currentRoll room)))
    as [Hmov|]; cbn [negb]; [|eauto].
  destruct (movable_index _ _ _ _ Hmov) as [pos Hpos].
  destruct (performMove_returns (playerObjs s) room pa tokenIndex
              (currentRoll room) me pos Hme Hpos)
    as (objs1 & result & Hpm & Hme1 & _).
  pose proof (performMove_length _ _ _ _ _ _ _ Hpm) as Hlen1.
  assert (Ha1 : addrs_in objs1 room).
  { unfold addrs_in. by rewrite Hlen1. }
  rewrite Hpm, bind_Some_eq. cbv beta iota.
  rewrite Hme1, bind_Some_eq.
  set (extra := _ || _ || _).
  destruct extra.
  - rewrite bind_Some_eq.
    destruct (playerAt_in_range objs1 (setCurrentRoll room 0) (turnIndex room))
      as [next Hnext]; [exact Ha1|simpl; lia|].
    cbn [turnIndex setCurrentRoll]. rewrite Hnext, bind_Some_eq. eauto.
  - destruct (nextTurn_total objs1 (setConsecutiveSixes room 0))
      as [room1 Hn]; [exact Ha1|simpl; lia|].
    rewrite Hn, bind_Some_eq.
    assert (H1 : players room1 = players room ∧
                 0 <= turnIndex room1 < Z.of_nat (length (players room))).
    { apply nextTurn_cases in Hn as [->|(j & -> & Hj)]; simpl;
        split; try done; lia. }
    destruct H1 as (Hp1 & Ht1).
    destruct (playerAt_in_range objs1 (setCurrentRoll room1 0) (turnIndex room1))
      as [next Hnext].
    { unfold addrs_in. simpl. rewrite Hp1. exact Ha1. }
    { simpl. by rewrite Hp1. }
    cbn [turnIndex setCurrentRoll]. rewrite Hnext, bind_Some_eq. eauto.
Qed.

Lemma onClose_returns s w : good s → is_Some (onClose s w).
Proof.
  intros Hg. unfold onClose.
  destruct (currentRoom (connOf s w)) as [ra|] eqn:Hra; [|eauto].
  destruct (currentPlayer (connOf s w)) as [pa|] eqn:Hpa; [|eauto].
  destruct (conn_lookups s w ra pa Hg Hra Hpa) as [[room Hroom] [me Hme]].
  simpl. rewrite Hroom, bind_Some_eq, Hme, bind_Some_eq.
  match goal with |- is_Some (if ?b then _ else _) => destruct b end; eauto.
Qed.

(** ** With fresh ids, every player keeps a seat *)

Lemma performMove_ids objs room pa tokenIndex roll objs' res :
  performMove objs room pa tokenIndex roll = Some (objs', res) →
  map playerId objs' = map playerId objs.
Proof.
  intros Hpm. pose proof (performMove_length _ _ _ _ _ _ _ Hpm) as Hlen.
  apply list_eq. intros a.
  change (map playerId objs') with (playerId <$> objs').
  change (map playerId objs) with (playerId <$> objs).
  rewrite !list_lookup_fmap.
  destruct (objs !! a) as [p|] eqn:Hp.
  - destruct (performMove_same_player _ _ _ _ _ _ _ a p Hpm Hp)
      as (p' & -> & Hid & _). simpl. by rewrite Hid.
  - apply lookup_ge_None in Hp.
    rewrite (proj2 (lookup_ge_None objs' a)) by lia. done.
Qed.

Lemma step_ids s e s' out :
  good s → step s e = Some (s', out) →
  map playerId (playerObjs s') = map playerId (playerObjs s)
  ∨ ∃ w rid nm col newId die,
      e = Message w (Join rid nm col) newId die ∧
      map playerId (playerObjs s') = map playerId (playerObjs s) ++ [newId].
Proof.
  intros Hg Hstep.
  destruct (step_playerObjs s e s' out Hg Hstep)
    as [->|[(w & rid & nm & col & newId & die & q & He & -> & Hid & _)|
       [(pa & q & Hq & ->)|
        (ra & pa & room & me & ti & res & _ & _ & _ & _ & Hpm)]]].
  - by left.
  - right. exists w, rid, nm, col, newId, die. split; [done|].
    rewrite map_app. simpl. by rewrite Hid.
  - left. apply list_eq. intros a.
    change (map playerId ?l) with (playerId <$> l).
    rewrite !list_lookup_fmap.
    destruct (decide (a = pa)) as [->|Hne].
    + rewrite list_lookup_insert_eq by (by eapply lookup_lt_Some).
      by rewrite Hq.
    + by rewrite list_lookup_insert_ne.
  - left. by eapply performMove_ids.
Qed.

Lemma seats_insert (l : list Room) ra0 room0 r2 :
  l !! ra0 = Some room0 → players r2 = players room0 →
  roomId r2 = roomId room0 → seats (<[ra0 := r2]> l) = seats l.
Proof.
  intros H0 Hp Hi. unfold seats. rewrite list_fmap_insert.
  apply list_insert_id. rewrite list_lookup_fmap, H0. simpl.
  by rewrite Hp, Hi.
Qed.

Lemma seats_lookup (l l' : list Room) ra r :
  seats l' = seats l → l !! ra = Some r →
  ∃ r', l' !! ra = Some r' ∧ players r' = players r ∧ roomId r' = roomId r.
Proof.
  intros Hs Hr. assert (H : seats l' !! ra = seats l !! ra) by (by rewrite Hs).
  unfold seats in H. rewrite !list_lookup_fmap, Hr in H. simpl in H.
  destruct (l' !! ra) as [r'|]; [|done]. simpl in H.
  injection H as Hi Hp. eauto.
Qed.

(** Ready, start, roll and move leave the registry, the connections, the
    closed sockets and the id and roster of every room as they are. *)
Lemma quiet_step s w data newId die s' out :
  (∀ rid nm col, data ≠ Join rid nm col) →
  onMessage s w data newId die = Some (s', out) →
  rooms s' = rooms s ∧ conns s' = conns s ∧ closedWs s' = closedWs s ∧
  seats (roomObjs s') = seats (roomObjs s).
Proof.
  intros Hdata.
  destruct data as [rid nm col| | | |tokenIndex]; simpl.
  - by destruct (Hdata rid nm col).
  - unfold handleReady.
    destruct (currentRoom (connOf s w)) as [ra|]; [|by intros [= <- <-]].
    destruct (currentPlayer (connOf s w)) as [pa|]; [|by intros [= <- <-]].
    destruct (playerObjs s !! pa) as [player|]; [|done]. simpl.
    destruct (roomObjs s !! ra) as [room|]; [|done]. simpl.
    by intros [= <- <-].
  - unfold handleStart.
    destruct (currentRoom (connOf s w)) as [ra|]; [|by intros [= <- <-]].
    destruct (currentPlayer (connOf s w)) as [pa|]; [|by intros [= <- <-]].
    destruct (roomObjs s !! ra) as [room|] eqn:Hroom; [|done]. simpl.
    destruct (gameStarted room); [by intros [= <- <-]|].
    destruct (length (players room) <? 2)%nat; [by intros [= <- <-]|].
    destruct (negb _); [by intros [= <- <-]|].
    destruct (playerAt _ _ 0); [|done]. simpl.
    intros [= <- <-]. simpl. repeat split; try done.
    by eapply seats_insert.
  - unfold handleRoll.
    destruct (currentRoom (connOf s w)) as [ra|]; [|by intros [= <- <-]].
    destruct (currentPlayer (connOf s w)) as [pa|]; [|by intros [= <- <-]].
    destruct (roomObjs s !! ra) as [room|] eqn:Hroom; [|done]. simpl.
    destruct (playerObjs s !! pa) as [me|]; [|done]. simpl.
    destruct (playerAt _ _ _) as [cur|]; [|done]. simpl.
    destruct (negb _); [by intros [= <- <-]|].
    set (room3 := if (die =? 6) && _ then _ else _).
    assert (Hp3 : players room3 = players room ∧ roomId room3 = roomId room).
    { subst room3. by destruct (_ && _). }
    destruct Hp3 as [Hp3 Hi3].
    destruct (_ || _).
    + destruct (nextTurn (playerObjs s) room3) as [room4|] eqn:Hn; [|done].
      simpl. destruct (playerAt _ room4 _); [|done]. simpl.
      intros [= <- <-]. simpl. repeat split; try done.
      eapply seats_insert; [exact Hroom| |];
        apply nextTurn_cases in Hn as [->|(j & -> & _)]; by simpl.
    + intros [= <- <-]. simpl. repeat split; try done.
      by eapply seats_insert.
  - unfold handleMove.
    destruct (currentRoom (connOf s w)) as [ra|]; [|by intros [= <- <-]].
    destruct (currentPlayer (connOf s w)) as [pa|]; [|by intros [= <- <-]].
    destruct (roomObjs s !! ra) as [room|] eqn:Hroom; [|done]. simpl.
    destruct (playerObjs s !! pa) as [me|]; [|done]. simpl.
    destruct (playerAt _ _ _) as [cur|]; [|done]. simpl.
    destruct (negb (String.eqb _ _)); [by intros [= <- <-]|].
    destruct (negb (bool_decide _)); [by intros [= <- <-]|].
    destruct (performMove _ _ _ _ _) as [[objs1 result]|]; [|done]. simpl.
    destruct (objs1 !! pa) as [me1|]; [|done]. simpl.
    set (extra := _ || _ || _).
    destruct extra.
    + simpl. destruct (playerAt _ _ _); [|done]. simpl.
      intros [= <- <-]. simpl. repeat split; try done.
      by eapply seats_insert.
    + destruct (nextTurn _ _) as [room1|] eqn:Hn; [|done]. simpl.
      destruct (playerAt _ _ _); [|done]. simpl.
      intros [= <- <-]. simpl. repeat split; try done.
      eapply seats_insert; [exact Hroom| |];
        apply nextTurn_cases in Hn as [->|(j & -> & _)]; by simpl.
Qed.

Lemma seated_initial : seated initial.
Proof.
  split; simpl.
  - constructor.
  - intros w w' c c' pa H. by rewrite lookup_empty in H.
  - intros w c ra pa H. by rewrite lookup_empty in H.
Qed.

Lemma seated_quiet s s' :
  seated s →
  map playerId (playerObjs s') = map playerId (playerObjs s) →
  conns s' = conns s → closedWs s' = closedWs s →
  seats (roomObjs s') = seats (roomObjs s) →
  seated s'.
Proof.
  intros [H1 H2 H3] Hids Hconns Hclosed Hrooms. split.
  - by rewrite Hids.
  - rewrite Hconns. exact H2.
  - rewrite Hconns, Hclosed. intros w c ra pa Hc Hw Hra Hpa.
    destruct (H3 w c ra pa Hc Hw Hra Hpa) as (room & Hroom & Hin).
    destruct (seats_lookup _ _ ra room Hrooms Hroom) as (room' & Hroom' & Hp & _).
    exists room'. split; [done|]. by rewrite Hp.
Qed.

Lemma getRoom_keeps s rid :
  playerObjs (getRoom s rid).1 = playerObjs s ∧
  conns (getRoom s rid).1 = conns s ∧
  closedWs (getRoom s rid).1 = closedWs s ∧
  ∀ a r, roomObjs s !! a = Some r → roomObjs (getRoom s rid).1 !! a = Some r.
Proof.
  unfold getRoom. destruct (rooms s !! rid); simpl; repeat split; try done.
  intros a r Ha. by apply lookup_app_l_Some.
Qed.

Lemma handleJoin_seated s w rid nm col newId s' out :
  good s → seated s → newId ∉ map playerId (playerObjs s) →
  handleJoin s w rid nm col newId = Some (s', out) → seated s'.
Proof.
  intros Hg Hs Hfresh. unfold handleJoin.
  destruct (getRoom_keeps s rid) as (Hobjs & Hconns & Hclosed & Hkeep).
  destruct (getRoom s rid) as [s1 ra] eqn:Hget. simpl in *.
  destruct (getRoom_good s rid s1 ra Hg Hget) as (Hg1 & [room Hroom] & _).
  rewrite Hroom, bind_Some_eq.
  assert (Hs1 : seated s1).
  { destruct Hs as [H1 H2 H3]. split.
    - by rewrite Hobjs.
    - by rewrite Hconns.
    - rewrite Hconns, Hclosed. intros w1 c1 ra1 pa1 Hc1 Hw1 Hra1 Hpa1.
      destruct (H3 w1 c1 ra1 pa1 Hc1 Hw1 Hra1 Hpa1) as (r & Hr & Hin).
      exists r. split; [by apply Hkeep|done]. }
  destruct (gameStarted room); intros [= <- <-]; [done|].
  destruct Hs1 as [H1 H2 H3].
  pose proof (lookup_lt_Some _ _ _ Hroom) as Hra.
  split; simpl.
  - rewrite map_app. simpl. apply NoDup_app. split; [done|]. split.
    + intros x Hx Hx'. apply list_elem_of_singleton in Hx' as ->.
      by rewrite Hobjs in Hx.
    + apply NoDup_singleton.
  - assert (Hold : ∀ w' c', conns s1 !! w' = Some c' →
                     currentPlayer c' ≠ Some (length (playerObjs s1))).
    { intros w' c' Hc' Hp. destruct (good_conns s1 Hg1 w' c' Hc') as [_ Hlt].
      specialize (Hlt _ Hp). lia. }
    intros w1 w2 c1 c2 pa0 Hc1 Hc2 Hp1 Hp2.
    destruct (decide (w1 = w)) as [->|Hn1]; destruct (decide (w2 = w)) as [->|Hn2];
      try done.
    + rewrite lookup_insert_eq in Hc1. injection Hc1 as <-. simpl in Hp1.
      rewrite lookup_insert_ne in Hc2 by done. injection Hp1 as <-.
      by destruct (Hold w2 c2 Hc2).
    + rewrite lookup_insert_eq in Hc2. injection Hc2 as <-. simpl in Hp2.
      rewrite lookup_insert_ne in Hc1 by done. injection Hp2 as <-.
      by destruct (Hold w1 c1 Hc1).
    + rewrite lookup_insert_ne in Hc1, Hc2 by done. by eapply H2.
  - intros w1 c1 ra1 pa1 Hc1 Hw1 Hra1 Hpa1.
    destruct (decide (w1 = w)) as [->|Hn1].
    + rewrite lookup_insert_eq in Hc1. injection Hc1 as <-. simpl in *.
      injection Hra1 as <-. injection Hpa1 as <-.
      eexists. split; [by apply list_lookup_insert_eq|]. simpl.
      apply elem_of_app. right. apply list_elem_of_here.
    + rewrite lookup_insert_ne in Hc1 by done.
      destruct (H3 w1 c1 ra1 pa1 Hc1 Hw1 Hra1 Hpa1) as (room0 & Hroom0 & Hin).
      destruct (decide (ra1 = ra)) as [->|Hne].
      * eexists. split; [by apply list_lookup_insert_eq|]. simpl.
        apply elem_of_app. left. congruence.
      * exists room0. by rewrite list_lookup_insert_ne.
Qed.

Lemma connOf_Some s w pa :
  currentPlayer (connOf s w) = Some pa → conns s !! w = Some (connOf s w).
Proof. unfold connOf. by destruct (conns s !! w). Qed.

Lemma onClose_seated s w s' out :
  good s → seated s → onClose s w = Some (s', out) → seated s'.
Proof.
  intros Hg [H1 H2 H3]. unfold onClose.
  assert (H0 : seated (mkServer (rooms s) (roomObjs s) (playerObjs s) (conns s)
                         ({[w]} ∪ closedWs s))).
  { split; simpl; try done. intros w1 c1 ra1 pa1 Hc1 Hw1.
    apply (H3 w1 c1 ra1 pa1 Hc1). set_solver. }
  destruct (currentRoom (connOf s w)) as [ra|] eqn:Hra; [|by intros [= <- <-]].
  destruct (currentPlayer (connOf s w)) as [pa|] eqn:Hpa; [|by intros [= <- <-]].
  simpl.
  destruct (roomObjs s !! ra) as [room|] eqn:Hroom; [|done]. simpl.
  destruct (playerObjs s !! pa) as [me|] eqn:Hme; [|done]. simpl.
  pose proof (connOf_Some s w pa Hpa) as Hcw.
  set (l1 := List.filter _ (players room)).
  assert (Hstay : ∀ w1 c1 pa1, conns s !! w1 = Some c1 → w1 ≠ w →
            currentPlayer c1 = Some pa1 → pa1 ∈ players room → pa1 ∈ l1).
  { intros w1 c1 pa1 Hc1 Hne Hp1 Hin. subst l1.
    apply list_elem_of_In, filter_In. split; [by apply list_elem_of_In|].
    destruct (playerObjs s !! pa1) as [p1|] eqn:Hp; [|done].
    apply negb_true_iff, String.eqb_neq. intros Hid. destruct Hne.
    apply (H2 w1 w c1 (connOf s w) pa1); try done.
    rewrite Hpa. f_equal.
    apply (NoDup_lookup (map playerId (playerObjs s)) pa pa1 (playerId me));
      [done| |];
      change (map playerId ?l) with (playerId <$> l);
      rewrite list_lookup_fmap.
    - by rewrite Hme.
    - rewrite Hp. simpl. by rewrite Hid. }
  set (room2 := if _ <=? _ then _ else _).
  assert (Hp2 : players room2 = l1).
  { subst room2. by destruct (_ <=? _). }
  assert (Hs1 : seated (mkServer (rooms s) (<[ra := room2]> (roomObjs s))
                          (playerObjs s) (conns s) ({[w]} ∪ closedWs s))).
  { split; simpl; try done. intros w1 c1 ra1 pa1 Hc1 Hw1 Hra1 Hpa1.
    assert (w1 ≠ w ∧ w1 ∉ closedWs s) as [Hne Hopen] by set_solver.
    destruct (H3 w1 c1 ra1 pa1 Hc1 Hopen Hra1 Hpa1) as (room0 & Hroom0 & Hin).
    destruct (decide (ra1 = ra)) as [->|Hner].
    - exists room2.
      split; [apply list_lookup_insert_eq; by eapply lookup_lt_Some|].
      rewrite Hp2. apply (Hstay w1 c1 pa1); try done. congruence.
    - exists room0. by rewrite list_lookup_insert_ne. }
  destruct (length (players room2) =? 0)%nat; intros [= <- <-]; [|done].
  destruct Hs1 as [? ? ?]. by split.
Qed.

Lemma step_seated s e s' out :
  good s → seated s → enabled s e → fresh_id s e →
  step s e = Some (s', out) → seated s'.
Proof.
  intros Hg Hs He Hf Hstep.
  destruct e as [w data newId die|w]; simpl in Hstep; [|by eapply onClose_seated].
  destruct data as [rid nm col| | | |tokenIndex];
    [by eapply handleJoin_seated|..].
  all: destruct (step_ids s (Message w _ newId die) s' out Hg Hstep)
         as [Hids|(? & ? & ? & ? & ? & ? & [=] & _)].
  all: apply quiet_step in Hstep as (_ & Hc & Hcl & Hrooms); [|done].
  all: by apply (seated_quiet s).
Qed.

Lemma reachable_fresh_reachable s : reachable_fresh s → reachable s.
Proof.
  induction 1 as [|s e s' out _ IH He _ Hs]; [apply reach_initial|].
  by eapply reach_step.
Qed.

Lemma reachable_fresh_seated s : reachable_fresh s → seated s.
Proof.
  induction 1 as [|s e s' out Hr IH He Hf Hs]; [apply seated_initial|].
  eapply step_seated; try done.
  by apply reachable_good, reachable_fresh_reachable.
Qed.

Lemma fresh_idb_fresh s e : fresh_idb s e = true → fresh_id s e.
Proof.
  destruct e as [w [rid nm col| | | |ti] newId die|w]; simpl; try done.
  intros H. by apply negb_true_iff, bool_decide_eq_false in H.
Defined.

Lemma play_reachable_fresh es : ∀ s s',
  reachable_fresh s → fresh_run s es = true → play s es = Some s' →
  reachable_fresh s'.
Proof.
  induction es as [|e es IH]; intros s s' Hr; simpl.
  - by intros _ [= <-].
  - destruct (fresh_idb s e) eqn:Hf; [|done]. simpl.
    destruct (enabledb s e) eqn:He; [|done].
    destruct (step s e) as [[s1 out1]|] eqn:Hs; [|done]. simpl.
    apply IH. eapply fresh_step; [exact Hr|by apply enabledb_enabled| |exact Hs].
    by apply fresh_idb_fresh.
Defined.

Lemma after_reachable_fresh es :
  fresh_run initial es = true → is_Some (play initial es) →
  reachable_fresh (after es).
Proof.
  intros Hf [s Hs]. unfold after. rewrite Hs. simpl.
  eapply play_reachable_fresh; [apply fresh_initial|exact Hf|exact Hs].
Defined.

(** As long as the ids [makeId()] hands out are fresh, no handler throws:
    from every state reached this way, every join, ready, start, roll or
    move request on an open socket (a [Request]: an object with fields of
    the expected types) and every close is handled to the end. *)
Theorem server_never_throws s e :
  reachable_fresh s → enabled s e → is_Some (step s e).
Proof.
  intros Hr He.
  pose proof (reachable_good s (reachable_fresh_reachable s Hr)) as Hg.
  destruct (reachable_fresh_seated s Hr) as [_ _ Hseat].
  destruct e as [w data newId die|w]; simpl; [|by apply onClose_returns].
  destruct He as [Hw _].
  assert (Hne : ∀ ra room, currentRoom (connOf s w) = Some ra →
            is_Some (currentPlayer (connOf s w)) →
            roomObjs s !! ra = Some room → players room ≠ []).
  { intros ra room Hra [pa Hpa] Hroom E.
    destruct (Hseat w (connOf s w) ra pa (connOf_Some s w pa Hpa) Hw Hra Hpa)
      as (room0 & Hroom0 & Hin).
    assert (room0 = room) as -> by congruence.
    rewrite E in Hin. by apply elem_of_nil in Hin. }
  destruct data as [rid nm col| | | |tokenIndex]; simpl.
  - by apply handleJoin_returns.
  - by apply handleReady_returns.
  - by apply handleStart_returns.
  - by apply handleRoll_returns.
  - by apply handleMove_returns.
Qed.

(** After two sixes, the first player's third roll is handled. *)
Lemma server_never_throws_witness :
  is_Some (step (after two_sixes) (Message 0 Roll "" 6)).
Proof.
  apply (server_never_throws (after two_sixes) (Message 0 Roll "" 6)).
  - apply after_reachable_fresh; [vm_compute; reflexivity|vm_compute; eauto].
  - apply enabledb_enabled. vm_compute. reflexivity.
Defined.

(** The freshness of the ids is needed: when [makeId()] repeats an id, the
    close of one socket removes both players, and the roll of the other
    reads [players[0].id] of an empty roster. *)
Example repeated_id_throws :
  reachable (after colliding_ids) ∧
  enabled (after colliding_ids) (Message 1 Roll "" 4) ∧
  step (after colliding_ids) (Message 1 Roll "" 4) = None.
Proof.
  split; [apply after_reachable; vm_compute; eauto|].
  split; [apply enabledb_enabled; vm_compute; reflexivity|].
  vm_compute. reflexivity.
Qed.

(** ** Departures *)

Lemma filter_by_id objs (l : list nat) pa me :
  NoDup (map playerId objs) → objs !! pa = Some me →
  Forall (λ a, (a < length objs)%nat) l →
  List.filter
    (λ a, match objs !! a with
          | Some p => negb (String.eqb (playerId p) (playerId me))
          | None => true
          end) l
  = List.filter (λ a, negb (a =? pa)%nat) l.
Proof.
  intros Hnd Hme Hl. apply filter_ext_in. intros a Ha.
  apply list_elem_of_In in Ha.
  eapply Forall_forall in Hl; [|exact Ha].
  destruct (lookup_lt_is_Some_2 objs a Hl) as [p Hp]. rewrite Hp. f_equal.
  destruct (Nat.eqb_spec a pa) as [->|Hne].
  - assert (p = me) as -> by congruence. apply String.eqb_refl.
  - apply String.eqb_neq. intros Hid. destruct Hne.
    apply (NoDup_lookup (map playerId objs) a pa (playerId me)); [done| |];
      change (map playerId ?l) with (playerId <$> l);
      rewrite list_lookup_fmap.
    + rewrite Hp. simpl. by rewrite Hid.
    + by rewrite Hme.
Qed.

(** A socket that has joined closes, in a run with fresh ids.  Its player
    was in the roster of its room and is taken out of it; the others stay,
    in their order.  The turn index is kept unless it now points past the
    end, in which case it becomes 0; the roll, the six streak and the
    started flag are kept, so a started game goes on.  The room leaves the
    registry when nobody is left.  Only [player_list] is sent, to the open
    sockets of those who stay: no [turn], even when the turn has changed
    hands. *)
Theorem close_removes_the_sender s w ra pa room :
  reachable_fresh s → w ∉ closedWs s →
  currentRoom (connOf s w) = Some ra →
  currentPlayer (connOf s w) = Some pa →
  roomObjs s !! ra = Some room →
  ∃ s' room' out,
    onClose s w = Some (s', out) ∧
    pa ∈ players room ∧
    players room' = List.filter (λ a, negb (a =? pa)%nat) (players room) ∧
    turnIndex room' =
      (if Z.of_nat (length (players room')) <=? turnIndex room
       then 0 else turnIndex room) ∧
    roomId room' = roomId room ∧
    currentRoll room' = currentRoll room ∧
    consecutiveSixes room' = consecutiveSixes room ∧
    gameStarted room' = gameStarted room ∧
    roomObjs s' = <[ra := room']> (roomObjs s) ∧
    playerObjs s' = playerObjs s ∧
    conns s' = conns s ∧
    closedWs s' = {[w]} ∪ closedWs s ∧
    rooms s' = (if decide (players room' = [])
                then delete (roomId room) (rooms s) else rooms s) ∧
    out = broadcast s' room' (player_list (snapshot (playerObjs s) room')).
Proof.
  intros Hr Hw Hra Hpa Hroom.
  pose proof (reachable_good s (reachable_fresh_reachable s Hr)) as Hg.
  destruct (reachable_fresh_seated s Hr) as [Hids _ Hseat].
  destruct (Hseat w (connOf s w) ra pa (connOf_Some s w pa Hpa) Hw Hra Hpa)
    as (room0 & Hroom0 & Hin).
  assert (room0 = room) as -> by congruence.
  destruct (conn_lookups s w ra pa Hg Hra Hpa) as [_ [me Hme]].
  destruct (room_ok_lookup s ra room Hg Hroom) as (_ & Haddr & _).
  unfold onClose. rewrite Hra, Hpa. simpl.
  rewrite Hroom, bind_Some_eq, Hme, bind_Some_eq.
  rewrite (filter_by_id (playerObjs s) (players room) pa me Hids Hme Haddr).
  set (l1 := List.filter _ (players room)).
  pose (room' := mkRoom (roomId room) l1
                   (if Z.of_nat (length l1) <=? turnIndex room
                    then 0 else turnIndex room)
                   (currentRoll room) (consecutiveSixes room)
                   (gameStarted room)).
  pose (s' := mkServer
                (if decide (l1 = [])
                 then delete (roomId room) (rooms s) else rooms s)
                (<[ra := room']> (roomObjs s)) (playerObjs s) (conns s)
                ({[w]} ∪ closedWs s)).
  exists s', room',
    (broadcast s' room' (player_list (snapshot (playerObjs s) room'))).
  split; [|by repeat split].
  subst s' room'. simpl.
  destruct (Z.of_nat (length l1) <=? turnIndex room); by destruct l1.
Qed.

(** Two players are ready in room "A"; the first one's socket closes. *)
Lemma close_removes_the_sender_witness :
  ∃ s' room' out,
    onClose (after two_players_ready) 0 = Some (s', out) ∧
    0%nat ∈ players (roomAt (after two_players_ready) 0) ∧
    players room' =
      List.filter (λ a, negb (a =? 0)%nat)
        (players (roomAt (after two_players_ready) 0)) ∧
    turnIndex room' =
      (if Z.of_nat (length (players room'))
          <=? turnIndex (roomAt (after two_players_ready) 0)
       then 0 else turnIndex (roomAt (after two_players_ready) 0)) ∧
    roomId room' = roomId (roomAt (after two_players_ready) 0) ∧
    currentRoll room' = currentRoll (roomAt (after two_players_ready) 0) ∧
    consecutiveSixes room'
      = consecutiveSixes (roomAt (after two_players_ready) 0) ∧
    gameStarted room' = gameStarted (roomAt (after two_players_ready) 0) ∧
    roomObjs s' = <[0%nat := room']> (roomObjs (after two_players_ready)) ∧
    playerObjs s' = playerObjs (after two_players_ready) ∧
    conns s' = conns (after two_players_ready) ∧
    closedWs s' = {[0%nat]} ∪ closedWs (after two_players_ready) ∧
    rooms s' = (if decide (players room' = [])
                then delete (roomId (roomAt (after two_players_ready) 0))
                       (rooms (after two_players_ready))
                else rooms (after two_players_ready)) ∧
    out = broadcast s' room'
            (player_list (snapshot (playerObjs (after two_players_ready)) room')).
Proof.
  apply (close_removes_the_sender (after two_players_ready) 0 0 0
           (roomAt (after two_players_ready) 0)).
  - apply after_reachable_fresh; [vm_compute; reflexivity|vm_compute; eauto].
  - vm_compute. intros H. discriminate H.
  - vm_compute. reflexivity.
  - vm_compute. reflexivity.
  - vm_compute. reflexivity.
Defined.

(** ** The registry *)

Lemma live_initial : live_registry initial.
Proof.
  split; simpl.
  - intros rid ra H. by rewrite lookup_empty in H.
  - intros ra r H. by rewrite lookup_nil in H.
Qed.

Lemma live_quiet s s' :
  live_registry s → rooms s' = rooms s →
  seats (roomObjs s') = seats (roomObjs s) → live_registry s'.
Proof.
  intros [H1 H2] Hrooms Hseats. split.
  - intros rid ra Hreg. rewrite Hrooms in Hreg.
    destruct (H1 rid ra Hreg) as (r & Hr & Hi & Hp).
    destruct (seats_lookup _ _ ra r Hseats Hr) as (r' & Hr' & Hp' & Hi').
    exists r'. split; [done|]. split; congruence.
  - intros ra r' Hr' Hne. rewrite Hrooms.
    destruct (seats_lookup _ _ ra r' (eq_sym Hseats) Hr') as (r & Hr & Hp & Hi).
    rewrite <- Hi. apply H2; [done|]. congruence.
Qed.

Lemma live_insert (rms : gmap string nat) (l : list Room) ra r0 r2 s' :
  l !! ra = Some r0 → roomId r2 = roomId r0 → players r2 ≠ [] →
  rms !! roomId r0 = Some ra →
  (∀ rid ra', rms !! rid = Some ra' → ra' ≠ ra →
     ∃ r, l !! ra' = Some r ∧ roomId r = rid ∧ players r ≠ []) →
  (∀ rid, rms !! rid = Some ra → rid = roomId r0) →
  (∀ ra' r, l !! ra' = Some r → ra' ≠ ra → players r ≠ [] →
     rms !! roomId r = Some ra') →
  rooms s' = rms → roomObjs s' = <[ra := r2]> l → live_registry s'.
Proof.
  intros H0 Hi Hp Hreg Hothers Honly Hback Hrms Hobjs.
  pose proof (lookup_lt_Some _ _ _ H0) as Hlt.
  unfold live_registry. rewrite Hrms, Hobjs. split.
  - intros rid ra' Hr. destruct (decide (ra' = ra)) as [->|Hne].
    + exists r2. rewrite list_lookup_insert_eq by done.
      split; [done|]. split; [|done]. rewrite Hi. symmetry. by apply Honly.
    + rewrite list_lookup_insert_ne by done. by apply Hothers.
  - intros ra' r Hr Hnonempty. destruct (decide (ra' = ra)) as [->|Hne].
    + rewrite list_lookup_insert_eq in Hr by done. injection Hr as <-.
      by rewrite Hi.
    + rewrite list_lookup_insert_ne in Hr by done. by apply Hback.
Qed.

Lemma handleJoin_live s w rid nm col newId s' out :
  good s → live_registry s →
  handleJoin s w rid nm col newId = Some (s', out) → live_registry s'.
Proof.
  intros Hg [H1 H2]. unfold handleJoin, getRoom.
  destruct (rooms s !! rid) as [ra|] eqn:Hreg.
  - destruct (H1 rid ra Hreg) as (room & Hroom & Hi & Hp).
    rewrite Hroom, bind_Some_eq.
    destruct (gameStarted room); intros [= <- <-]; [by split|].
    eapply (live_insert (rooms s) (roomObjs s) ra room
              (setPlayers room (players room ++ [length (playerObjs s)])));
      try done.
    + simpl. by destruct (players room).
    + by rewrite Hi.
    + intros rid' ra' Hr _. by apply H1.
    + intros rid' Hr. destruct (H1 rid' ra Hr) as (r & Hr' & Hi' & _).
      congruence.
    + intros ra' r Hr _. by apply H2.
  - cbv zeta.
    assert (Hnew : (roomObjs s ++ [createRoom rid]) !! length (roomObjs s)
                   = Some (createRoom rid)).
    { rewrite lookup_app_r, Nat.sub_diag by lia. done. }
    cbn [roomObjs]. rewrite Hnew, bind_Some_eq. simpl.
    intros [= <- <-].
    eapply (live_insert (<[rid := length (roomObjs s)]> (rooms s))
              (roomObjs s ++ [createRoom rid]) (length (roomObjs s))
              (createRoom rid)
              (setPlayers (createRoom rid) [length (playerObjs s)]));
      try done.
    + simpl. by rewrite lookup_insert_eq.
    + intros rid' ra' Hr Hne. destruct (decide (rid' = rid)) as [->|Hnr].
      * rewrite lookup_insert_eq in Hr. congruence.
      * rewrite lookup_insert_ne in Hr by done.
        destruct (H1 rid' ra' Hr) as (r & Hr' & Hi' & Hp').
        exists r. split; [by apply lookup_app_l_Some|done].
    + intros rid' Hr. destruct (decide (rid' = rid)) as [->|Hnr]; [done|].
      rewrite lookup_insert_ne in Hr by done.
      apply (good_registry s Hg) in Hr. lia.
    + intros ra' r Hr Hne Hp. apply lookup_app_Some in Hr as [Hr|[Hge Hr]].
      * pose proof (H2 ra' r Hr Hp) as Hr'.
        rewrite lookup_insert_ne; [done|]. intros E. congruence.
      * apply list_lookup_singleton_Some in Hr as [Hz _]. lia.
Qed.

Lemma onClose_live s w s' out :
  good s → seated s → w ∉ closedWs s → live_registry s →
  onClose s w = Some (s', out) → live_registry s'.
Proof.
  intros Hg [_ _ Hseat] Hw [H1 H2]. unfold onClose.
  destruct (currentRoom (connOf s w)) as [ra|] eqn:Hra;
    [|by intros [= <- <-]; split].
  destruct (currentPlayer (connOf s w)) as [pa|] eqn:Hpa;
    [|by intros [= <- <-]; split].
  simpl.
  destruct (roomObjs s !! ra) as [room|] eqn:Hroom; [|done]. simpl.
  destruct (playerObjs s !! pa) as [me|] eqn:Hme; [|done]. simpl.
  destruct (Hseat w (connOf s w) ra pa (connOf_Some s w pa Hpa) Hw Hra Hpa)
    as (room0 & Hroom0 & Hin).
  assert (room0 = room) as -> by congruence.
  assert (Hne : players room ≠ []).
  { intros E. rewrite E in Hin. by apply elem_of_nil in Hin. }
  pose proof (H2 ra room Hroom Hne) as Hreg.
  pose proof (lookup_lt_Some _ _ _ Hroom) as Hlt.
  set (l1 := List.filter _ (players room)).
  set (room2 := if _ <=? _ then _ else _).
  assert (Hp2 : players room2 = l1 ∧ roomId room2 = roomId room).
  { subst room2. by destruct (_ <=? _). }
  destruct Hp2 as [Hp2 Hi2]. rewrite Hp2, Hi2.
  destruct l1 as [|a l1'] eqn:Hl1; simpl; intros [= <- <-].
  - split; simpl.
    + intros rid ra' Hr. apply lookup_delete_Some in Hr as [Hnr Hr].
      destruct (H1 rid ra' Hr) as (r & Hr' & Hi' & Hp').
      exists r. split; [|done]. rewrite list_lookup_insert_ne; [done|].
      intros <-. congruence.
    + intros ra' r Hr Hp. destruct (decide (ra' = ra)) as [->|Hnra].
      * rewrite list_lookup_insert_eq in Hr by done. injection Hr as <-.
        by rewrite Hp2 in Hp.
      * rewrite list_lookup_insert_ne in Hr by done.
        pose proof (H2 ra' r Hr Hp) as Hr'.
        rewrite lookup_delete_ne; [done|]. intros E. congruence.
  - eapply (live_insert (rooms s) (roomObjs s) ra room room2); try done.
    + by rewrite Hp2.
    + intros rid' ra' Hr _. by apply H1.
    + intros rid' Hr. destruct (H1 rid' ra Hr) as (r & Hr' & Hi' & _).
      congruence.
    + intros ra' r Hr _. by apply H2.
Qed.

Lemma step_live s e s' out :
  good s → seated s → live_registry s → enabled s e →
  step s e = Some (s', out) → live_registry s'.
Proof.
  intros Hg Hs Hl He Hstep.
  destruct e as [w data newId die|w]; simpl in Hstep, He;
    [|by eapply onClose_live].
  destruct data as [rid nm col| | | |tokenIndex];
    [by eapply handleJoin_live|..].
  all: apply quiet_step in Hstep as (Hr & _ & _ & Hseats); [|done].
  all: by apply (live_quiet s).
Qed.

(** With fresh ids, the registry holds exactly the room objects that have
    players, each under its own id: a room is registered from its first
    join to the departure of its last player, and a join with its id in
    between reaches this very room object. *)
Theorem registry_holds_live_rooms s :
  reachable_fresh s →
  (∀ rid ra, rooms s !! rid = Some ra →
     ∃ r, roomObjs s !! ra = Some r ∧ roomId r = rid ∧ players r ≠ []) ∧
  (∀ ra r, roomObjs s !! ra = Some r → players r ≠ [] →
     rooms s !! roomId r = Some ra) ∧
  (∀ rid ra, rooms s !! rid = Some ra → getRoom s rid = (s, ra)).
Proof.
  intros Hr.
  assert (Hl : live_registry s).
  { induction Hr as [|s e s' out Hr IH He Hf Hs]; [apply live_initial|].
    eapply step_live; try done.
    - by apply reachable_good, reachable_fresh_reachable.
    - by apply reachable_fresh_seated. }
  destruct Hl as [H1 H2]. split; [done|]. split; [done|].
  intros rid ra Hreg. unfold getRoom. by rewrite Hreg.
Qed.

(** Two players are in room "A" and the first one has left. *)
Lemma registry_holds_live_rooms_witness :
  (∀ rid ra, rooms (after (two_players_ready ++ [Close 0])) !! rid = Some ra →
     ∃ r, roomObjs (after (two_players_ready ++ [Close 0])) !! ra = Some r ∧
          roomId r = rid ∧ players r ≠ []) ∧
  (∀ ra r, roomObjs (after (two_players_ready ++ [Close 0])) !! ra = Some r →
     players r ≠ [] →
     rooms (after (two_players_ready ++ [Close 0])) !! roomId r = Some ra) ∧
  (∀ rid ra, rooms (after (two_players_ready ++ [Close 0])) !! rid = Some ra →
     getRoom (after (two_players_ready ++ [Close 0])) rid
     = (after (two_players_ready ++ [Close 0]), ra)).
Proof.
  apply (registry_holds_live_rooms (after (two_players_ready ++ [Close 0]))).
  apply after_reachable_fresh; [vm_compute; reflexivity|vm_compute; eauto].
Defined.

(** The freshness of the ids is needed here too.  After a repeated id has
    emptied room "A" under the second socket, a third socket joins "A" in
    a new room object; the close of the second socket then deletes "A"
    from the registry although the third player still sits in its room. *)
Example repeated_id_unregisters_live_room :
  reachable (after colliding_ids_rejoin) ∧
  roomObjs (after colliding_ids_rejoin) !! 1%nat
    = Some (mkRoom "A" [2%nat] 0 0 0 false) ∧
  rooms (after colliding_ids_rejoin) !! "A" = None.
Proof.
  split; [apply after_reachable; vm_compute; eauto|].
  split; vm_compute; reflexivity.
Qed.

(** ** The client draws what the server computes *)

(** Checked slot by slot, each slot computed once. *)
Lemma views_agree_all :
  let views := slot_view <$> token_slots in
  Forall (λ a, Forall (views_agree a) views) views.
Proof.
  unfold views_agree.
  apply (bool_decide_unpack _). vm_compute. exact I.
Qed.

Lemma home_slot c i :
  c ∈ COLOR_ORDER → (i < 4)%nat → (c, i, -1) ∈ token_slots.
Proof.
  intros Hc Hi. unfold token_slots. apply elem_of_app. left.
  apply list_elem_of_bind. exists c. split; [|done].
  apply list_elem_of_bind. exists i. split; [apply list_elem_of_here|].
  apply elem_of_seq. lia.
Qed.

Lemma track_slot c p :
  c ∈ COLOR_ORDER → 0 <= p <= 57 → (c, 0%nat, p) ∈ token_slots.
Proof.
  intros Hc Hp. unfold token_slots. apply elem_of_app. right.
  apply list_elem_of_bind. exists c. split; [|done].
  apply list_elem_of_bind. exists p. split; [apply list_elem_of_here|].
  apply list_elem_of_fmap. exists (Z.to_nat p). split; [lia|].
  apply elem_of_seq. lia.
Qed.

Lemma slot_normal c i p :
  c ∈ COLOR_ORDER → (i < 4)%nat → position_ok p →
  ∃ x, x ∈ token_slots ∧
       Client.tokenCell (Some c) i p = (slot_view x).1 ∧
       (if p =? -1 then inl (c, i) else inr (computeGlobalIndex (Some c) p))
       = (slot_view x).2.2.
Proof.
  intros Hc Hi [->|Hp].
  - exists (c, i, -1). split; [by apply home_slot|done].
  - exists (c, 0%nat, p). split; [by apply track_slot|].
    unfold slot_view, Client.tokenCell. simpl.
    destruct (Z.eqb_spec p (-1)); [lia|done].
Qed.

(** The client's tables mirror the server's geometry.  For players of the
    four colors, with tokens at home or at a position 0..57, the client
    finds a cell of the 15 x 15 grid for every token (no destructuring of
    [undefined]), and it draws two tokens in the same cell exactly when the
    server has them in the same spot: the same home slot, or the same global
    index of [computeGlobalIndex]. *)
Theorem client_cells_mirror_server c1 c2 i1 i2 p1 p2 :
  c1 ∈ COLOR_ORDER → c2 ∈ COLOR_ORDER → (i1 < 4)%nat → (i2 < 4)%nat →
  position_ok p1 → position_ok p2 →
  ∃ cell1 cell2,
    Client.tokenCell (Some c1) i1 p1 = Some cell1 ∧
    Client.tokenCell (Some c2) i2 p2 = Some cell2 ∧
    Client.on_grid cell1 = true ∧
    (cell1 = cell2 ↔ same_spot c1 i1 p1 c2 i2 p2).
Proof.
  intros Hc1 Hc2 Hi1 Hi2 Hp1 Hp2.
  destruct (slot_normal c1 i1 p1 Hc1 Hi1 Hp1) as (x & Hx & Hcx & Hkx).
  destruct (slot_normal c2 i2 p2 Hc2 Hi2 Hp2) as (y & Hy & Hcy & Hky).
  pose proof views_agree_all as Hall. cbv zeta in Hall.
  assert (Hpair : ∀ a b, a ∈ token_slots → b ∈ token_slots →
                    views_agree (slot_view a) (slot_view b)).
  { intros a b Ha Hb.
    pose proof (proj1 (Forall_forall _ _) Hall (slot_view a)
                  (list_elem_of_fmap_2 _ _ _ Ha)) as Hrow.
    exact (proj1 (Forall_forall _ _) Hrow (slot_view b)
             (list_elem_of_fmap_2 _ _ _ Hb)). }
  pose proof (Hpair x y Hx Hy) as Hxy.
  pose proof (Hpair y x Hy Hx) as Hyx.
  destruct Hxy as (Hgrid & Hsome1 & Hiff).
  destruct Hyx as (_ & Hsome2 & _).
  change ((slot_view x).2.1)
    with (default false (Client.on_grid <$> (slot_view x).1)) in Hgrid.
  rewrite <- Hcx in Hgrid, Hsome1, Hiff. rewrite <- Hcy in Hsome2, Hiff.
  rewrite <- Hkx, <- Hky in Hiff.
  destruct Hsome1 as [cell1 Hcell1]. destruct Hsome2 as [cell2 Hcell2].
  rewrite Hcell1 in Hgrid, Hiff. rewrite Hcell2 in Hiff.
  exists cell1, cell2. split; [done|]. split; [done|]. split; [done|].
  split.
  - intros ->. assert (Hk := proj1 Hiff eq_refl). unfold same_spot.
    destruct (Z.eqb_spec p1 (-1)), (Z.eqb_spec p2 (-1)); try done.
    + left. injection Hk as -> ->. done.
    + right. injection Hk as Hk. done.
  - intros Hs. assert (Some cell1 = Some cell2) as [= ->]; [|done].
    apply Hiff. destruct Hs as [(-> & -> & -> & ->)|(H1 & H2 & Hg)].
    + done.
    + destruct (Z.eqb_spec p1 (-1)), (Z.eqb_spec p2 (-1)); try done.
      by rewrite Hg.
Qed.

(** Red's position 13 and green's starting cell are one cell and one spot. *)
Lemma client_cells_mirror_server_witness :
  ∃ cell1 cell2,
    Client.tokenCell (Some "red") 0 13 = Some cell1 ∧
    Client.tokenCell (Some "green") 2 0 = Some cell2 ∧
    Client.on_grid cell1 = true ∧
    (cell1 = cell2 ↔ same_spot "red" 0 13 "green" 2 0).
Proof.
  apply (client_cells_mirror_server "red" "green" 0 2 13 0).
  - apply list_elem_of_here.
  - apply list_elem_of_further, list_elem_of_here.
  - lia.
  - lia.
  - right. lia.
  - right. lia.
Defined.

Example red_13_meets_green_start :
  Client.tokenCell (Some "red") 0 13 = Some (8, 0) ∧
  Client.tokenCell (Some "green") 2 0 = Some (8, 0) ∧
  computeGlobalIndex (Some "red") 13 = computeGlobalIndex (Some "green") 0.
Proof. by repeat split. Qed.

(** ** Player objects *)

(** No handler removes a player object or writes its id, name, color or
    socket, and none withdraws [ready]: after any step from a reachable
    state the object is still there with the same identity, and ready if it
    was. *)
Theorem player_identity_is_stable s e s' out a p :
  reachable s → step s e = Some (s', out) → playerObjs s !! a = Some p →
  ∃ p', playerObjs s' !! a = Some p' ∧
        playerId p' = playerId p ∧ name p' = name p ∧ color p' = color p ∧
        ws p' = ws p ∧ (ready p = true → ready p' = true).
Proof.
  intros Hr Hstep Hp.
  destruct (step_player_at s e s' out a p (reachable_good s Hr) Hstep Hp)
    as (p' & Hp' & H1 & H2 & H3 & H4 & H5 & _).
  exists p'. by repeat split.
Qed.

(** The first player moves a token out of home; the second player's object
    keeps its identity and stays ready. *)
Lemma player_identity_is_stable_witness :
  ∃ p', playerObjs (after six_then_out) !! 1%nat = Some p' ∧
        playerId p' = "p1" ∧ name p' = "bob" ∧ color p' = Some "green" ∧
        ws p' = 1%nat ∧ (true = true → ready p' = true).
Proof.
  apply (player_identity_is_stable
           (after (two_players_started ++ [Message 0 Roll "" 6]))
           (Message 0 (Move 0) "" 1) (after six_then_out)
           (default [] (snd <$> step (after (two_players_started
                                               ++ [Message 0 Roll "" 6]))
                                  (Message 0 (Move 0) "" 1)))
           1 (mkPlayer "p1" "bob" (Some "green") 1 true [-1; -1; -1; -1])).
  - apply after_reachable. vm_compute. eauto.
  - vm_compute. reflexivity.
  - vm_compute. reflexivity.
Defined.
